(** * Verification of the ssh helper package (client.go and the server file)

    A shallow embedding of the remote copy framer ([_copy] and its three
    entry points), of the forwarding tunnel's accept loop, of the
    server's channel handler and accept loop, of the commands run on the
    remote host, of the authorized keys and of rcurl's host rewriting,
    followed by the properties proved on them.

    Conventions.
    - A Go [[]byte] is a [list byte]; a Go [string] is a [string] (both are
      sequences of 8-bit characters).
    - [uint8], [uint16], [uint32] values are [Z] with the wrap-around of
      each conversion or addition written out.
    - A Go [error] is a value of [error]; a nil error is [None].
    - Index or slice expressions that are out of range panic in Go; they
      are modelled by [Panic]. *)

From Stdlib Require Import ZArith NArith List Bool Lia.
From Stdlib.Strings Require Import String Ascii Byte.
Import ListNotations.

Local Open Scope string_scope.
Local Open Scope list_scope.

(** ** Errors *)

Inductive error : Type :=
| EOF                      (* io.EOF *)
| ErrShortWrite            (* io.ErrShortWrite *)
| Errno (msg : string).    (* any other error, by its text *)

(** ** Bytes and strings *)

Definition nl : string := String (ascii_of_nat 10) EmptyString.

Definition bytes (s : string) : list byte := list_byte_of_string s.

Definition b2z (b : byte) : Z := Z.of_N (Byte.to_N b).

(** ** The formatting verbs of package fmt that the code uses *)

Module Fmt.

(** [digits[u]] for [u < 10]. *)
Definition digit (u : N) : ascii := ascii_of_N (48 + u).

(** The digit loop of fmt's integer formatting, least significant digit
    first, writing leftwards into the buffer [acc]:
      for u >= base { i--; buf[i] = digits[u % base]; u /= base }
      i--; buf[i] = digits[u]
    [fuel] bounds the number of turns. *)
Fixpoint digits_loop (base : N) (fuel : nat) (u : N) (acc : string) : string :=
  match fuel with
  | O => String (digit u) acc
  | S fuel' =>
      if (base <=? u)%N
      then digits_loop base fuel' (u / base)%N (String (digit (u mod base)%N) acc)
      else String (digit u) acc
  end.

Definition digits_of (base : N) (u : N) : string :=
  digits_loop base (N.size_nat u) u EmptyString.

(** The verb [%#o] on an unsigned integer: octal digits, and with the
    sharp flag a leading 0 unless the first digit already is one. *)
Definition sharp_o (u : N) : string :=
  let buf := digits_of 8 u in
  match buf with
  | String c _ => if Ascii.eqb c "0"%char then buf else String "0"%char buf
  | EmptyString => buf
  end.

(** The verb [%d] on a signed integer. *)
Definition d (i : Z) : string :=
  let buf := digits_of 10 (Z.abs_N i) in
  if (i <? 0)%Z then String "-"%char buf else buf.

(** A byte that is a decimal digit. *)
Definition is_digit (b : byte) : Prop := (48 <= Byte.to_N b < 58)%N.

(** [base] to the number of digits the loop writes for [u]. *)
Fixpoint weight (base : N) (fuel : nat) (u : N) : N :=
  match fuel with
  | O => base
  | S fuel' => if (base <=? u)%N then (base * weight base fuel' (u / base))%N else base
  end.

End Fmt.

(** ** Package path: [path.Base] *)

Module Path.

Definition slash : ascii := "/"%char.

(** Strip trailing slashes: the string is handled reversed, so these are
    leading ones. *)
Fixpoint strip_slashes (rev_path : list ascii) : list ascii :=
  match rev_path with
  | c :: rest => if Ascii.eqb c slash then strip_slashes rest else rev_path
  | [] => []
  end.

(** Of the reversed path, the characters before the first slash: the last
    element of the path, reversed. *)
Fixpoint until_slash (rev_path : list ascii) : list ascii :=
  match rev_path with
  | c :: rest => if Ascii.eqb c slash then [] else c :: until_slash rest
  | [] => []
  end.

Definition Base (path : string) : string :=
  if String.eqb path "" then "."
  else
    let stripped := strip_slashes (rev (list_ascii_of_string path)) in
    let last := rev (until_slash stripped) in
    match last with
    | [] => "/"
    | _ => string_of_list_ascii last
    end.

End Path.

(** ** Sessions of the transport, as seen by the client

    A session exposes the command it was started with, its standard input
    (a write stream that can be closed) and whether it was closed. How the
    transport behaves is part of the session: whether [Start] fails, what
    each coming [Write] on the input stream does, and whether closing the
    input stream fails. *)

Inductive write_outcome : Type :=
| WriteAll                          (* the whole buffer is taken, err = nil *)
| WriteFail (n : nat) (e : error).  (* at most n bytes are taken, then err = e *)

Record Session : Type := mkSession {
  start_err   : option error;        (* what session.Start returns *)
  write_plan  : list write_outcome;  (* the coming Writes; all succeed once it is used up *)
  wclose_err  : option error;        (* what closing the input stream returns *)
  started     : option string;       (* the command running, if any *)
  sent        : list byte;           (* the bytes taken by the input stream so far *)
  stdin_closed : bool;
  closed      : bool;                (* session.Close was called *)
  copy_err    : option error         (* ghost: what the last io.Copy returned *)
}.

(** A connection: opening a session fails, or gives a fresh session. *)
Record Client : Type := mkClient {
  new_session_err : option error;
  c_start_err     : option error;
  c_write_plan    : list write_outcome;
  c_wclose_err    : option error
}.

Definition NewSession (conn : Client) : Session + error :=
  match new_session_err conn with
  | Some e => inr e
  | None => inl (mkSession (c_start_err conn) (c_write_plan conn) (c_wclose_err conn)
                           None [] false false None)
  end.

(** Computations on a session. *)
Definition IO (A : Type) : Type := Session -> A * Session.

Definition ret {A} (a : A) : IO A := fun s => (a, s).

Definition bind {A B} (m : IO A) (k : A -> IO B) : IO B :=
  fun s => let (a, s') := m s in k a s'.

Declare Scope io_scope.
Delimit Scope io_scope with io.
Notation "x <- m ;; k" := (bind m (fun x => k))
  (at level 61, m at next level, right associativity) : io_scope.
Notation "m ;;; k" := (bind m (fun _ => k))
  (at level 61, right associativity) : io_scope.
Local Open Scope io_scope.

(** [session.Start(cmd)] *)
Definition Start (cmd : string) : IO (option error) := fun s =>
  match start_err s with
  | Some e => (Some e, s)
  | None =>
      (None, mkSession (start_err s) (write_plan s) (wclose_err s)
                       (Some cmd) (sent s) (stdin_closed s) (closed s) (copy_err s))
  end.

(** [w.Write(p)] on the session's input stream: the number of bytes taken
    and the error. A write on a closed stream takes nothing (io.EOF). *)
Definition Write (p : list byte) : IO (nat * option error) := fun s =>
  if stdin_closed s then ((O, Some EOF), s)
  else
    match write_plan s with
    | WriteFail n e :: plan =>
        let q := firstn n p in
        ((List.length q, Some e),
         mkSession (start_err s) plan (wclose_err s)
                   (started s) (sent s ++ q) (stdin_closed s) (closed s) (copy_err s))
    | plan =>
        ((List.length p, None),
         mkSession (start_err s) (tl plan) (wclose_err s)
                   (started s) (sent s ++ p) (stdin_closed s) (closed s) (copy_err s))
    end.

(** [w.Close()] on the input stream. *)
Definition WClose : IO (option error) := fun s =>
  (wclose_err s,
   mkSession (start_err s) (write_plan s) (wclose_err s)
             (started s) (sent s) true (closed s) (copy_err s)).

(** [session.Close()], whose result the code never looks at. What
    [stdin_closed] records is the call [w.Close()] alone. *)
Definition SessionClose (s : Session) : Session :=
  mkSession (start_err s) (write_plan s) (wclose_err s)
            (started s) (sent s) (stdin_closed s) true (copy_err s).

(** Ghost step: remember what io.Copy returned. *)
Definition note_copy (e : option error) : IO unit := fun s =>
  (tt, mkSession (start_err s) (write_plan s) (wclose_err s)
                 (started s) (sent s) (stdin_closed s) (closed s) e).

(** An open input stream whose plan holds no failure. *)
Definition sound (s : Session) : Prop :=
  Forall (fun o => o = WriteAll) (write_plan s) /\ stdin_closed s = false.

(** ** Readers and [io.Copy]

    A reader is what its [Read] calls give: a sequence of chunks, then
    io.EOF ([None]) or an error. *)
Record Reader : Type := mkReader {
  chunks   : list (list byte);
  read_end : option error
}.

(** [bytes.NewReader(data)]: one chunk holding everything (its WriteTo makes
    a single Write), none for empty data; it never fails. *)
Definition bytes_NewReader (data : list byte) : Reader :=
  mkReader (match data with [] => [] | _ => [data] end) None.

(** The loop of [io.Copy(w, src)]:
      nr, er := src.Read(buf)
      if nr > 0 { nw, ew := dst.Write(buf[0:nr]); written += nw;
                  if ew != nil { err = ew; break }
                  if nr != nw { err = ErrShortWrite; break } }
      if er != nil { if er != EOF { err = er }; break } *)
Fixpoint copy_loop (cs : list (list byte)) (er : option error) (written : nat)
  : IO (nat * option error) :=
  match cs with
  | [] => ret (written, er)
  | c :: cs' =>
      match c with
      | [] => copy_loop cs' er written
      | _ =>
          r <- Write c ;;
          let (nw, ew) := r in
          match ew with
          | Some e => ret (written + nw, Some e)
          | None =>
              if Nat.eqb (List.length c) nw
              then copy_loop cs' er (written + nw)
              else ret (written + nw, Some ErrShortWrite)
          end
      end
  end.

Definition io_Copy (src : Reader) : IO (nat * option error) :=
  copy_loop (chunks src) (read_end src) O.

(** ** client.go: the remote copy framer *)

Definition FileMode := N.

(** [FileMode.Perm]: the permission bits, [m & 0777]. *)
Definition Perm (m : FileMode) : FileMode := N.land m 511%N.

(** The header line, [fmt.Sprintf("C%#o %d %s\n", mode, size, fileName)].
    [os.FileMode] is a [uint32]; under the verb [%o] it is formatted as
    that number (its [String] method serves [%s] and [%v] only). *)
Definition header (mode : FileMode) (size : Z) (fileName : string) : string :=
  ("C" ++ Fmt.sharp_o mode ++ " " ++ Fmt.d size ++ " " ++ fileName ++ nl)%string.

(** The body of [_copy] once the session is open. The input stream [w]
    is taken from the session ([w, _ := session.StdinPipe()]) before the
    command is started. *)
Definition _copy_session (size : Z) (mode : FileMode) (fileName destination : string)
  (contents : Reader) : IO (option error) :=
  let cmd := ("scp -t " ++ destination)%string in
  err <- Start cmd ;;
  match err with
  | Some e => ret (Some e)
  | None =>
      r <- Write (bytes (header mode size fileName)) ;;
      match snd r with
      | Some e => ret (Some e)
      | None =>
          c <- io_Copy contents ;;        (* io.Copy(w, contents): result dropped *)
          note_copy (snd c) ;;;
          r <- Write [x00] ;;
          match snd r with
          | Some e => ret (Some e)
          | None => WClose
          end
      end
  end.

(** [_copy]: the error returned, and the session it used (none when opening
    failed), after the deferred [session.Close()]. *)
Definition _copy (size : Z) (mode : FileMode) (fileName destination : string)
  (contents : Reader) (conn : Client) : option error * option Session :=
  match NewSession conn with
  | inr err => (Some err, None)
  | inl session =>
      let (err, session') := _copy_session size mode fileName destination contents session in
      (err, Some (SessionClose session'))
  end.

Definition CopyWithFileMode (mode : FileMode) (filename destinationPath : string)
  (data : list byte) (conn : Client) : option error * option Session :=
  _copy (Z.of_nat (List.length data)) mode filename destinationPath (bytes_NewReader data) conn.

(** [Copy]: the default permissions are 0664. *)
Definition Copy (conn : Client) (filename destinationPath : string) (data : list byte)
  : option error * option Session :=
  CopyWithFileMode 436%N filename destinationPath data conn.

(** The local file system, as far as [CopyFile] looks at it: [os.Open]
    fails or gives a file; [f.Stat] fails or gives its size and mode; the
    file is read like any reader. *)
Record FileInfo : Type := mkFileInfo { Size : Z; Mode : FileMode }.

Record File : Type := mkFile { Stat : FileInfo + error; f_reader : Reader }.

Definition FS := string -> File + error.

Definition CopyFile (os_Open : FS) (filePath destinationPath : string) (conn : Client)
  : option error * option Session :=
  match os_Open filePath with
  | inr err => (Some err, None)
  | inl f =>
      match Stat f with
      | inr err => (Some err, None)
      | inl s =>
          _copy (Size s) (Perm (Mode s)) (Path.Base filePath) destinationPath (f_reader f) conn
      end
  end.

(** ** The receiving end of the copy wire format *)

Module ScpSink.

(** Split at the first [stop]: what is before it and what is after it. *)
Fixpoint split_at (stop : byte) (l : list byte) : option (list byte * list byte) :=
  match l with
  | [] => None
  | b :: rest =>
      if Byte.eqb b stop then Some ([], rest)
      else match split_at stop rest with
           | Some (pre, post) => Some (b :: pre, post)
           | None => None
           end
  end.

(** The number a non-empty run of digits below [base] denotes. *)
Fixpoint number_loop (base : N) (ds : list byte) (acc : N) : option N :=
  match ds with
  | [] => Some acc
  | c :: ds' =>
      let v := (Byte.to_N c - 48)%N in
      if ((48 <=? Byte.to_N c) && (v <? base))%N
      then number_loop base ds' (acc * base + v)%N
      else None
  end.

Definition number (base : N) (ds : list byte) : option N :=
  match ds with
  | [] => None
  | _ => number_loop base ds 0%N
  end.

Record Received : Type := mkReceived {
  r_mode : N;
  r_name : string;
  r_data : list byte
}.

(** Modelled from the spec: the receiver of the Remote Copy wire format
    (section 6), which the repository leaves to the remote copy-receiving
    command and has no code for. It reads the line
    [C<mode octal> <length decimal> <name>\n], the mode being four or
    more octal digits, then exactly [length] raw bytes, then one NUL
    byte, and nothing more. *)
Definition receive (stream : list byte) : option Received :=
  match stream with
  | "C"%byte :: rest =>
      match split_at " "%byte rest with
      | Some (mode_digits, rest1) =>
          match (if Nat.leb 4 (List.length mode_digits) then number 8 mode_digits else None),
                split_at " "%byte rest1 with
          | Some mode, Some (length_digits, rest2) =>
              match number 10 length_digits, split_at "010"%byte rest2 with
              | Some len, Some (name, body) =>
                  let n := N.to_nat len in
                  match skipn n body with
                  | [ "000"%byte ] =>
                      if Nat.eqb (List.length (firstn n body)) n
                      then Some (mkReceived mode (string_of_list_byte name) (firstn n body))
                      else None
                  | _ => None
                  end
              | _, _ => None
              end
          | _, _ => None
          end
      | None => None
      end
  | _ => None
  end.

End ScpSink.

(** ** client.go: the forwarding tunnel *)

Module Tunnel.

(** The text of an error, [err.Error()]. *)
Definition Error (e : error) : string :=
  match e with
  | EOF => "EOF"
  | ErrShortWrite => "short write"
  | Errno msg => msg
  end.

(** The streams of a session as [ForwardNetcat] hands them out; a nil
    stream is [None]. *)
Inductive Pipe : Type :=
| StdinOf (s : Session)
| StdoutOf (s : Session)
| StderrOf (s : Session).

Record Forwarded : Type := mkForwarded {
  f_stdin  : option Pipe;
  f_stdout : option Pipe;
  f_stderr : option Pipe;
  f_err    : option error
}.

(** [getPipesAndSession] *)
Definition getPipesAndSession (conn : Client)
  : option Pipe * option Pipe * option Pipe * option Session * option error :=
  match NewSession conn with
  | inr err => (None, None, None, None, Some err)
  | inl session =>
      (Some (StdinOf session), Some (StdoutOf session), Some (StderrOf session),
       Some session, None)
  end.

(** [ForwardNetcat] *)
Definition ForwardNetcat (conn : Client) (url : string) (port : Z) : Forwarded :=
  match getPipesAndSession conn with
  | (_, _, _, _, Some err) => mkForwarded None None None (Some err)
  | (stdin, stdout, stderr, Some session, None) =>
      let cmd := ("nc " ++ url ++ " " ++ Fmt.d port)%string in
      mkForwarded stdin stdout stderr (fst (Start cmd session))
  | (stdin, stdout, stderr, None, None) => mkForwarded stdin stdout stderr None
  end.

(** An accepted local connection, by its number. *)
Definition Conn := nat.

(** The copy tasks, by their arguments. *)
Inductive copy_task : Type :=
| StdoutToLocal (l : Conn) (stdout : option Pipe)  (* io.CopyBuffer(l, stdout, buf) *)
| LocalToStdin (stdin : option Pipe) (l : Conn)    (* io.CopyBuffer(stdin, l, buf) *)
| StderrToBuffer (stderr : option Pipe).           (* io.Copy(stderrBuffer, stderr) *)

(** What the goroutine of one connection does. *)
Inductive conn_action : Type :=
| SessionInfo (msg : string)      (* log.Info *)
| SessionError (e : error)        (* log.Error *)
| GoCopy (t : copy_task).         (* go func() { ... copy ... }() *)

(** What the accept loop does. *)
Inductive action : Type :=
| LogInfo (msg : string)
| Println (e : error)
| GoConn (body : list conn_action)   (* go func() { ... }() for one connection *)
| ListenerClose.

(** The copy tasks a connection's goroutine starts. *)
Definition copies_started (body : list conn_action) : list copy_task :=
  flat_map (fun a => match a with GoCopy t => [t] | _ => [] end) body.

(** A copy on a nil stream panics, and a panic in a goroutine ends the
    process. [io.Copy] and [io.CopyBuffer] read from their source first:
    with a nil source the first read panics. With a nil destination the
    first write panics, that is once the local side has sent bytes
    ([sends]). *)
Definition copy_panics (sends : bool) (t : copy_task) : bool :=
  match t with
  | StdoutToLocal _ None => true
  | StderrToBuffer None => true
  | LocalToStdin None _ => sends
  | _ => false
  end.

(** What the loop of [Forward] meets: the results of the coming calls of
    [listener.Accept] and, between them, the moments at which the copy
    goroutines of a connection get to run. *)
Inductive event : Type :=
| Accepted (l : Conn)
| AcceptFailed (e : error)
| CopiesRun (l : Conn) (sends : bool).

(** How [Forward] stands. *)
Inductive standing : Type :=
| InAccept               (* the loop is blocked in Accept *)
| Returns (e : error)    (* Forward returned e *)
| Crashed.               (* a goroutine panicked: the process has ended *)

Section Forward.

(** The session opener handed to [Forward]; [l] tells the calls of the
    different connections apart. *)
Variable forwardFunc : Conn -> Client -> string -> Z -> Forwarded.
Variable conn : Client.
Variable url : string.
Variable port : Z.

(** The goroutine started for the accepted connection [l]. *)
Definition serve_conn (l : Conn) : list conn_action :=
  let r := forwardFunc l conn url port in
  [SessionInfo "Starting session..."]
  ++ match f_err r with
     | Some err => [SessionError err]
     | None => []
     end
  ++ [GoCopy (StdoutToLocal l (f_stdout r));
      GoCopy (LocalToStdin (f_stdin r) l);
      GoCopy (StderrToBuffer (f_stderr r))].

(** The copy goroutines of [l], started before and now running, panic. *)
Definition panics_when_run (started : list Conn) (l : Conn) (sends : bool) : bool :=
  existsb (Nat.eqb l) started
  && existsb (copy_panics sends) (copies_started (serve_conn l)).

(** [Forward], over what the loop meets, [started] being the connections
    whose goroutine was started. With the events used up the loop is
    blocked in [Accept]; it returns on the first failed [Accept] only,
    and it ends with the process when a goroutine panics. *)
Fixpoint Forward_from (started : list Conn) (events : list event)
  : list action * standing :=
  match events with
  | [] => ([], InAccept)
  | AcceptFailed err :: _ =>
      ([LogInfo "Accepting connection..."; Println err; ListenerClose], Returns err)
  | Accepted l :: rest =>
      let (acts, r) := Forward_from (l :: started) rest in
      (LogInfo "Accepting connection..." :: GoConn (serve_conn l) :: acts, r)
  | CopiesRun l sends :: rest =>
      if panics_when_run started l sends then ([], Crashed)
      else Forward_from started rest
  end.

Definition Forward (events : list event) : list action * standing :=
  Forward_from [] events.

End Forward.

(** The event is a result of [Accept]. *)
Definition of_Accept (e : event) : bool :=
  match e with
  | CopiesRun _ _ => false
  | _ => true
  end.

End Tunnel.

(** ** The server: channels, the shell relay and the in-band requests *)

Module Server.

(** Go's run-time panics (index or slice out of range, nil dereference). *)
Inductive outcome (A : Type) : Type :=
| Done (a : A)
| Panic.
Arguments Done {A} a.
Arguments Panic {A}.

Definition and_then {A B} (m : outcome A) (k : A -> outcome B) : outcome B :=
  match m with
  | Done a => k a
  | Panic => Panic
  end.

Notation "x <-! m ;; k" := (and_then m (fun x => k))
  (at level 61, m at next level, right associativity).
Notation "' p <-! m ;; k" := (and_then m (fun x => let 'p := x in k))
  (at level 61, p pattern, m at next level, right associativity).

(** [b[i]] *)
Definition index (b : list byte) (i : nat) : outcome byte :=
  match nth_error b i with
  | Some x => Done x
  | None => Panic
  end.

(** [b[i:]] *)
Definition slice_from (b : list byte) (i : nat) : outcome (list byte) :=
  if Nat.leb i (List.length b) then Done (skipn i b) else Panic.

(** [binary.BigEndian.Uint32(b)]:
      _ = b[3]
      return uint32(b[3]) | uint32(b[2])<<8 | uint32(b[1])<<16 | uint32(b[0])<<24 *)
Definition Uint32 (b : list byte) : outcome Z :=
  _ <-! index b 3 ;;
  b3 <-! index b 3 ;;
  b2 <-! index b 2 ;;
  b1 <-! index b 1 ;;
  b0 <-! index b 0 ;;
  Done (Z.lor (Z.lor (Z.lor (b2z b3) (Z.shiftl (b2z b2) 8))
                     (Z.shiftl (b2z b1) 16))
              (Z.shiftl (b2z b0) 24)).

(** [parseDims] *)
Definition parseDims (b : list byte) : outcome (Z * Z) :=
  w <-! Uint32 b ;;
  b4 <-! slice_from b 4 ;;
  h <-! Uint32 b4 ;;
  Done (w, h).

(** The conversion [uint16(v)] keeps the low 16 bits. *)
Definition uint16 (v : Z) : Z := Z.land v 65535.

Record Winsize : Type := mkWinsize {
  Height : Z;
  Width  : Z;
  x      : Z;
  y      : Z
}.

(** What the request loop acts on: the geometry of the pty (set through
    the TIOCSWINSZ ioctl) and the replies sent on the channel so far. *)
Record Shell : Type := mkShell {
  pty_winsize : Winsize;
  replies     : list bool
}.

(** [SetWinsize(fd, w, h)]: the ioctl hands the pty the structure
    [Winsize{Width: uint16(w), Height: uint16(h)}]. *)
Definition SetWinsize (w h : Z) (sh : Shell) : Shell :=
  let ws := mkWinsize (uint16 h) (uint16 w) 0 0 in
  mkShell ws (replies sh).

(** [req.Reply(ok, nil)] *)
Definition Reply (ok : bool) (sh : Shell) : Shell :=
  mkShell (pty_winsize sh) (replies sh ++ [ok]).

Record Request : Type := mkRequest {
  Type_   : string;
  Payload : list byte
}.

(** The byte addition [termLen+4] wraps at 256. *)
Definition add_uint8 (a b : Z) : Z := (a + b) mod 256.

(** One turn of the request loop: the [switch req.Type]. *)
Definition serve_request (req : Request) (sh : Shell) : outcome Shell :=
  if String.eqb (Type_ req) "shell" then
    if Nat.eqb (List.length (Payload req)) 0 then Done (Reply true sh) else Done sh
  else if String.eqb (Type_ req) "pty-req" then
    termLen <-! index (Payload req) 3 ;;
    b <-! slice_from (Payload req) (Z.to_nat (add_uint8 (b2z termLen) 4)) ;;
    ' (w, h) <-! parseDims b ;;
    Done (Reply true (SetWinsize w h sh))
  else if String.eqb (Type_ req) "window-change" then
    ' (w, h) <-! parseDims (Payload req) ;;
    Done (SetWinsize w h sh)
  else Done sh.

(** [for req := range requests { ... }]: a panic ends the loop (and the
    process). *)
Fixpoint serve_requests (reqs : list Request) (sh : Shell) : outcome Shell :=
  match reqs with
  | [] => Done sh
  | req :: rest => sh' <-! serve_request req sh ;; serve_requests rest sh'
  end.

(** *** Channels *)

Inductive RejectionReason : Type :=
| Prohibited
| ConnectionFailed
| UnknownChannelType
| ResourceShortage.

(** An incoming channel: its declared type, and how the outside behaves
    once the handler goes on with it. *)
Record NewChannel : Type := mkNewChannel {
  ChannelType : string;
  accept_err  : option error;   (* what newChannel.Accept returns *)
  pty_err     : option error;   (* what pty.Start returns *)
  wait_err    : option error;   (* what bash.Process.Wait returns *)
  requests    : list Request
}.

Inductive relay : Type :=
| PtyToChannel     (* io.Copy(connection, bashf); once.Do(close) *)
| ChannelToPty.    (* io.Copy(bashf, connection); once.Do(close) *)

Inductive action : Type :=
| Reject (reason : RejectionReason) (message : string)
| Accept
| Errorf (msg : string)             (* log.Errorf *)
| Infof (msg : string)              (* log.Infof *)
| ConnectionClose                   (* connection.Close() *)
| ProcessWait                       (* bash.Process.Wait() *)
| NilDereference                    (* a panic: bash.Process is nil *)
| GoRelay (r : relay)
| GoRequests (reqs : list Request).

(** The teardown closure [close]. *)
Definition teardown (wait : option error) : list action :=
  [ConnectionClose; ProcessWait]
  ++ match wait with
     | Some err => [Errorf ("Failed to exit bash (" ++ Tunnel.Error err ++ ")")%string]
     | None => []
     end
  ++ [Infof "Session closed"].

(** [handleChannel], up to the goroutines it starts. When [pty.Start]
    fails no process was started, [bash.Process] is nil and the teardown
    stops at [bash.Process.Wait()]. *)
Definition handleChannel (newChannel : NewChannel) : list action :=
  let t := ChannelType newChannel in
  if negb (String.eqb t "session") then
    [Reject UnknownChannelType ("unknown channel type: " ++ t)%string]
  else
    match accept_err newChannel with
    | Some err =>
        [Accept; Errorf ("Could not accept channel (" ++ Tunnel.Error err ++ ")")%string]
    | None =>
        Accept :: Infof "Creating pty..." ::
        match pty_err newChannel with
        | Some err =>
            [Errorf ("Could not start pty (" ++ Tunnel.Error err ++ ")")%string;
             ConnectionClose; NilDereference]
        | None =>
            [GoRelay PtyToChannel; GoRelay ChannelToPty;
             GoRequests (requests newChannel)]
        end
    end.

(** [handleChannels]: one goroutine per incoming channel, each running
    [handleChannel]. *)
Definition handleChannels (chans : list NewChannel) : list (list action) :=
  map handleChannel chans.

End Server.

(** ** The two relay goroutines and their [sync.Once]

    Each relay goroutine runs [io.Copy(...)] and then [once.Do(close)].
    [Once.Do(f)] is
      if atomic.LoadUint32(&o.done) == 0 { o.doSlow(f) }
    and [doSlow] is
      o.m.Lock(); defer o.m.Unlock()
      if o.done == 0 { defer atomic.StoreUint32(&o.done, 1); f() }
    The goroutines are run one step at a time under an arbitrary schedule:
    a list naming, turn after turn, the goroutine that moves, or the exit
    of the shell. A goroutine that is never named stays where it is (its
    copy never ends); one that waits for the mutex does not move when
    named, and neither does one inside [bash.Process.Wait()] while the
    shell runs. *)

Module Relay.

Import Server.

(** Where a relay goroutine is. *)
Inductive pc : Type :=
| Copying       (* inside io.Copy *)
| DoLoad        (* Do: about to load o.done *)
| DoLock        (* doSlow: about to take o.m *)
| DoCheck       (* doSlow, holding o.m: about to test o.done *)
| FClose        (* close: about to call connection.Close() *)
| FWait         (* close: about to call bash.Process.Wait() *)
| FWaiting      (* close: inside bash.Process.Wait(), until the shell has exited *)
| FLogErr       (* close: about to log the error of Wait *)
| FLogInfo      (* close: about to log "Session closed" *)
| DoStore       (* deferred: about to store o.done = 1 *)
| DoUnlock      (* deferred: about to release o.m *)
| Returned.     (* once.Do returned; the goroutine ends *)

(** What happens next: a goroutine takes its next step, or the shell
    exits with a status. Nothing in the handler makes the shell exit. *)
Inductive event : Type :=
| Moves (g : relay)
| ShellExits (status : Z).

Record state : Type := mkState {
  pc_out : pc;             (* the goroutine copying pty to channel *)
  pc_in  : pc;             (* the goroutine copying channel to pty *)
  done   : bool;           (* o.done *)
  locked : bool;           (* o.m is held *)
  exited : option Z;       (* the exit status of the shell, once it has exited *)
  trace  : list action     (* what was done to the channel, the process and the log *)
}.

Definition init : state := mkState Copying Copying false false None [].

(** One step of a goroutine at [p]: its next place, the flags and the
    trace; [None] when it cannot move (the mutex is held by the other,
    or the shell has not exited yet). [wait] is the error that
    [bash.Process.Wait()] returns; the process state it returns with it,
    which holds the exit status, is dropped by the code. *)
Definition step_pc (wait : option error) (ex : option Z) (p : pc) (dn lk : bool)
  (tr : list action) : option (pc * bool * bool * list action) :=
  match p with
  | Copying  => Some (DoLoad, dn, lk, tr)
  | DoLoad   => Some (if dn then Returned else DoLock, dn, lk, tr)
  | DoLock   => if lk then None else Some (DoCheck, dn, true, tr)
  | DoCheck  => Some (if dn then DoUnlock else FClose, dn, lk, tr)
  | FClose   => Some (FWait, dn, lk, tr ++ [ConnectionClose])
  | FWait    => Some (FWaiting, dn, lk, tr ++ [ProcessWait])
  | FWaiting =>
      match ex with
      | Some _ => Some (match wait with Some _ => FLogErr | None => FLogInfo end, dn, lk, tr)
      | None => None
      end
  | FLogErr  => Some (FLogInfo, dn, lk,
                      tr ++ match wait with
                            | Some err =>
                                [Errorf ("Failed to exit bash (" ++ Tunnel.Error err ++ ")")%string]
                            | None => []
                            end)
  | FLogInfo => Some (DoStore, dn, lk, tr ++ [Infof "Session closed"])
  | DoStore  => Some (DoUnlock, true, lk, tr)
  | DoUnlock => Some (Returned, dn, false, tr)
  | Returned => None
  end.

Definition step (wait : option error) (e : event) (s : state) : state :=
  match e with
  | ShellExits status =>
      match exited s with
      | Some _ => s
      | None => mkState (pc_out s) (pc_in s) (done s) (locked s) (Some status) (trace s)
      end
  | Moves PtyToChannel =>
      match step_pc wait (exited s) (pc_out s) (done s) (locked s) (trace s) with
      | Some (p, dn, lk, tr) => mkState p (pc_in s) dn lk (exited s) tr
      | None => s
      end
  | Moves ChannelToPty =>
      match step_pc wait (exited s) (pc_in s) (done s) (locked s) (trace s) with
      | Some (p, dn, lk, tr) => mkState (pc_out s) p dn lk (exited s) tr
      | None => s
      end
  end.

Definition run (wait : option error) (schedule : list event) (s : state) : state :=
  fold_left (fun s e => step wait e s) schedule s.

(** How often the channel was closed and how often Wait was called. *)
Definition closes (tr : list action) : nat :=
  List.length (filter (fun a => match a with ConnectionClose => true | _ => false end) tr).

Definition waits (tr : list action) : nat :=
  List.length (filter (fun a => match a with ProcessWait => true | _ => false end) tr).

(** The place of a goroutine in a state, and the other goroutine. *)
Definition pc_of (g : relay) (s : state) : pc :=
  match g with PtyToChannel => pc_out s | ChannelToPty => pc_in s end.

Definition other (g : relay) : relay :=
  match g with PtyToChannel => ChannelToPty | ChannelToPty => PtyToChannel end.

(** The goroutine holds the mutex at these places. *)
Definition holds (p : pc) : bool :=
  match p with
  | DoCheck | FClose | FWait | FWaiting | FLogErr | FLogInfo | DoStore | DoUnlock => true
  | _ => false
  end.

(** How much of the teardown a goroutine at [p] has done. *)
Definition progress (wait : option error) (p : pc) : list action :=
  match p with
  | FWait => [ConnectionClose]
  | FWaiting | FLogErr => [ConnectionClose; ProcessWait]
  | FLogInfo =>
      [ConnectionClose; ProcessWait]
      ++ match wait with
         | Some err => [Errorf ("Failed to exit bash (" ++ Tunnel.Error err ++ ")")%string]
         | None => []
         end
  | DoStore => teardown wait
  | _ => []
  end.

(** The goroutine is inside the teardown, or about to store [o.done]. *)
Definition in_teardown (p : pc) : bool :=
  match p with
  | FClose | FWait | FWaiting | FLogErr | FLogInfo | DoStore => true
  | _ => false
  end.

(** The goroutine has seen or stored [o.done = 1]. *)
Definition past_done (p : pc) : bool :=
  match p with
  | DoUnlock | Returned => true
  | _ => false
  end.

(** The goroutine is back from Wait and still in the teardown. *)
Definition past_wait (p : pc) : bool :=
  match p with
  | FLogErr | FLogInfo | DoStore => true
  | _ => false
  end.

Definition at_log_err (p : pc) : bool :=
  match p with
  | FLogErr => true
  | _ => false
  end.

Definition failed (wait : option error) : bool :=
  match wait with
  | Some _ => true
  | None => false
  end.

Definition has_exited (ex : option Z) : bool :=
  match ex with
  | Some _ => true
  | None => false
  end.

(** The places the two goroutines can be at together, given [o.done]
    and whether the shell has exited. *)
Definition control_ok (wait : option error) (ex : option Z) (po pi : pc) (dn : bool) : bool :=
  negb (holds po && holds pi)
  && implb (past_done po || past_done pi) dn
  && implb (in_teardown po || in_teardown pi) (negb dn)
  && implb (at_log_err po || at_log_err pi) (failed wait)
  && implb (dn || past_wait po || past_wait pi) (has_exited ex).

(** The invariant of the relay pair: at most one goroutine holds the
    mutex, nothing is past Wait while the shell runs, and the trace is
    what the holder (or a finished run) made it. *)
Definition consistent (wait : option error) (s : state) : Prop :=
  control_ok wait (exited s) (pc_out s) (pc_in s) (done s) = true /\
  locked s = (holds (pc_out s) || holds (pc_in s)) /\
  trace s =
    (if done s then teardown wait
     else progress wait (pc_out s) ++ progress wait (pc_in s)).

(** No goroutine can take a step. *)
Definition stuck (wait : option error) (s : state) : Prop :=
  forall g : relay, step wait (Moves g) s = s.

End Relay.

(** ** Big-endian numbers *)

(** The value of a byte sequence read as a big-endian number: each byte
    is one base-256 digit, the most significant first. *)
Definition big_endian (bs : list byte) : Z :=
  fold_left (fun acc b => (acc * 256 + b2z b)%Z) bs 0%Z.

(** ** Concrete transports and files used in the examples *)

Module Examples.

(** A transport on which nothing fails. *)
Definition healthy : Client := mkClient None None [] None.

(** A transport whose input stream takes the header line, fails the next
    write after [k] bytes with [e], and takes every later write. *)
Definition failing_payload (k : nat) (e : error) : Client :=
  mkClient None None [WriteAll; WriteFail k e] None.

(** A file system in which every path is a directory of mode
    [ModeDir | 0755] and size 4096: it can be opened and inspected, and
    reading it fails. *)
Definition EISDIR : error := Errno "is a directory".

Definition directories : FS := fun _ =>
  inl (mkFile (inl (mkFileInfo 4096%Z 2147484141%N)) (mkReader [] (Some EISDIR))).

(** A window-change payload: width 120, height 40. *)
Definition resize_120_40 : list byte :=
  [x00; x00; x00; x78; x00; x00; x00; x28].

(** A pty-req payload whose terminal name has [n] characters, followed by
    width 80 and height 24; [l3] is the low byte of the name's length,
    the three bytes before it are 0. *)
Definition pty_req (l3 : byte) (n : nat) : list byte :=
  [x00; x00; x00; l3] ++ repeat "x"%byte n
  ++ [x00; x00; x00; x50; x00; x00; x00; x18].

Definition fresh : Server.Shell := Server.mkShell (Server.mkWinsize 0%Z 0%Z 0%Z 0%Z) [].

End Examples.
(** ** Package strings: the functions the package uses *)

Module Strings.

(** The double quote, as a character and as a string. *)
Definition dquote_char : ascii := ascii_of_nat 34.
Definition dquote : string := String dquote_char EmptyString.
Definition backslash : ascii := ascii_of_nat 92.

(** [strings.HasPrefix(s, prefix)] *)
Fixpoint HasPrefix (s prefix : string) {struct prefix} : bool :=
  match prefix with
  | EmptyString => true
  | String p prefix' =>
      match s with
      | String c s' => Ascii.eqb c p && HasPrefix s' prefix'
      | EmptyString => false
      end
  end.

(** [strings.Contains(s, substr)] *)
Fixpoint Contains (s substr : string) : bool :=
  HasPrefix s substr
  || match s with
     | String _ s' => Contains s' substr
     | EmptyString => false
     end.

(** [strings.Replace(s, old, new, -1)] for a non-empty [old]: every
    occurrence of [old], found from left to right without overlap, becomes
    [new]. [skip] counts the characters of an occurrence still to pass. *)
Fixpoint replace_from (old new : string) (skip : nat) (s : string) : string :=
  match s with
  | EmptyString => EmptyString
  | String c s' =>
      match skip with
      | S k => replace_from old new k s'
      | O =>
          if HasPrefix s old
          then (new ++ replace_from old new (String.length old - 1) s')%string
          else String c (replace_from old new 0 s')
      end
  end.

Definition Replace (s old new : string) : string := replace_from old new 0 s.

(** [strings.Split(s, sep)] for a separator of one character: the pieces
    between the separators, one more than there are separators. *)
Fixpoint Split (s : string) (sep : ascii) : list string :=
  match s with
  | EmptyString => [EmptyString]
  | String c s' =>
      if Ascii.eqb c sep then EmptyString :: Split s' sep
      else match Split s' sep with
           | piece :: pieces => String c piece :: pieces
           | [] => [String c EmptyString]
           end
  end.

(** The character [c] does not occur in [s]. *)
Fixpoint free_of (c : ascii) (s : string) : Prop :=
  match s with
  | EmptyString => True
  | String d s' => d <> c /\ free_of c s'
  end.

End Strings.

(** ** client.go: commands run on the remote host

    The functions below open a session, run one command with
    [session.Output] and look at what it printed. The remote side is a
    world of any type with a function [exec] giving, for a command, what
    it prints on standard output and the error of the run. A connection
    records what the coming calls of [NewSession] return, how many
    sessions were opened and closed, and the commands run. *)

Module Remote.

(** The errors these functions return: the package's two sentinel
    values, an [errors.New] of a text, or an error of the transport. *)
Inductive rerror : Type :=
| FileNotFound
| FileExists
| New (msg : string)
| Transport (e : error).

(** The escaped quote that [CurlFromRemote] looks for: a backslash and
    two double quotes. *)
Definition escaped : string :=
  String Strings.backslash (Strings.dquote ++ Strings.dquote).

(** The text [StatRemoteFile] looks for in the output of [stat]. *)
Definition missing : string := "No such file or directory".

Definition lift (e : option error) : option rerror :=
  match e with
  | Some e => Some (Transport e)
  | None => None
  end.

Section Host.

Variable World : Type.
Variable exec : string -> World -> (string * option error) * World.

Record Host : Type := mkHost {
  world    : World;
  dial     : list (option error);  (* the coming results of NewSession; none fails once used up *)
  n_opened : nat;
  n_closed : nat;
  issued   : list string           (* the commands run, in order *)
}.

(** [conn.NewSession()]: the error, nil when a session was opened. *)
Definition NewSession (h : Host) : option error * Host :=
  match dial h with
  | Some e :: rest => (Some e, mkHost (world h) rest (n_opened h) (n_closed h) (issued h))
  | _ => (None, mkHost (world h) (tl (dial h)) (S (n_opened h)) (n_closed h) (issued h))
  end.

(** [session.Output(cmd)] *)
Definition Output (cmd : string) (h : Host) : (string * option error) * Host :=
  let (r, w) := exec cmd (world h) in
  (r, mkHost w (dial h) (n_opened h) (n_closed h) (issued h ++ [cmd])).

(** [session.Close()] *)
Definition Close (h : Host) : Host :=
  mkHost (world h) (dial h) (n_opened h) (S (n_closed h)) (issued h).

(** [StatRemoteFile]: the output of [stat] (nil with an error) and the
    error. *)
Definition StatRemoteFile (remoteOutPath : string) (h : Host)
  : (option string * option rerror) * Host :=
  match NewSession h with
  | (Some err, h1) => ((None, Some (Transport err)), h1)
  | (None, h1) =>
      (* defer session.Close() *)
      let '((statResp, err), h2) := Output ("stat " ++ remoteOutPath) h1 in
      match err with
      | Some err => ((None, Some (Transport err)), Close h2)
      | None =>
          if Strings.Contains statResp missing
          then ((None, Some FileNotFound), Close h2)
          else ((Some statResp, None), Close h2)
      end
  end.

(** [DoesRemoteFileExist] *)
Definition DoesRemoteFileExist (filepath : string) (h : Host) : bool * Host :=
  match StatRemoteFile filepath h with
  | ((_, Some _), h1) => (false, h1)
  | ((_, None), h1) => (true, h1)
  end.

(** What a command that should print nothing printed: nil for nothing,
    else the text as an error. *)
Definition silent (resp : string) : option rerror :=
  if String.eqb resp "" then None else Some (New resp).

(** [MakeRemoteDir]. The error of its own [NewSession] is not looked at:
    when that call fails the session is nil and [session.Output] panics. *)
Definition MakeRemoteDir (dirname : string) (h : Host)
  : Server.outcome (option rerror * Host) :=
  match StatRemoteFile dirname h with
  | ((_, None), h1) => Server.Done (Some FileExists, h1)
  | ((_, Some _), h1) =>
      match NewSession h1 with
      | (Some _, h2) => Server.Panic
      | (None, h2) =>
          let '((resp, err), h3) := Output ("mkdir " ++ dirname) h2 in
          match err with
          | Some err => Server.Done (Some (Transport err), Close h3)
          | None => Server.Done (silent resp, Close h3)
          end
      end
  end.

(** The common shape of [RemoveRemoteDir] and [RemoveRemoteFile], which
    differ in the command only. *)
Definition remove_with (command : string) (name : string) (h : Host)
  : option rerror * Host :=
  match DoesRemoteFileExist name h with
  | (false, h1) => (Some FileNotFound, h1)
  | (true, h1) =>
      match NewSession h1 with
      | (Some err, h2) => (Some (Transport err), h2)
      | (None, h2) =>
          let '((resp, err), h3) := Output (command ++ name) h2 in
          match err with
          | Some err => (Some (Transport err), Close h3)
          | None => (silent resp, Close h3)
          end
      end
  end.

Definition RemoveRemoteDir (dirname : string) : Host -> option rerror * Host :=
  remove_with "rmdir " dirname.

Definition RemoveRemoteFile (filepath : string) : Host -> option rerror * Host :=
  remove_with "rm " filepath.

(** [GetRemoteFile]: data, filename and error, as the named results
    stand at each return. The file name is [filepath.Base] of the path,
    which is [path.Base] where the separator is the slash. *)
Definition GetRemoteFile (path : string) (h : Host)
  : (string * string * option rerror) * Host :=
  match StatRemoteFile path h with
  | ((_, Some err), h1) => (("", "", Some err), h1)
  | ((_, None), h1) =>
      match NewSession h1 with
      | (Some sErr, h2) => (("", "", Some (Transport sErr)), h2)
      | (None, h2) =>
          let filename := Path.Base path in
          let '((data, err), h3) := Output ("cat " ++ path) h2 in
          ((data, filename, lift err), Close h3)
      end
  end.

(** The command line of [CurlFromRemote]. *)
Definition curl_arg (s : string) : string :=
  if Strings.Contains s escaped then Strings.Replace s escaped Strings.dquote else s.

Definition curl_command (url : string) (args : list string) : string :=
  let cmd := fold_left (fun cmd s => (cmd ++ " " ++ curl_arg s)%string) args "curl" in
  (cmd ++ " " ++ Strings.dquote ++ url ++ Strings.dquote)%string.

(** [CurlFromRemote] *)
Definition CurlFromRemote (url : string) (args : list string) (h : Host)
  : (string * option rerror) * Host :=
  match NewSession h with
  | (Some err, h1) => (("", Some (Transport err)), h1)
  | (None, h1) =>
      let '((out, err), h2) := Output (curl_command url args) h1 in
      ((out, lift err), Close h2)
  end.

(** The run of [stat] printed [out] without an error and without the
    text that stands for a missing file. *)
Definition stat_ok (path : string) (h : Host) (out : string) : Prop :=
  fst (NewSession h) = None /\
  fst (exec ("stat " ++ path)%string (world h)) = (out, None) /\
  Strings.Contains out missing = false.

(** Every session opened between [h] and [h'] was closed. *)
Definition balanced (h h' : Host) : Prop :=
  n_opened h' + n_closed h = n_closed h' + n_opened h.

End Host.

Arguments mkHost {World} world dial n_opened n_closed issued.
Arguments world {World} h.
Arguments dial {World} h.
Arguments n_opened {World} h.
Arguments n_closed {World} h.
Arguments issued {World} h.
Arguments NewSession {World} h.
Arguments Close {World} h.
Arguments balanced {World} h h'.

End Remote.

(** A remote host for the examples: the world is the list of the paths
    that exist; [stat] prints a line for a path that exists and fails for
    another, [mkdir] adds a path, [rm] and [rmdir] take one away, and
    every other command prints nothing. *)
Module RemoteExample.

Definition exists_in (w : list string) (p : string) : bool :=
  existsb (String.eqb p) w.

Definition after (prefix cmd : string) : string :=
  substring (String.length prefix) (String.length cmd - String.length prefix) cmd.

Definition exec (cmd : string) (w : list string) : (string * option error) * list string :=
  if Strings.HasPrefix cmd "stat " then
    if exists_in w (after "stat " cmd)
    then ((("  File: " ++ after "stat " cmd)%string, None), w)
    else (("", Some (Errno "Process exited with status 1")), w)
  else if Strings.HasPrefix cmd "mkdir " then (("", None), after "mkdir " cmd :: w)
  else if Strings.HasPrefix cmd "rm " then
    (("", None), filter (fun p => negb (String.eqb p (after "rm " cmd))) w)
  else if Strings.HasPrefix cmd "rmdir " then
    (("", None), filter (fun p => negb (String.eqb p (after "rmdir " cmd))) w)
  else (("", None), w).

Definition host (w : list string) (dial : list (option error)) : Remote.Host (list string) :=
  Remote.mkHost w dial 0 0 [].

End RemoteExample.

(** ** The server file: authorized keys *)

Module Keys.

(** [runtime.GOOS] *)
Inductive GOOS : Type :=
| darwin
| linux
| other (name : string).

(** [getUserDir] *)
Definition getUserDir (goos : GOOS) (user : string) : string + error :=
  match goos with
  | darwin => inl ("/Users/" ++ user)%string
  | linux => inl ("/home/" ++ user)%string
  | other _ => inr (Errno "OS not supported (ssh, getAuthorizedKey)")
  end.

(** [bytes.Equal] *)
Fixpoint bytes_Equal (a b : list byte) : bool :=
  match a, b with
  | [], [] => true
  | x :: a', y :: b' => Byte.eqb x y && bytes_Equal a' b'
  | _, _ => false
  end.

(** A public key, by its wire form ([key.Marshal()]). *)
Definition PublicKey := list byte.

(** What one call of [ssh.ParseAuthorizedKey] gives when it succeeds; a
    nil slice is [None]. *)
Record Parsed : Type := mkParsed {
  p_key       : PublicKey;
  p_comment   : string;
  p_options   : option (list string);
  p_remaining : option (list byte)
}.

Inductive printed : Type :=
| PrintComment (comment : string)          (* fmt.Println(comment) *)
| PrintOptions (options : list string).    (* fmt.Printf("%+v\n", options) *)

Section Keys.

(** [ssh.ParseAuthorizedKey], the home directories and the files. *)
Variable ParseAuthorizedKey : list byte -> Parsed + error.
Variable os_Stat : string -> option error.
Variable ReadFile : string -> list byte + error.

(** What one turn of the loop prints. *)
Definition prints (p : Parsed) : list printed :=
  (if String.eqb (p_comment p) "" then [] else [PrintComment (p_comment p)])
  ++ match p_options p with
     | Some options => [PrintOptions options]
     | None => []
     end.

(** The loop of [parseAuthorizedKeys]: parse, print, append, and stop when
    the remaining input is nil. [fuel] bounds the number of turns; [None]
    is the loop still running when the fuel is used up. *)
Fixpoint parse_loop (fuel : nat) (keys : list byte)
  (parsedKeys : list PublicKey) (out : list printed)
  : option ((list PublicKey + error) * list printed) :=
  match fuel with
  | O => None
  | S fuel' =>
      match ParseAuthorizedKey keys with
      | inr err => Some (inr err, out)
      | inl p =>
          let out' := out ++ prints p in
          let parsedKeys' := parsedKeys ++ [p_key p] in
          match p_remaining p with
          | None => Some (inl parsedKeys', out')
          | Some remaining => parse_loop fuel' remaining parsedKeys' out'
          end
      end
  end.

Definition parseAuthorizedKeys (fuel : nat) (keys : list byte)
  : option ((list PublicKey + error) * list printed) :=
  parse_loop fuel keys [] [].

(** The turns of the loop that go well one after the other, from [keys]
    on: each [p] is what the parser makes of the input the turn before
    left, none of them leaves nil, and [rest] is what the last leaves. *)
Fixpoint turns (keys : list byte) (ps : list Parsed) (rest : list byte) : Prop :=
  match ps with
  | [] => rest = keys
  | p :: ps' =>
      ParseAuthorizedKey keys = inl p /\
      exists remaining, p_remaining p = Some remaining /\ turns remaining ps' rest
  end.

(** The parser hands back less than it was given. *)
Definition shrinks : Prop :=
  forall input p remaining,
    ParseAuthorizedKey input = inl p -> p_remaining p = Some remaining ->
    List.length remaining < List.length input.

(** [getAuthorizedKeys] *)
Definition getAuthorizedKeys (keysPath : string) : list byte + error :=
  match os_Stat keysPath with
  | Some err => inr err
  | None => ReadFile keysPath
  end.

(** [getUserAuthorizedKeys] *)
Definition getUserAuthorizedKeys (goos : GOOS) (user : string) : list byte + error :=
  match getUserDir goos user with
  | inr err => inr err
  | inl userDir =>
      match os_Stat userDir with
      | Some err => inr err
      | None => getAuthorizedKeys (userDir ++ "/authorized_keys")%string
      end
  end.

(** The search of [checkAuthorizedKeys]:
      for _, k := range parsedKeys { if bytes.Equal(givenKey, k.Marshal()) { match = true; break } } *)
Fixpoint matches (givenKey : PublicKey) (parsedKeys : list PublicKey) : bool :=
  match parsedKeys with
  | [] => false
  | k :: rest => if bytes_Equal givenKey k then true else matches givenKey rest
  end.

(** [checkAuthorizedKeys]: the error, nil when the key is authorized. *)
Definition checkAuthorizedKeys (fuel : nat) (goos : GOOS) (user : string) (key : PublicKey)
  : option (option error) :=
  match getUserAuthorizedKeys goos user with
  | inr err => Some (Some err)
  | inl keys =>
      match parseAuthorizedKeys fuel keys with
      | None => None
      | Some (inr err, _) => Some (Some err)
      | Some (inl parsedKeys, _) =>
          if matches key parsedKeys then Some None
          else Some (Some (Errno "Public key not found in authorized keys"))
      end
  end.

End Keys.

End Keys.

(** A parser for the examples: a key is a line; the remainder is what
    follows the line feed, nil when there is none; empty input holds no
    key. *)
Module KeysExample.

Definition no_key : error := Errno "ssh: no key found".

Fixpoint line (input : list byte) : list byte * option (list byte) :=
  match input with
  | [] => ([], None)
  | b :: rest =>
      if Byte.eqb b x0a then ([], Some rest)
      else let (l, r) := line rest in (b :: l, r)
  end.

Definition parse_line (input : list byte) : Keys.Parsed + error :=
  match input with
  | [] => inr no_key
  | _ => let (l, r) := line input in inl (Keys.mkParsed l "" None r)
  end.

End KeysExample.

(** ** The server file: the accept loop of the server *)

Module Listener.

(** What the loop meets: the outcome of the coming turn, or the moment
    at which the goroutines started for the [k]-th connection (counted
    from 0) have run through what their channels bring. *)
Inductive event : Type :=
| AcceptError (err : error)
| HandshakeError (err : error)
| Connected (remoteAddr clientVersion : string) (chans : list Server.NewChannel)
| HandlersRun (k : nat).

Inductive action : Type :=
| Listen (address : string)
| LogError (err : error)
| Errorf (msg : string)
| Infof (msg : string)
| GoDiscardRequests
| GoHandleChannels (handlers : list (list Server.action)).

(** The request loop of a channel panics on one of its requests; the
    geometry the pty has at the start plays no part in that. *)
Definition requests_panic (reqs : list Server.Request) : bool :=
  match Server.serve_requests reqs
          (Server.mkShell (Server.mkWinsize 0%Z 0%Z 0%Z 0%Z) []) with
  | Server.Panic => true
  | Server.Done _ => false
  end.

(** A goroutine of the handler of one channel panics: the teardown on a
    nil [bash.Process], or the request loop. Nothing recovers a panic,
    so it ends the process. *)
Definition handler_panics (acts : list Server.action) : bool :=
  existsb (fun a => match a with
                    | Server.NilDereference => true
                    | Server.GoRequests reqs => requests_panic reqs
                    | _ => false
                    end) acts.

(** How a function stands: it returned, it is still in its loop, or the
    process has ended under it. *)
Inductive standing (A : Type) : Type :=
| Returned (a : A)
| Running
| Crashed.
Arguments Returned {A} a.
Arguments Running {A}.
Arguments Crashed {A}.

(** The loop of [DefaultSshHandler], [conns] being the channels of the
    connections that came through so far: what it does, and whether the
    process ended. *)
Fixpoint serve_from (conns : list (list Server.NewChannel)) (events : list event)
  : list action * bool :=
  match events with
  | [] => ([], false)
  | AcceptError err :: rest =>
      let (acts, crashed) := serve_from conns rest in
      (Errorf ("Failed to accept incoming connection (" ++ Tunnel.Error err ++ ")")%string
       :: acts, crashed)
  | HandshakeError err :: rest =>
      let (acts, crashed) := serve_from conns rest in
      (Errorf ("Failed to handshake (" ++ Tunnel.Error err ++ ")")%string :: acts, crashed)
  | Connected remoteAddr clientVersion chans :: rest =>
      let (acts, crashed) := serve_from (conns ++ [chans]) rest in
      (Infof ("New SSH connection from " ++ remoteAddr ++ " (" ++ clientVersion ++ ")")%string
       :: GoDiscardRequests
       :: GoHandleChannels (Server.handleChannels chans)
       :: acts, crashed)
  | HandlersRun k :: rest =>
      match nth_error conns k with
      | Some chans =>
          if existsb handler_panics (Server.handleChannels chans) then ([], true)
          else serve_from conns rest
      | None => serve_from conns rest
      end
  end.

(** [DefaultSshHandler], over the result of [net.Listen] and what the
    loop meets. *)
Definition DefaultSshHandler (networkInterface : string) (port : Z)
  (listen_err : option error) (events : list event)
  : list action * standing unit :=
  let address := (networkInterface ++ ":" ++ Fmt.d port)%string in
  match listen_err with
  | Some err => ([Listen address; LogError err], Returned tt)
  | None =>
      let (acts, crashed) := serve_from [] events in
      (Listen address :: acts, if crashed then Crashed else Running)
  end.

(** A server, as [ServeSSH] uses it; every server of the package runs
    [DefaultSshHandler] as its [serveSSH]. *)
Record SshServer : Type := mkSshServer {
  Signer           : option error;   (* the error of s.Signer() *)
  Port             : Z;
  NetworkInterface : string
}.

(** [ServeSSH]: whether the host key was added, what the handler did, and
    the error returned. *)
Definition ServeSSH (s : SshServer) (listen_err : option error) (events : list event)
  : bool * list action * standing (option error) :=
  match Signer s with
  | Some err => (false, [], Returned (Some err))
  | None =>
      match DefaultSshHandler (NetworkInterface s) (Port s) listen_err events with
      | (acts, Returned _) => (true, acts, Returned None)
      | (acts, Running) => (true, acts, Running)
      | (acts, Crashed) => (true, acts, Crashed)
      end
  end.

(** The channel lists of the connections that came through. *)
Definition connected (events : list event) : list (list Server.NewChannel) :=
  flat_map (fun i => match i with Connected _ _ chans => [chans] | _ => [] end) events.

(** The handlers started. *)
Definition handled (acts : list action) : list (list (list Server.action)) :=
  flat_map (fun a => match a with GoHandleChannels hs => [hs] | _ => [] end) acts.

End Listener.

(** ** Words for the statements about the server *)

Module Observed.

Import Server.

(** A geometry as [SetWinsize] makes it. *)
Definition narrow (ws : Winsize) : Prop :=
  (0 <= Width ws < 65536 /\ 0 <= Height ws < 65536 /\ x ws = 0 /\ y ws = 0)%Z.

(** How often a channel was rejected, accepted, and how many goroutines
    its handler started. *)
Definition rejections (acts : list action) : nat :=
  List.length (filter (fun a => match a with Reject _ _ => true | _ => false end) acts).

Definition acceptances (acts : list action) : nat :=
  List.length (filter (fun a => match a with Accept => true | _ => false end) acts).

Definition goroutines (acts : list action) : list action :=
  filter (fun a => match a with GoRelay _ | GoRequests _ => true | _ => false end) acts.

(** The number of line feeds in a byte sequence. *)
Definition line_feeds (l : list byte) : nat :=
  List.length (filter (Byte.eqb x0a) l).

(** [a] is a beginning of [b]. *)
Definition begins {A : Type} (a b : list A) : Prop := exists tail, b = a ++ tail.

End Observed.

(** ** The command rcurl *)

Module Rcurl.

(** The host rewriting of [setupConn]: a host without a colon is split at
    its slashes and gets port 22 after its first piece; the loop puts the
    other pieces back, each behind a slash. ([strings.Split] gives at
    least one piece, so the first case does not arise.) *)
Definition with_port (sshHost : string) : string :=
  if negb (Strings.Contains sshHost ":") then
    match Strings.Split sshHost "/"%char with
    | [] => sshHost
    | [first] => (first ++ ":" ++ "22")%string
    | first :: rest =>
        fold_left (fun host s => (host ++ "/" ++ s)%string) rest (first ++ ":" ++ "22")%string
    end
  else sshHost.

End Rcurl.

(** * Properties of the remote copy framer *)

Module ClientFacts.

(** What no operation of [_copy_session] touches. *)
Definition same_transport (s s' : Session) : Prop :=
  start_err s' = start_err s /\ wclose_err s' = wclose_err s.

(** A write that reports no error took the whole buffer. *)
Lemma Write_ok (p : list byte) (s s' : Session) (n : nat) :
  Write p s = ((n, None), s') ->
  n = List.length p /\ sent s' = sent s ++ p /\
  stdin_closed s = false /\ stdin_closed s' = false /\
  started s' = started s /\ closed s' = closed s /\ copy_err s' = copy_err s /\
  wclose_err s' = wclose_err s.
Proof.
  unfold Write. destruct (stdin_closed s) eqn:Hc; [discriminate|].
  destruct (write_plan s) as [|[|k e] plan]; intro H; inversion H; subst; clear H;
    cbn; repeat split; auto.
Qed.

(** A copy that reports no error wrote every chunk, in order. *)
Lemma copy_loop_ok (cs : list (list byte)) (er : option error) :
  forall (w n : nat) (s s' : Session),
  copy_loop cs er w s = ((n, None), s') ->
  er = None /\ n = (w + List.length (List.concat cs))%nat /\
  sent s' = sent s ++ List.concat cs /\
  stdin_closed s' = stdin_closed s /\
  started s' = started s /\ closed s' = closed s /\ copy_err s' = copy_err s /\
  wclose_err s' = wclose_err s.
Proof.
  induction cs as [|c cs IH]; intros w n s s' H; cbn in H.
  - unfold ret in H. inversion H; subst. cbn. rewrite app_nil_r.
    repeat split; auto.
  - destruct c as [|b c'].
    + apply IH in H. cbn. exact H.
    + unfold bind in H.
      destruct (Write (b :: c') s) as [[nw ew] s1] eqn:HW.
      destruct ew as [e|]; [unfold ret in H; inversion H|].
      apply Write_ok in HW. destruct HW as (Hn & Hs & Hc0 & Hc1 & Hst & Hcl & Hce & Hwc).
      subst nw. rewrite Nat.eqb_refl in H.
      apply IH in H. destruct H as (He & Hn' & Hs' & Hc' & Hst' & Hcl' & Hce' & Hwc').
      cbn [List.concat]. rewrite length_app.
      repeat split; try congruence; try lia.
      rewrite Hs', Hs. rewrite app_assoc. reflexivity.
Qed.

(** The stream a call leaves behind when it returns nil and its payload
    copy met no error: header line, payload, terminator, input closed. *)
Lemma _copy_session_layout (size : Z) (mode : FileMode) (fileName destination : string)
  (contents : Reader) (s s' : Session) :
  _copy_session size mode fileName destination contents s = (None, s') ->
  copy_err s' = None ->
  sent s' = sent s ++ bytes (header mode size fileName)
                   ++ List.concat (chunks contents) ++ [x00] /\
  read_end contents = None /\
  stdin_closed s' = true /\
  started s' = Some ("scp -t " ++ destination)%string /\
  closed s' = closed s.
Proof.
  unfold _copy_session, bind.
  generalize (bytes (header mode size fileName)) as hdr.
  generalize ("scp -t " ++ destination)%string as cmd.
  intros cmd hdr.
  unfold Start at 1. destruct (start_err s) as [e|] eqn:Hst; [unfold ret; discriminate|].
  match goal with |- context [Write ?p ?t] => destruct (Write p t) as [[n1 e1] s1] eqn:H1 end.
  cbn [snd]. destruct e1 as [e|]; [unfold ret; discriminate|].
  apply Write_ok in H1. simpl in H1.
  destruct H1 as (_ & Hs1 & _ & Hc1 & Hst1 & Hcl1 & _ & _).
  unfold io_Copy.
  destruct (copy_loop (chunks contents) (read_end contents) 0 s1) as [[nc ec] s2] eqn:H2.
  cbn [snd]. unfold note_copy at 1.
  match goal with |- context [Write ?p ?t] => destruct (Write p t) as [[n3 e3] s3] eqn:H3 end.
  cbn [snd]. destruct e3 as [e|]; [unfold ret; discriminate|].
  apply Write_ok in H3. simpl in H3.
  destruct H3 as (_ & Hs3 & _ & Hc3 & Hst3 & Hcl3 & Hce3 & _).
  unfold WClose. intro H. injection H as Hw Hs'. subst s'. simpl.
  intro Hec. assert (Hnone : ec = None) by congruence. rewrite Hnone in H2.
  apply copy_loop_ok in H2.
  destruct H2 as (Her & _ & Hs2 & _ & Hst2 & Hcl2 & _ & _).
  repeat split; auto; try congruence.
  rewrite Hs3, Hs2, Hs1. rewrite <- !app_assoc. reflexivity.
Qed.

Lemma _copy_layout (size : Z) (mode : FileMode) (fileName destination : string)
  (contents : Reader) (conn : Client) (s : Session) :
  _copy size mode fileName destination contents conn = (None, Some s) ->
  copy_err s = None ->
  sent s = bytes (header mode size fileName) ++ List.concat (chunks contents) ++ [x00] /\
  read_end contents = None /\
  stdin_closed s = true /\
  started s = Some ("scp -t " ++ destination)%string /\
  closed s = true.
Proof.
  unfold _copy, NewSession.
  destruct (new_session_err conn); [discriminate|].
  match goal with |- context [_copy_session ?a ?b ?c ?d ?e ?t] =>
    destruct (_copy_session a b c d e t) as [err s'] eqn:H end.
  intro E. injection E as E1 E2. subst err s. simpl.
  intro Hce. apply _copy_session_layout in H; [|exact Hce].
  simpl in H. destruct H as (Hs & Hr & Hc & Hst & _).
  repeat split; auto.
Qed.

Lemma concat_bytes_NewReader (data : list byte) :
  List.concat (chunks (bytes_NewReader data)) = data.
Proof. destruct data; cbn; [reflexivity|]. rewrite app_nil_r. reflexivity. Qed.

End ClientFacts.

(** * The layout of the stream, and the failures that are reported *)

Module CopyLayout.

Import ClientFacts Examples.

(** When a call returns nil and its payload copy met no error, the input
    stream of the session holds exactly the header line, the payload and
    one NUL byte, in that order, and is closed; the command started is
    [scp -t] on the destination. [CopyWithFileMode] and [Copy] write the
    file name as given and the length of the data; [CopyFile] writes the
    base name of the path, the permission bits and the size that [Stat]
    reports. *)
Theorem copy_stream_layout
  (mode : FileMode) (filename destinationPath : string) (data : list byte)
  (os_Open : FS) (conn : Client) (s : Session) :
  copy_err s = None ->
  (CopyWithFileMode mode filename destinationPath data conn = (None, Some s) ->
   sent s = bytes (header mode (Z.of_nat (List.length data)) filename) ++ data ++ [x00] /\
   stdin_closed s = true /\ closed s = true /\
   started s = Some ("scp -t " ++ destinationPath)%string) /\
  (Copy conn filename destinationPath data = (None, Some s) ->
   sent s = bytes (header 436%N (Z.of_nat (List.length data)) filename) ++ data ++ [x00] /\
   stdin_closed s = true /\ closed s = true /\
   started s = Some ("scp -t " ++ destinationPath)%string) /\
  (CopyFile os_Open filename destinationPath conn = (None, Some s) ->
   exists (f : File) (info : FileInfo),
     os_Open filename = inl f /\ Stat f = inl info /\
     sent s = bytes (header (Perm (Mode info)) (Size info) (Path.Base filename))
              ++ List.concat (chunks (f_reader f)) ++ [x00] /\
     read_end (f_reader f) = None /\
     stdin_closed s = true /\ closed s = true /\
     started s = Some ("scp -t " ++ destinationPath)%string).
Proof.
  intro Hce.
  assert (Hmem : forall m,
            CopyWithFileMode m filename destinationPath data conn = (None, Some s) ->
            sent s = bytes (header m (Z.of_nat (List.length data)) filename) ++ data ++ [x00] /\
            stdin_closed s = true /\ closed s = true /\
            started s = Some ("scp -t " ++ destinationPath)%string).
  { intros m H. unfold CopyWithFileMode in H.
    apply _copy_layout in H; [|exact Hce].
    destruct H as (Hs & _ & Hc & Hst & Hcl).
    rewrite concat_bytes_NewReader in Hs. auto. }
  split; [apply Hmem|]. split; [apply Hmem|].
  unfold CopyFile. destruct (os_Open filename) as [f|e]; [|discriminate].
  destruct (Stat f) as [info|e] eqn:Hstat; [|discriminate].
  intro H. apply _copy_layout in H; [|exact Hce].
  destruct H as (Hs & Hr & Hc & Hst & Hcl).
  exists f, info. repeat split; auto.
Qed.

Lemma copy_stream_layout_witness :
  exists s : Session,
    Copy healthy "notes" "/srv" (bytes "ab") = (None, Some s) /\
    sent s = bytes (header 436%N 2%Z "notes") ++ bytes "ab" ++ [x00].
Proof.
  eexists. split; [vm_compute; reflexivity|].
  apply (copy_stream_layout 0%N "notes" "/srv" (bytes "ab") directories healthy);
    vm_compute; reflexivity.
Defined.

(** Writes on an open stream whose plan holds no failure take everything
    and leave such a stream. *)
Lemma Write_sound (p : list byte) (s : Session) :
  sound s ->
  fst (Write p s) = (List.length p, None) /\ sound (snd (Write p s)) /\
  wclose_err (snd (Write p s)) = wclose_err s.
Proof.
  intros [Hp Hc]. unfold Write. rewrite Hc.
  destruct (write_plan s) as [|[|k e] plan] eqn:E; cbn.
  - repeat split; cbn; auto.
  - inversion Hp; subst. repeat split; cbn; auto.
  - inversion Hp as [|? ? F]. discriminate F.
Qed.

Lemma copy_loop_sound (cs : list (list byte)) (er : option error) :
  forall (w : nat) (s : Session),
  sound s ->
  sound (snd (copy_loop cs er w s)) /\
  wclose_err (snd (copy_loop cs er w s)) = wclose_err s.
Proof.
  induction cs as [|c cs IH]; intros w s Hs; cbn.
  - split; [exact Hs|reflexivity].
  - destruct c as [|b c']; [apply IH; exact Hs|].
    unfold bind.
    destruct (Write_sound (b :: c') s Hs) as (Hr & Hs' & Hw).
    destruct (Write (b :: c') s) as [[nw ew] s1]. cbn [fst snd] in *.
    injection Hr as -> ->. rewrite Nat.eqb_refl.
    destruct (IH (w + List.length (b :: c'))%nat s1 Hs') as [H1 H2].
    cbn [List.length] in H1, H2. split; [exact H1|congruence].
Qed.

(** The failures that the caller does get: of opening the session, of
    starting the command, of the header write, of the terminator write,
    and of closing the input stream. Each is returned as it is. *)
Theorem other_failures_are_returned
  (size : Z) (mode : FileMode) (fileName destination : string)
  (contents : Reader) (conn : Client) (e : error) :
  (new_session_err conn = Some e ->
   _copy size mode fileName destination contents conn = (Some e, None)) /\
  (new_session_err conn = None -> c_start_err conn = Some e ->
   fst (_copy size mode fileName destination contents conn) = Some e) /\
  (new_session_err conn = None -> c_start_err conn = None ->
   (exists k plan, c_write_plan conn = WriteFail k e :: plan) ->
   fst (_copy size mode fileName destination contents conn) = Some e) /\
  (new_session_err conn = None -> c_start_err conn = None ->
   (exists k plan b data,
      contents = bytes_NewReader (b :: data) /\
      c_write_plan conn = WriteAll :: WriteAll :: WriteFail k e :: plan) ->
   fst (_copy size mode fileName destination contents conn) = Some e) /\
  (new_session_err conn = None -> c_start_err conn = None ->
   Forall (fun o => o = WriteAll) (c_write_plan conn) ->
   fst (_copy size mode fileName destination contents conn) = c_wclose_err conn).
Proof.
  destruct conn as [ns st plan wc]. cbn [new_session_err c_start_err c_write_plan c_wclose_err].
  unfold _copy, NewSession. cbn [new_session_err c_start_err c_write_plan c_wclose_err].
  split; [intros ->; reflexivity|].
  split; [intros -> ->; reflexivity|].
  split; [intros -> -> (k & plan' & ->); reflexivity|].
  split.
  { intros -> -> (k & plan' & b & data & -> & ->).
    unfold _copy_session, bind, Start, io_Copy, bytes_NewReader.
    cbn -[header bytes Nat.eqb List.length]. rewrite Nat.eqb_refl. reflexivity. }
  intros -> -> Hall.
  unfold _copy_session, bind.
  generalize (bytes (header mode size fileName)) as hdr.
  generalize ("scp -t " ++ destination)%string as cmd. intros cmd hdr.
  unfold Start at 1. cbn [start_err].
  match goal with |- context [Write hdr ?t] =>
    assert (Hs0 : sound t) by (split; [exact Hall|reflexivity]);
    destruct (Write_sound hdr t Hs0) as (Hr1 & Hs1 & Hw1);
    destruct (Write hdr t) as [[n1 e1] s1] end.
  cbn [fst snd] in *. injection Hr1 as -> ->.
  unfold io_Copy.
  destruct (copy_loop_sound (chunks contents) (read_end contents) 0 s1 Hs1) as [Hs2 Hw2].
  destruct (copy_loop (chunks contents) (read_end contents) 0 s1) as [[nc ec] s2].
  cbn [fst snd] in *. unfold note_copy at 1.
  match goal with |- context [Write [x00] ?t] =>
    assert (Hs2' : sound t) by exact Hs2;
    destruct (Write_sound [x00] t Hs2') as (Hr3 & Hs3 & Hw3);
    destruct (Write [x00] t) as [[n3 e3] s3] end.
  cbn [fst snd] in *. injection Hr3 as -> ->.
  unfold WClose. cbn [fst]. cbn [wclose_err] in *. congruence.
Qed.

Lemma other_failures_are_returned_witness :
  fst (CopyWithFileMode 420%N "hello.txt" "/tmp" (bytes "hello")
         (mkClient None None [WriteAll; WriteAll; WriteFail 0 EOF] None))
  = Some EOF.
Proof.
  apply (other_failures_are_returned 5%Z 420%N "hello.txt" "/tmp"
           (bytes_NewReader (bytes "hello"))
           (mkClient None None [WriteAll; WriteAll; WriteFail 0 EOF] None) EOF);
    try reflexivity.
  exists 0%nat, [], "h"%byte, (bytes "ello"). split; reflexivity.
Defined.

End CopyLayout.

(** * The header line read back *)

Module HeaderFacts.

Import ScpSink.

Local Open Scope N_scope.

Lemma bytes_String (c : ascii) (s : string) :
  bytes (String c s) = byte_of_ascii c :: bytes s.
Proof. reflexivity. Qed.

Lemma bytes_app (s1 s2 : string) : bytes (s1 ++ s2)%string = bytes s1 ++ bytes s2.
Proof.
  induction s1 as [|c s1 IH]; [reflexivity|].
  cbn [String.append]. rewrite !bytes_String, IH. reflexivity.
Qed.

Lemma digit_byte (v : N) :
  v < 10 -> Byte.to_N (byte_of_ascii (Fmt.digit v)) = 48 + v.
Proof.
  intro H.
  assert (Hv : v = 0 \/ v = 1 \/ v = 2 \/ v = 3 \/ v = 4 \/ v = 5 \/ v = 6 \/
               v = 7 \/ v = 8 \/ v = 9) by lia.
  repeat (destruct Hv as [->|Hv]; [reflexivity|]). subst v. reflexivity.
Qed.

(** The fuel [N.size_nat u] is the number of binary digits of [u]. *)
Lemma size_nat_bound (u : N) : u < 2 ^ N.of_nat (N.size_nat u).
Proof.
  destruct u as [|p]; [reflexivity|]. cbn [N.size_nat].
  induction p as [p IH|p IH|]; cbn [Pos.size_nat].
  - rewrite Nat2N.inj_succ, N.pow_succ_r'. lia.
  - rewrite Nat2N.inj_succ, N.pow_succ_r'. lia.
  - reflexivity.
Qed.

(** Reading back what the digit loop wrote: the digits of [u] continue
    the number read so far, and what follows them is read next. *)
Lemma number_loop_digits (base : N) :
  2 <= base <= 10 ->
  forall (fuel : nat) (u : N) (acc : string) (a : N),
  u < 2 ^ N.of_nat fuel ->
  number_loop base (bytes (Fmt.digits_loop base fuel u acc)) a
  = number_loop base (bytes acc) (a * Fmt.weight base fuel u + u).
Proof.
  intros Hb. induction fuel as [|fuel IH]; intros u acc a Hu.
  - cbn in Hu. assert (u = 0) by lia. subst u.
    cbn [Fmt.digits_loop Fmt.weight]. rewrite bytes_String. cbn [number_loop].
    rewrite digit_byte by lia.
    replace (48 + 0 - 48) with 0 by lia.
    assert (H1 : (48 <=? 48 + 0) && (0 <? base) = true).
    { apply andb_true_intro. split; [apply N.leb_le|apply N.ltb_lt]; lia. }
    rewrite H1. f_equal. 
  - cbn [Fmt.digits_loop Fmt.weight].
    destruct (N.leb_spec base u) as [Hle|Hlt].
    + rewrite IH.
      * rewrite bytes_String. cbn [number_loop].
        assert (Hm : u mod base < base) by (apply N.mod_lt; lia).
        pose proof (N.div_mod u base ltac:(lia)) as Hdm.
        remember (u mod base) as m eqn:Em. clear Em.
        remember (u / base) as q eqn:Eq. clear Eq.
        remember (Fmt.weight base fuel q) as wq eqn:Ew. clear Ew.
        rewrite digit_byte by lia.
        replace (48 + m - 48) with m by lia.
        assert (H1 : (48 <=? 48 + m) && (m <? base) = true).
        { apply andb_true_intro. split; [apply N.leb_le|apply N.ltb_lt]; lia. }
        rewrite H1. f_equal. nia.
      * rewrite Nat2N.inj_succ, N.pow_succ_r' in Hu.
        apply N.Div0.div_lt_upper_bound.
        apply N.lt_le_trans with (2 * 2 ^ N.of_nat fuel); [exact Hu|].
        apply N.mul_le_mono_r. lia.
    + rewrite bytes_String. cbn [number_loop].
      rewrite digit_byte by lia.
      replace (48 + u - 48) with u by lia.
      assert (H1 : (48 <=? 48 + u) && (u <? base) = true).
      { apply andb_true_intro. split; [apply N.leb_le|apply N.ltb_lt]; lia. }
      rewrite H1. reflexivity.
Qed.

(** What the digit loop writes before [acc] are digits. *)
Lemma digits_loop_shape (base : N) :
  2 <= base <= 10 ->
  forall (fuel : nat) (u : N) (acc : string),
  u < 2 ^ N.of_nat fuel ->
  exists (d0 : byte) (ds : list byte),
    bytes (Fmt.digits_loop base fuel u acc) = (d0 :: ds) ++ bytes acc /\
    Forall Fmt.is_digit (d0 :: ds) /\
    (0 < u -> Byte.to_N d0 <> 48).
Proof.
  intros Hb. induction fuel as [|fuel IH]; intros u acc Hu.
  - cbn in Hu. assert (u = 0) by lia. subst u.
    exists (byte_of_ascii (Fmt.digit 0)), []. cbn [Fmt.digits_loop].
    rewrite bytes_String. split; [reflexivity|]. split; [|lia].
    constructor; [|constructor]. unfold Fmt.is_digit. rewrite digit_byte; lia.
  - cbn [Fmt.digits_loop].
    destruct (N.leb_spec base u) as [Hle|Hlt].
    + destruct (IH (u / base) (String (Fmt.digit (u mod base)) acc)) as (d0 & ds & He & Hd & Hnz).
      * rewrite Nat2N.inj_succ, N.pow_succ_r' in Hu.
        apply N.Div0.div_lt_upper_bound.
        apply N.lt_le_trans with (2 * 2 ^ N.of_nat fuel); [exact Hu|].
        apply N.mul_le_mono_r. lia.
      * exists d0, (ds ++ [byte_of_ascii (Fmt.digit (u mod base))]).
        rewrite He, bytes_String. split.
        { cbn [app]. rewrite <- app_assoc. reflexivity. }
        split.
        { rewrite app_comm_cons. apply Forall_app. split; [exact Hd|].
          constructor; [|constructor]. unfold Fmt.is_digit.
          assert (Hm : u mod base < base) by (apply N.mod_lt; lia).
          remember (u mod base) as m eqn:Em. clear Em.
          rewrite digit_byte; lia. }
        { intros _. apply Hnz.
          apply N.div_str_pos. lia. }
    + exists (byte_of_ascii (Fmt.digit u)), []. rewrite bytes_String.
      split; [reflexivity|]. split.
      * constructor; [|constructor]. unfold Fmt.is_digit. rewrite digit_byte; lia.
      * intro Hpos. rewrite digit_byte by lia. lia.
Qed.

Lemma digits_of_number (base : N) (u : N) :
  2 <= base <= 10 ->
  number base (bytes (Fmt.digits_of base u)) = Some u /\
  Forall Fmt.is_digit (bytes (Fmt.digits_of base u)) /\
  exists (d0 : byte) (ds : list byte),
    bytes (Fmt.digits_of base u) = d0 :: ds /\ (0 < u -> Byte.to_N d0 <> 48).
Proof.
  intro Hb. unfold Fmt.digits_of.
  destruct (digits_loop_shape base Hb (N.size_nat u) u EmptyString (size_nat_bound u))
    as (d0 & ds & He & Hd & Hnz).
  change (bytes "") with (@nil byte) in He. rewrite app_nil_r in He.
  split; [|split].
  - unfold number. rewrite He. rewrite <- He.
    rewrite (number_loop_digits base Hb _ u EmptyString 0 (size_nat_bound u)).
    reflexivity.
  - rewrite He. exact Hd.
  - exists d0, ds. split; [exact He|exact Hnz].
Qed.

(** The mode field: [%#o] writes the octal digits of the mode, after one
    0 when the mode is not 0; read as an octal number it is the mode. *)
Lemma sharp_o_number (u : N) :
  number 8 (bytes (Fmt.sharp_o u)) = Some u /\
  Forall Fmt.is_digit (bytes (Fmt.sharp_o u)) /\
  (0 < u -> Fmt.sharp_o u = String "0"%char (Fmt.digits_of 8 u)) /\
  (u = 0 -> Fmt.sharp_o u = "0"%string).
Proof.
  destruct (digits_of_number 8 u ltac:(lia)) as (Hn & Hd & d0 & ds & He & Hnz).
  unfold Fmt.sharp_o.
  destruct (Fmt.digits_of 8 u) as [|c rest] eqn:E; [discriminate He|].
  rewrite bytes_String in He. injection He as Hc Hrest.
  destruct (Ascii.eqb_spec c "0"%char) as [Hz|Hnz'].
  - split; [exact Hn|]. split; [exact Hd|]. split.
    + intro Hpos. exfalso. apply (Hnz Hpos). subst d0 c. reflexivity.
    + intros ->. vm_compute in E. injection E as <- <-. reflexivity.
  - split; [|split; [|split]].
    + rewrite bytes_String. unfold number in *. cbn [number_loop byte_of_ascii].
      exact Hn.
    + rewrite bytes_String. constructor; [|exact Hd]. unfold Fmt.is_digit. cbn. lia.
    + reflexivity.
    + intros ->. vm_compute in E. injection E as <- <-. contradiction Hnz'. reflexivity.
Qed.

(** Splitting at a byte that does not occur before it. *)
Lemma split_at_app (stop : byte) (pre post : list byte) :
  Forall (fun b => b <> stop) pre ->
  split_at stop (pre ++ stop :: post) = Some (pre, post).
Proof.
  induction pre as [|b pre IH]; intro H; cbn.
  - rewrite (Byte.byte_dec_lb (eq_refl stop)). reflexivity.
  - inversion H as [|? ? Hb Hpre]; subst.
    destruct (Byte.eqb b stop) eqn:E.
    + apply Byte.byte_dec_bl in E. contradiction.
    + rewrite (IH Hpre). reflexivity.
Qed.

Lemma digits_without (stop : byte) (ds : list byte) :
  Byte.to_N stop < 48 ->
  Forall Fmt.is_digit ds -> Forall (fun b => b <> stop) ds.
Proof.
  intros Hs H. eapply Forall_impl; [|exact H].
  intros b [Hlo Hhi] ->. lia.
Qed.

(** The loop writes at least one digit. *)
Lemma digits_loop_length (base : N) (fuel : nat) :
  forall (u : N) (acc : string),
  (String.length acc < String.length (Fmt.digits_loop base fuel u acc))%nat.
Proof.
  induction fuel as [|fuel IH]; intros u acc; cbn [Fmt.digits_loop].
  - cbn. lia.
  - destruct (base <=? u).
    + eapply Nat.lt_trans; [|apply IH]. cbn. lia.
    + cbn. lia.
Qed.

Lemma length_bytes (s : string) : List.length (bytes s) = String.length s.
Proof.
  induction s as [|c s IH]; [reflexivity|].
  rewrite bytes_String. cbn. rewrite IH. reflexivity.
Qed.

(** The mode field has four digits or more exactly when the mode is at
    least 0100: [%#o] does not pad. *)
Lemma sharp_o_length (u : N) :
  (64 <= u -> (4 <= List.length (bytes (Fmt.sharp_o u)))%nat) /\
  (u < 64 -> (List.length (bytes (Fmt.sharp_o u)) < 4)%nat).
Proof.
  split.
  - intro Hu.
    destruct (sharp_o_number u) as (_ & _ & Hpos & _).
    rewrite (Hpos ltac:(lia)), length_bytes. cbn [String.length].
    unfold Fmt.digits_of.
    pose proof (size_nat_bound u) as Hb.
    destruct (N.size_nat u) as [|[|fuel]].
    + cbn in Hb. lia.
    + cbn in Hb. lia.
    + cbn [Fmt.digits_loop].
      destruct (N.leb_spec 8 u) as [_|F]; [|lia].
      destruct (N.leb_spec 8 (u / 8)) as [_|F].
      * pose proof (digits_loop_length 8 fuel (u / 8 / 8)
                      (String (Fmt.digit ((u / 8) mod 8))
                         (String (Fmt.digit (u mod 8)) EmptyString))) as Hl.
        cbn [String.length] in Hl. lia.
      * exfalso. assert (8 <= u / 8); [|lia].
        apply N.div_le_lower_bound; lia.
  - intro Hu.
    assert (Hall : forallb (fun m => Nat.ltb (List.length (bytes (Fmt.sharp_o (N.of_nat m)))) 4)
                     (seq 0 64) = true) by (vm_compute; reflexivity).
    rewrite forallb_forall in Hall.
    specialize (Hall (N.to_nat u)). rewrite N2Nat.id in Hall.
    apply Nat.ltb_lt, Hall, in_seq. lia.
Qed.

(** The wire format read back: what [_copy] writes for a payload, under
    a name without a line feed and with a mode of at least 0100, is
    received as that payload under that name and mode; with a smaller
    mode the mode field is too short for the receiver. *)
Theorem receive_what_is_sent (mode : FileMode) (name : string) (data : list byte) :
  ~ In "010"%byte (bytes name) ->
  receive (bytes (header mode (Z.of_nat (List.length data)) name) ++ data ++ [x00])
  = if 64 <=? mode then Some (mkReceived mode name data) else None.
Proof.
  intro Hname.
  destruct (sharp_o_number mode) as (Hmode & Hmd & _ & _).
  destruct (sharp_o_length mode) as (Hlong & Hshort).
  destruct (digits_of_number 10 (N.of_nat (List.length data)) ltac:(lia))
    as (Hlen & Hld & _).
  unfold header. cbn [String.append]. rewrite bytes_String.
  change (byte_of_ascii "C") with "C"%byte.
  rewrite bytes_app, bytes_String, bytes_app, bytes_String, bytes_app.
  change (byte_of_ascii " ") with " "%byte.
  unfold Fmt.d.
  assert (Habs : Z.abs_N (Z.of_nat (List.length data)) = N.of_nat (List.length data))
    by lia.
  rewrite Habs. clear Habs.
  assert (Hneg : (Z.of_nat (List.length data) <? 0)%Z = false) by (apply Z.ltb_ge; lia).
  rewrite Hneg. clear Hneg.
  unfold receive. cbn [app].
  repeat (rewrite <- app_assoc; cbn [app]).
  rewrite (split_at_app " "%byte (bytes (Fmt.sharp_o mode)))
    by (apply digits_without; [reflexivity|exact Hmd]).
  destruct (N.leb_spec 64 mode) as [Hm|Hm].
  - apply Hlong in Hm. apply Nat.leb_le in Hm. rewrite Hm.
    rewrite Hmode.
    rewrite (split_at_app " "%byte
               (bytes (Fmt.digits_of 10 (N.of_nat (List.length data)))))
      by (apply digits_without; [reflexivity|exact Hld]).
    rewrite Hlen.
    change (bytes nl) with ["010"%byte]. cbn [app].
    rewrite (split_at_app "010"%byte (bytes name))
      by (apply Forall_forall; intros b Hb ->; exact (Hname Hb)).
    rewrite Nat2N.id.
    rewrite skipn_app, skipn_all, Nat.sub_diag. cbn [skipn app].
    rewrite firstn_app, firstn_all, Nat.sub_diag. cbn [firstn]. rewrite app_nil_r.
    rewrite Nat.eqb_refl.
    unfold bytes. rewrite string_of_list_byte_of_string. reflexivity.
  - apply Hshort in Hm.
    assert (Hf : Nat.leb 4 (List.length (bytes (Fmt.sharp_o mode))) = false)
      by (apply Nat.leb_gt; exact Hm).
    rewrite Hf. reflexivity.
Qed.

End HeaderFacts.

(** * What is copied is what is received *)

Module RoundTrip.

Import ClientFacts Examples.

(** Whatever [CopyWithFileMode] was given, when it returns nil and its
    payload copy met no error, and the name holds no line feed: with a
    mode of at least 0100 the receiver of the wire format reads the same
    mode, name and bytes back from the session's input stream; with a
    smaller mode [%#o] writes fewer than the four digits of the wire
    format and the receiver refuses the stream. *)
Theorem copy_is_received
  (mode : FileMode) (filename destinationPath : string) (data : list byte)
  (conn : Client) (s : Session) :
  CopyWithFileMode mode filename destinationPath data conn = (None, Some s) ->
  copy_err s = None ->
  ~ In "010"%byte (bytes filename) ->
  ((64 <= mode)%N ->
   ScpSink.receive (sent s) = Some (ScpSink.mkReceived mode filename data)) /\
  ((mode < 64)%N -> ScpSink.receive (sent s) = None).
Proof.
  intros H Hce Hname. unfold CopyWithFileMode in H.
  apply _copy_layout in H; [|exact Hce].
  destruct H as (Hs & _). rewrite concat_bytes_NewReader in Hs.
  rewrite Hs, (HeaderFacts.receive_what_is_sent mode filename data Hname).
  split; intro Hm.
  - apply N.leb_le in Hm. rewrite Hm. reflexivity.
  - apply N.leb_gt in Hm. rewrite Hm. reflexivity.
Qed.

(** Mode 0664 comes back; mode 07 does not. *)
Lemma copy_is_received_witness :
  (exists s : Session,
     Copy healthy "a b.bin" "/srv" [x00; xff; x0a] = (None, Some s) /\
     ScpSink.receive (sent s)
     = Some (ScpSink.mkReceived 436%N "a b.bin" [x00; xff; x0a])) /\
  (exists s : Session,
     CopyWithFileMode 7%N "a b.bin" "/srv" [x00; xff; x0a] healthy = (None, Some s) /\
     ScpSink.receive (sent s) = None).
Proof.
  split; eexists; (split; [vm_compute; reflexivity|]).
  - apply (copy_is_received 436%N "a b.bin" "/srv" [x00; xff; x0a] healthy).
    + vm_compute. reflexivity.
    + reflexivity.
    + vm_compute. intuition discriminate.
    + vm_compute. discriminate.
  - apply (copy_is_received 7%N "a b.bin" "/srv" [x00; xff; x0a] healthy).
    + vm_compute. reflexivity.
    + reflexivity.
    + vm_compute. intuition discriminate.
    + reflexivity.
Defined.

End RoundTrip.

(** * The claims on the remote copy framer *)

Module CopyClaims.

Import ClientFacts Examples.

(** C1, as the code has it: with mode 0644, payload "hello" and file name
    "hello.txt", a call that returns nil and whose payload copy met no
    error has written exactly [C0644 5 hello.txt\n], the five bytes
    [hello] and one NUL byte (the mode field is 0644, with the leading 0
    that the verb %#o writes); the receiver of the wire format reads the
    five bytes back under the name hello.txt. *)
Theorem hello_copy_stream (destination : string) (conn : Client) (s : Session) :
  CopyWithFileMode 420%N "hello.txt" destination (bytes "hello") conn = (None, Some s) ->
  copy_err s = None ->
  sent s = bytes ("C0644 5 hello.txt" ++ nl)%string ++ bytes "hello" ++ [x00] /\
  ScpSink.receive (sent s)
  = Some (ScpSink.mkReceived 420%N "hello.txt" (bytes "hello")).
Proof.
  intros H Hce. unfold CopyWithFileMode in H.
  apply _copy_layout in H; [|exact Hce].
  destruct H as (Hs & _). rewrite concat_bytes_NewReader in Hs.
  rewrite Hs. split; vm_compute; reflexivity.
Qed.

Lemma hello_copy_stream_witness :
  exists s : Session,
    CopyWithFileMode 420%N "hello.txt" "/tmp" (bytes "hello") healthy = (None, Some s) /\
    sent s = bytes ("C0644 5 hello.txt" ++ nl)%string ++ bytes "hello" ++ [x00] /\
    ScpSink.receive (sent s)
    = Some (ScpSink.mkReceived 420%N "hello.txt" (bytes "hello")).
Proof.
  eexists. split; [vm_compute; reflexivity|].
  apply (hello_copy_stream "/tmp" healthy); vm_compute; reflexivity.
Defined.

(** C1 as stated fails: on a transport where nothing fails the call
    returns nil, and what it wrote is not [C644 5 hello.txt\n], [hello],
    NUL. *)
Lemma hello_copy_header_is_not_C644 :
  exists s : Session,
    CopyWithFileMode 420%N "hello.txt" "/tmp" (bytes "hello") healthy = (None, Some s) /\
    copy_err s = None /\
    sent s <> bytes ("C644 5 hello.txt" ++ nl)%string ++ bytes "hello" ++ [x00].
Proof.
  eexists. split; [vm_compute; reflexivity|]. split; [reflexivity|].
  vm_compute. discriminate.
Qed.

(** C2, the code at the failing input: copying a directory. [os.Open] and
    [Stat] succeed, the header announces 4096 bytes, reading fails at
    once, the error of [io.Copy] is dropped, and the call returns nil
    having sent the header line and the terminator with no payload byte
    between them. *)
Theorem CopyFile_of_directory_returns_nil_without_payload :
  exists s : Session,
    CopyFile directories "/tmp" "/srv" healthy = (None, Some s) /\
    sent s = bytes ("C0755 4096 tmp" ++ nl)%string ++ [x00] /\
    stdin_closed s = true /\
    copy_err s = Some EISDIR.
Proof.
  eexists. split; [vm_compute; reflexivity|]. repeat split.
Qed.

(** C8, the code at the failing input: when the write of the payload
    fails with [e] after [k] bytes and the stream takes the terminator
    and closes, the call returns nil; [e] reaches nobody. *)
Theorem payload_write_error_is_dropped
  (e : error) (k : nat) (mode : FileMode) (fileName destination : string)
  (b : byte) (data : list byte) :
  exists s : Session,
    CopyWithFileMode mode fileName destination (b :: data) (failing_payload k e)
    = (None, Some s) /\
    copy_err s = Some e /\
    sent s = bytes (header mode (Z.of_nat (List.length (b :: data))) fileName)
             ++ firstn k (b :: data) ++ [x00].
Proof.
  eexists. split.
  - cbv [CopyWithFileMode _copy NewSession failing_payload new_session_err
         c_start_err c_write_plan c_wclose_err _copy_session bind Start
         start_err Write ret].
    cbn -[header bytes firstn Z.of_nat]. reflexivity.
  - split; [reflexivity|].
    simpl sent. rewrite <- app_assoc. reflexivity.
Qed.

End CopyClaims.

(** * Properties of the accept loop *)

Module TunnelFacts.

Import Tunnel.

Section Forward.

Variable forwardFunc : Conn -> Client -> string -> Z -> Forwarded.
Variable conn : Client.
Variable url : string.
Variable port : Z.

(** The three copy tasks are started whatever the opener returned. *)
Lemma copies_of_serve_conn (l : Conn) :
  copies_started (serve_conn forwardFunc conn url port l)
  = [StdoutToLocal l (f_stdout (forwardFunc l conn url port));
     LocalToStdin (f_stdin (forwardFunc l conn url port)) l;
     StderrToBuffer (f_stderr (forwardFunc l conn url port))].
Proof. unfold serve_conn. destruct (f_err (forwardFunc l conn url port)); reflexivity. Qed.

Lemma nil_source_panics (l : Conn) (sends : bool) :
  f_stdout (forwardFunc l conn url port) = None \/
  f_stderr (forwardFunc l conn url port) = None ->
  existsb (copy_panics sends) (copies_started (serve_conn forwardFunc conn url port l)) = true.
Proof.
  intro H. rewrite copies_of_serve_conn. cbn [existsb copy_panics].
  destruct H as [-> | ->]; [reflexivity|].
  destruct (f_stdout (forwardFunc l conn url port)),
           (f_stdin (forwardFunc l conn url port)); cbn;
    rewrite ?orb_true_r; reflexivity.
Qed.

Lemma streams_do_not_panic (l : Conn) (sends : bool) :
  f_stdin (forwardFunc l conn url port) <> None ->
  f_stdout (forwardFunc l conn url port) <> None ->
  f_stderr (forwardFunc l conn url port) <> None ->
  existsb (copy_panics sends) (copies_started (serve_conn forwardFunc conn url port l)) = false.
Proof.
  intros H1 H2 H3. rewrite copies_of_serve_conn. cbn [existsb copy_panics].
  destruct (f_stdout (forwardFunc l conn url port)); [|contradiction H2; reflexivity].
  destruct (f_stdin (forwardFunc l conn url port)); [|contradiction H1; reflexivity].
  destruct (f_stderr (forwardFunc l conn url port)); [|contradiction H3; reflexivity].
  reflexivity.
Qed.

Lemma existsb_eqb_In (l : Conn) (started : list Conn) :
  In l started -> existsb (Nat.eqb l) started = true.
Proof.
  intro H. apply existsb_exists. exists l. split; [exact H|apply Nat.eqb_refl].
Qed.

(** With connections accepted only, one goroutine each is started. *)
Lemma Forward_from_accepts (ls : list Conn) (e : error) (later : list event) :
  forall started : list Conn,
  let acts :=
    flat_map (fun l => [LogInfo "Accepting connection...";
                        GoConn (serve_conn forwardFunc conn url port l)]) ls in
  Forward_from forwardFunc conn url port started (map Accepted ls) = (acts, InAccept) /\
  Forward_from forwardFunc conn url port started (map Accepted ls ++ AcceptFailed e :: later)
  = (acts ++ [LogInfo "Accepting connection..."; Println e; ListenerClose], Returns e).
Proof.
  induction ls as [|l ls IH]; intro started; cbn [map flat_map app Forward_from].
  - split; reflexivity.
  - destruct (IH (l :: started)) as [IH1 IH2]. rewrite IH1, IH2. split; reflexivity.
Qed.

(** A connection with a nil source stream ends the process at the moment
    its copy goroutines run. *)
Lemma Forward_from_crash (l : Conn) (sends : bool) (later : list event) :
  f_stdout (forwardFunc l conn url port) = None \/
  f_stderr (forwardFunc l conn url port) = None ->
  forall (before : list event) (started : list Conn),
  snd (Forward_from forwardFunc conn url port started before) = InAccept ->
  In l started \/ In (Accepted l) before ->
  Forward_from forwardFunc conn url port started (before ++ CopiesRun l sends :: later)
  = (fst (Forward_from forwardFunc conn url port started before), Crashed).
Proof.
  intro Hnil.
  induction before as [|ev before IH]; intros started Hs Hin.
  - destruct Hin as [Hin|[]]. cbn [app Forward_from fst].
    unfold panics_when_run.
    rewrite (existsb_eqb_In l started Hin), (nil_source_panics l sends Hnil). reflexivity.
  - destruct ev as [l'|err|l' sends']; cbn [app Forward_from] in Hs |- *.
    + destruct (Forward_from forwardFunc conn url port (l' :: started) before)
        as [acts r] eqn:E.
      cbn [snd] in Hs. subst r.
      rewrite (IH (l' :: started)).
      * rewrite E. reflexivity.
      * rewrite E. reflexivity.
      * destruct Hin as [Hin|[Hin|Hin]].
        -- left. right. exact Hin.
        -- left. left. injection Hin as ->. reflexivity.
        -- right. exact Hin.
    + discriminate Hs.
    + destruct (panics_when_run forwardFunc conn url port started l' sends').
      * discriminate Hs.
      * apply IH; [exact Hs|].
        destruct Hin as [Hin|[Hin|Hin]]; [left; exact Hin|discriminate Hin|right; exact Hin].
Qed.

(** With an opener that hands out streams no goroutine panics, and the
    moments at which the copies run make no difference to the loop. *)
Lemma Forward_from_sound (events : list event) :
  (forall l, f_stdin (forwardFunc l conn url port) <> None /\
             f_stdout (forwardFunc l conn url port) <> None /\
             f_stderr (forwardFunc l conn url port) <> None) ->
  forall started started' : list Conn,
  snd (Forward_from forwardFunc conn url port started events) <> Crashed /\
  Forward_from forwardFunc conn url port started events
  = Forward_from forwardFunc conn url port started' (filter of_Accept events).
Proof.
  intro Hok.
  induction events as [|ev events IH]; intros started started'; cbn [filter Forward_from].
  - split; [discriminate|reflexivity].
  - destruct ev as [l|err|l sends]; cbn [of_Accept Forward_from].
    + destruct (IH (l :: started) (l :: started')) as [IH1 IH2].
      rewrite <- IH2.
      destruct (Forward_from forwardFunc conn url port (l :: started) events) as [acts r].
      split; [exact IH1|reflexivity].
    + split; [discriminate|reflexivity].
    + unfold panics_when_run.
      destruct (Hok l) as (H1 & H2 & H3).
      rewrite (streams_do_not_panic l sends H1 H2 H3), andb_false_r.
      apply IH.
Qed.

(** [Forward] returns only on a failed [Accept]. *)
Lemma Forward_from_returns (events : list event) (e : error) :
  forall started : list Conn,
  snd (Forward_from forwardFunc conn url port started events) = Returns e ->
  In (AcceptFailed e) events.
Proof.
  induction events as [|ev events IH]; intros started H; cbn [Forward_from] in H.
  - discriminate H.
  - destruct ev as [l|err|l sends].
    + destruct (Forward_from forwardFunc conn url port (l :: started) events)
        as [acts r] eqn:E.
      right. apply (IH (l :: started)). rewrite E. exact H.
    + cbn in H. injection H as ->. left. reflexivity.
    + destruct (panics_when_run forwardFunc conn url port started l sends).
      * discriminate H.
      * right. apply (IH started). exact H.
Qed.

End Forward.

(** The accept loop starts one goroutine per accepted connection and
    goes on accepting; it returns only when [Accept] fails, with that
    error, after printing it and closing the listener, and what comes
    after the failed [Accept] is never accepted. With an opener that
    hands out streams no goroutine panics. The loop does not outlive a
    connection for which the opener returned a nil source stream (as
    [ForwardNetcat] does when it fails): at the moment that connection's
    copy goroutines run the process ends, whatever was to come. *)
Theorem Forward_accepts_until_failure
  (forwardFunc : Conn -> Client -> string -> Z -> Forwarded)
  (conn : Client) (url : string) (port : Z) :
  (forall (ls : list Conn) (e : error) (later : list event),
     let started :=
       flat_map (fun l => [LogInfo "Accepting connection...";
                           GoConn (serve_conn forwardFunc conn url port l)]) ls in
     Forward forwardFunc conn url port (map Accepted ls) = (started, InAccept) /\
     Forward forwardFunc conn url port (map Accepted ls ++ AcceptFailed e :: later)
     = (started ++ [LogInfo "Accepting connection..."; Println e; ListenerClose],
        Returns e)) /\
  (forall (events : list event) (e : error),
     snd (Forward forwardFunc conn url port events) = Returns e ->
     In (AcceptFailed e) events) /\
  ((forall l, f_stdin (forwardFunc l conn url port) <> None /\
              f_stdout (forwardFunc l conn url port) <> None /\
              f_stderr (forwardFunc l conn url port) <> None) ->
   forall events : list event,
     snd (Forward forwardFunc conn url port events) <> Crashed /\
     Forward forwardFunc conn url port events
     = Forward forwardFunc conn url port (filter of_Accept events)) /\
  (forall (before later : list event) (l : Conn) (sends : bool),
     snd (Forward forwardFunc conn url port before) = InAccept ->
     In (Accepted l) before ->
     f_stdout (forwardFunc l conn url port) = None \/
     f_stderr (forwardFunc l conn url port) = None ->
     Forward forwardFunc conn url port (before ++ CopiesRun l sends :: later)
     = (fst (Forward forwardFunc conn url port before), Crashed)).
Proof.
  split; [|split; [|split]].
  - intros ls e later. apply Forward_from_accepts.
  - intros events e. apply Forward_from_returns.
  - intros Hok events. apply Forward_from_sound. exact Hok.
  - intros before later l sends Hs Hin Hnil.
    apply Forward_from_crash; [exact Hnil|exact Hs|right; exact Hin].
Qed.

(** [ForwardNetcat] on a connection that cannot open a session: the
    first connection's copies run on nil streams and end the process;
    the second connection is never accepted. *)
Lemma Forward_accepts_until_failure_witness :
  Forward (fun _ => ForwardNetcat) (mkClient (Some (Errno "ssh: rejected")) None [] None)
    "10.0.0.7" 5432 ([Accepted 0] ++ [CopiesRun 0 false; Accepted 1])
  = (fst (Forward (fun _ => ForwardNetcat)
            (mkClient (Some (Errno "ssh: rejected")) None [] None)
            "10.0.0.7" 5432 [Accepted 0]),
     Crashed).
Proof.
  apply (Forward_accepts_until_failure (fun _ => ForwardNetcat)
           (mkClient (Some (Errno "ssh: rejected")) None [] None) "10.0.0.7" 5432%Z).
  - reflexivity.
  - left. reflexivity.
  - left. reflexivity.
Defined.

End TunnelFacts.

(** * The claims on the forwarding tunnel *)

Module TunnelClaims.

Import Tunnel Examples.

(** C3, the code at the failing input: when the session opener returns
    an error for an accepted connection, the goroutine of that connection
    logs the error and then starts all three copy tasks, on whatever
    streams the opener returned; there is no return after the log. *)
Theorem failed_open_still_starts_copies
  (forwardFunc : Conn -> Client -> string -> Z -> Forwarded)
  (conn : Client) (url : string) (port : Z) (l : Conn) (err : error) :
  f_err (forwardFunc l conn url port) = Some err ->
  serve_conn forwardFunc conn url port l
  = [SessionInfo "Starting session..."; SessionError err;
     GoCopy (StdoutToLocal l (f_stdout (forwardFunc l conn url port)));
     GoCopy (LocalToStdin (f_stdin (forwardFunc l conn url port)) l);
     GoCopy (StderrToBuffer (f_stderr (forwardFunc l conn url port)))] /\
  List.length (copies_started (serve_conn forwardFunc conn url port l)) = 3%nat.
Proof.
  intro H. unfold serve_conn. rewrite H. split; reflexivity.
Qed.

(** With [ForwardNetcat] on a connection that cannot open a session, the
    three copy tasks are started on nil streams. *)
Lemma failed_open_still_starts_copies_witness :
  let conn := mkClient (Some (Errno "ssh: rejected")) None [] None in
  serve_conn (fun _ => ForwardNetcat) conn "10.0.0.7" 5432 0
  = [SessionInfo "Starting session..."; SessionError (Errno "ssh: rejected");
     GoCopy (StdoutToLocal 0 None);
     GoCopy (LocalToStdin None 0);
     GoCopy (StderrToBuffer None)] /\
  List.length (copies_started (serve_conn (fun _ => ForwardNetcat) conn "10.0.0.7" 5432 0))
  = 3%nat.
Proof.
  exact (failed_open_still_starts_copies (fun _ => ForwardNetcat)
           (mkClient (Some (Errno "ssh: rejected")) None [] None)
           "10.0.0.7" 5432%Z 0%nat (Errno "ssh: rejected") eq_refl).
Defined.

End TunnelClaims.

(** * The claims on the server's channel handler *)

Module ChannelClaims.

Import Server Examples.

(** Every incoming channel gets a handler of its own, in order. *)
Lemma handleChannels_nth (chans : list NewChannel) (i : nat) (c : NewChannel) :
  nth_error chans i = Some c ->
  nth_error (handleChannels chans) i = Some (handleChannel c).
Proof. intro H. unfold handleChannels. apply map_nth_error. exact H. Qed.

(** C5: a channel whose declared type is not "session" is rejected with
    reason UnknownChannelType and the message "unknown channel type: "
    followed by the type, and nothing else is done with it (it is not
    accepted); the loop over the incoming channels starts one handler per
    channel whatever the types are, so every other channel, before or
    after, is handled as it would be alone. *)
Theorem unknown_channel_type_rejected
  (chans : list NewChannel) (i : nat) (c : NewChannel) :
  nth_error chans i = Some c ->
  ChannelType c <> "session" ->
  nth_error (handleChannels chans) i
  = Some [Reject UnknownChannelType ("unknown channel type: " ++ ChannelType c)%string] /\
  ~ In Accept (handleChannel c) /\
  List.length (handleChannels chans) = List.length chans /\
  forall (j : nat) (c' : NewChannel),
    nth_error chans j = Some c' ->
    nth_error (handleChannels chans) j = Some (handleChannel c').
Proof.
  intros Hi Ht.
  assert (Hc : handleChannel c
               = [Reject UnknownChannelType ("unknown channel type: " ++ ChannelType c)%string]).
  { unfold handleChannel. destruct (String.eqb_spec (ChannelType c) "session") as [E|E].
    - contradiction.
    - reflexivity. }
  split; [|split; [|split]].
  - rewrite (handleChannels_nth chans i c Hi). rewrite Hc. reflexivity.
  - rewrite Hc. intros [F|[]]. discriminate.
  - unfold handleChannels. apply length_map.
  - intros j c' Hj. apply handleChannels_nth. exact Hj.
Qed.

Lemma unknown_channel_type_rejected_witness :
  let chans := [mkNewChannel "direct-tcpip" None None None [];
                mkNewChannel "session" None None None []] in
  nth_error (handleChannels chans) 0
  = Some [Reject UnknownChannelType "unknown channel type: direct-tcpip"] /\
  nth_error (handleChannels chans) 1
  = Some [Accept; Infof "Creating pty...";
          GoRelay PtyToChannel; GoRelay ChannelToPty; GoRequests []].
Proof.
  split.
  - apply (unknown_channel_type_rejected
             [mkNewChannel "direct-tcpip" None None None [];
              mkNewChannel "session" None None None []]
             0 (mkNewChannel "direct-tcpip" None None None [])).
    + reflexivity.
    + discriminate.
  - reflexivity.
Defined.

End ChannelClaims.

(** * Properties of the request decoding *)

Module RequestFacts.

Import Server.

Local Open Scope Z_scope.

Lemma b2z_range (b : byte) : 0 <= b2z b < 256.
Proof.
  unfold b2z. pose proof (Byte.to_N_bounded b) as H. lia.
Qed.

(** Or-ing a value below [2^n] with one shifted left by [n] adds them. *)
Lemma lor_shiftl_add (a b n : Z) :
  0 <= n -> 0 <= a < 2 ^ n -> Z.lor a (Z.shiftl b n) = a + b * 2 ^ n.
Proof.
  intros Hn Ha.
  rewrite <- Z.shiftl_mul_pow2 by exact Hn.
  assert (Hland : Z.land a (Z.shiftl b n) = 0).
  { apply Z.bits_inj'. intros i Hi. rewrite Z.land_spec, Z.bits_0.
    destruct (Z.ltb_spec i n) as [Hlt|Hge].
    - rewrite (Z.shiftl_spec_low b n i Hlt). apply andb_false_r.
    - assert (Z.testbit a i = false) as ->; [|reflexivity].
      destruct (Z.eq_dec a 0) as [->|Hnz]; [apply Z.bits_0|].
      apply Z.bits_above_log2; [lia|].
      apply Z.lt_le_trans with n; [|exact Hge].
      apply Z.log2_lt_pow2; lia. }
  rewrite <- Z.lxor_lor by exact Hland.
  symmetry. apply Z.add_nocarry_lxor. exact Hland.
Qed.

(** [binary.BigEndian.Uint32] reads the first four bytes as a big-endian
    number. *)
Lemma Uint32_big_endian (b0 b1 b2 b3 : byte) (rest : list byte) :
  Uint32 (b0 :: b1 :: b2 :: b3 :: rest) = Done (big_endian [b0; b1; b2; b3]).
Proof.
  unfold Uint32, index. cbn [nth_error and_then]. f_equal.
  unfold big_endian. cbn [fold_left].
  pose proof (b2z_range b0). pose proof (b2z_range b1).
  pose proof (b2z_range b2). pose proof (b2z_range b3).
  rewrite (lor_shiftl_add (b2z b3) (b2z b2) 8) by lia.
  rewrite (lor_shiftl_add _ (b2z b1) 16) by lia.
  rewrite (lor_shiftl_add _ (b2z b0) 24) by lia.
  lia.
Qed.

Lemma big_endian4_range (b0 b1 b2 b3 : byte) :
  0 <= big_endian [b0; b1; b2; b3] < 2 ^ 32.
Proof.
  unfold big_endian. cbn [fold_left].
  pose proof (b2z_range b0). pose proof (b2z_range b1).
  pose proof (b2z_range b2). pose proof (b2z_range b3). lia.
Qed.

(** [Uint32] panics exactly on fewer than four bytes. *)
Lemma Uint32_Panic (b : list byte) :
  Uint32 b = Panic <-> (List.length b < 4)%nat.
Proof.
  destruct b as [|b0 [|b1 [|b2 [|b3 rest]]]]; cbn; split; intro H;
    try reflexivity; try lia; try discriminate.
Qed.

(** [parseDims] on at least eight bytes. *)
Lemma parseDims_big_endian (w0 w1 w2 w3 h0 h1 h2 h3 : byte) (rest : list byte) :
  parseDims (w0 :: w1 :: w2 :: w3 :: h0 :: h1 :: h2 :: h3 :: rest)
  = Done (big_endian [w0; w1; w2; w3], big_endian [h0; h1; h2; h3]).
Proof.
  unfold parseDims. rewrite Uint32_big_endian. cbn [and_then].
  unfold slice_from. cbn [List.length Nat.leb skipn and_then].
  rewrite Uint32_big_endian. reflexivity.
Qed.

(** [parseDims] panics exactly on fewer than eight bytes. *)
Lemma parseDims_Panic (b : list byte) :
  parseDims b = Panic <-> (List.length b < 8)%nat.
Proof.
  destruct b as [|w0 [|w1 [|w2 [|w3 [|h0 [|h1 [|h2 [|h3 rest]]]]]]]];
    try (cbn; split; intro H; [lia | reflexivity]).
  rewrite parseDims_big_endian. cbn. split; intro H; [discriminate | lia].
Qed.

(** The conversion to [uint16] is the remainder modulo [2^16]. *)
Lemma uint16_mod (v : Z) : uint16 v = v mod 65536.
Proof.
  unfold uint16. change 65535 with (Z.ones 16). rewrite Z.land_ones by lia.
  reflexivity.
Qed.

Lemma SetWinsize_mod (w h : Z) (sh : Shell) :
  SetWinsize w h sh = mkShell (mkWinsize (h mod 65536) (w mod 65536) 0 0) (replies sh).
Proof. unfold SetWinsize. rewrite !uint16_mod. reflexivity. Qed.

End RequestFacts.

(** * The claims on the in-band requests *)

Module RequestClaims.

Import Server Examples RequestFacts.

Local Open Scope Z_scope.

(** The pty-req branch, given the byte at index 3 and what lies at the
    offset computed from it. *)
Lemma pty_req_at_offset (p : list byte) (t : byte) (sh : Shell) :
  nth_error p 3 = Some t ->
  serve_request (mkRequest "pty-req" p) sh
  = (b <-! slice_from p (Z.to_nat (add_uint8 (b2z t) 4)) ;;
     ' (w, h) <-! parseDims b ;;
     Done (Reply true (SetWinsize w h sh))).
Proof.
  intro H.
  change (serve_request (mkRequest "pty-req" p) sh)
    with (termLen <-! index p 3 ;;
          b <-! slice_from p (Z.to_nat (add_uint8 (b2z termLen) 4)) ;;
          ' (w, h) <-! parseDims b ;;
          Done (Reply true (SetWinsize w h sh))).
  unfold index. rewrite H. reflexivity.
Qed.

(** The window-change branch. *)
Lemma window_change_branch (p : list byte) (sh : Shell) :
  serve_request (mkRequest "window-change" p) sh
  = (' (w, h) <-! parseDims p ;; Done (SetWinsize w h sh)).
Proof. reflexivity. Qed.

(** The pty-req branch on terminal names of at most 251 bytes, where the
    code does what C6 says: for a pty-req payload made of a four-byte
    big-endian length L, L bytes of terminal name, four bytes of width
    and four bytes of height (and anything after them), with L at most
    251, the handler decodes exactly that width and height at offset
    L+4, hands them to SetWinsize and replies true. (The offset is
    computed as the 8-bit sum of payload byte 3 and 4, which is L+4 up
    to L = 251.) *)
Theorem pty_req_decodes_dimensions
  (l0 l1 l2 l3 : byte) (term : list byte)
  (w0 w1 w2 w3 h0 h1 h2 h3 : byte) (rest : list byte) (sh : Shell) :
  let payload := [l0; l1; l2; l3] ++ term
                 ++ [w0; w1; w2; w3; h0; h1; h2; h3] ++ rest in
  let width := big_endian [w0; w1; w2; w3] in
  let height := big_endian [h0; h1; h2; h3] in
  big_endian [l0; l1; l2; l3] = Z.of_nat (List.length term) ->
  (List.length term <= 251)%nat ->
  parseDims (skipn (List.length term + 4) payload) = Done (width, height) /\
  serve_request (mkRequest "pty-req" payload) sh
  = Done (Reply true (SetWinsize width height sh)) /\
  serve_request (mkRequest "pty-req" payload) sh
  = Done (mkShell (mkWinsize (height mod 65536) (width mod 65536) 0 0)
                  (replies sh ++ [true])).
Proof.
  intros payload width height HL Hle.
  assert (Hl3 : b2z l3 = Z.of_nat (List.length term)).
  { unfold big_endian in HL. cbn [fold_left] in HL.
    pose proof (b2z_range l0). pose proof (b2z_range l1).
    pose proof (b2z_range l2). pose proof (b2z_range l3). lia. }
  assert (Hoff : Z.to_nat (add_uint8 (b2z l3) 4) = (4 + List.length term)%nat).
  { unfold add_uint8. rewrite Hl3. rewrite Z.mod_small by lia. lia. }
  assert (Hskip : skipn (4 + List.length term) payload
                  = w0 :: w1 :: w2 :: w3 :: h0 :: h1 :: h2 :: h3 :: rest).
  { unfold payload. cbn [app skipn Nat.add].
    rewrite skipn_app, Nat.sub_diag, skipn_all. reflexivity. }
  assert (Hserve : serve_request (mkRequest "pty-req" payload) sh
                   = Done (Reply true (SetWinsize width height sh))).
  { rewrite (pty_req_at_offset payload l3 sh) by reflexivity.
    rewrite Hoff. unfold slice_from.
    assert (Hlen : Nat.leb (4 + List.length term) (List.length payload) = true).
    { apply Nat.leb_le. unfold payload. rewrite !length_app. cbn. lia. }
    rewrite Hlen. cbn [and_then]. rewrite Hskip, parseDims_big_endian.
    reflexivity. }
  split; [|split].
  - rewrite Nat.add_comm, Hskip. apply parseDims_big_endian.
  - exact Hserve.
  - rewrite Hserve, SetWinsize_mod. reflexivity.
Qed.

Lemma pty_req_decodes_dimensions_witness :
  serve_request (mkRequest "pty-req" (pty_req x05 5)) fresh
  = Done (mkShell (mkWinsize 24 80 0 0) [true]).
Proof.
  apply (pty_req_decodes_dimensions x00 x00 x00 x05 (repeat "x"%byte 5)
           x00 x00 x00 x50 x00 x00 x00 x18 [] fresh).
  - reflexivity.
  - cbn. lia.
Defined.

(** C6, the code at the failing input, a terminal name of 252 bytes:
    byte 3 of the payload is 252, the 8-bit sum [termLen+4] is 0 and not
    256, and the dimensions are read at offset 0, from the length field
    and the terminal name. The payload carries width 80 and height 24;
    the pty is given width 252 and height 30840, and the reply is
    true. *)
Lemma pty_req_long_name_misread :
  big_endian (firstn 4 (pty_req xfc 252)) = 252 /\
  parseDims (skipn (252 + 4) (pty_req xfc 252)) = Done (80, 24) /\
  serve_request (mkRequest "pty-req" (pty_req xfc 252)) fresh
  = Done (mkShell (mkWinsize 30840 252 0 0) [true]) /\
  serve_request (mkRequest "pty-req" (pty_req xfc 252)) fresh
  <> Done (Reply true (SetWinsize 80 24 fresh)).
Proof.
  split; [reflexivity|]. split; [vm_compute; reflexivity|].
  split; [vm_compute; reflexivity|]. vm_compute. discriminate.
Qed.

(** C7: a window-change request is decoded as the big-endian 32-bit
    width at offset 0 and height at offset 4; these are handed to
    SetWinsize, the pty gets them (as 16-bit values), and no reply is
    sent. For the payload 00 00 00 78 00 00 00 28 the geometry becomes
    width 120, height 40. *)
Theorem window_change_sets_geometry
  (w0 w1 w2 w3 h0 h1 h2 h3 : byte) (rest : list byte) (sh : Shell) :
  let payload := w0 :: w1 :: w2 :: w3 :: h0 :: h1 :: h2 :: h3 :: rest in
  let width := big_endian [w0; w1; w2; w3] in
  let height := big_endian [h0; h1; h2; h3] in
  parseDims payload = Done (width, height) /\
  serve_request (mkRequest "window-change" payload) sh
  = Done (SetWinsize width height sh) /\
  serve_request (mkRequest "window-change" payload) sh
  = Done (mkShell (mkWinsize (height mod 65536) (width mod 65536) 0 0) (replies sh)) /\
  serve_request (mkRequest "window-change" resize_120_40) sh
  = Done (mkShell (mkWinsize 40 120 0 0) (replies sh)).
Proof.
  intros payload width height.
  assert (H : serve_request (mkRequest "window-change" payload) sh
              = Done (SetWinsize width height sh)).
  { rewrite window_change_branch. unfold payload.
    rewrite parseDims_big_endian. reflexivity. }
  split; [apply parseDims_big_endian|]. split; [exact H|].
  split; [rewrite H, SetWinsize_mod; reflexivity|].
  reflexivity.
Qed.

(** C9: whenever a request makes the handler set the geometry, the
    decoded 32-bit width and height reach the pty narrowed to 16 bits:
    the pty gets width mod 2^16 and height mod 2^16. This holds for a
    window-change request (no reply) and for a pty-req request (reply
    true) alike; nothing else happens (no error, no log, no panic), and
    a width or height of 65536 or more is not the value the pty gets. *)
Theorem geometry_is_narrowed_to_16_bits
  (p b : list byte) (t : byte) (w h : Z) (sh : Shell) :
  (parseDims p = Done (w, h) ->
   serve_request (mkRequest "window-change" p) sh
   = Done (mkShell (mkWinsize (h mod 2 ^ 16) (w mod 2 ^ 16) 0 0) (replies sh))) /\
  (nth_error p 3 = Some t ->
   slice_from p (Z.to_nat (add_uint8 (b2z t) 4)) = Done b ->
   parseDims b = Done (w, h) ->
   serve_request (mkRequest "pty-req" p) sh
   = Done (mkShell (mkWinsize (h mod 2 ^ 16) (w mod 2 ^ 16) 0 0) (replies sh ++ [true]))) /\
  (65536 <= w -> w mod 2 ^ 16 <> w) /\
  (65536 <= h -> h mod 2 ^ 16 <> h) /\
  pty_winsize (SetWinsize w h sh) = mkWinsize (h mod 2 ^ 16) (w mod 2 ^ 16) 0 0.
Proof.
  change (2 ^ 16) with 65536.
  split; [|split; [|split; [|split]]].
  - intro H. rewrite window_change_branch, H. cbn [and_then].
    rewrite SetWinsize_mod. reflexivity.
  - intros H3 Hs Hd. rewrite (pty_req_at_offset p t sh H3), Hs. cbn [and_then].
    rewrite Hd. cbn [and_then]. rewrite SetWinsize_mod. reflexivity.
  - intro H. pose proof (Z.mod_pos_bound w 65536). lia.
  - intro H. pose proof (Z.mod_pos_bound h 65536). lia.
  - rewrite SetWinsize_mod. reflexivity.
Qed.

(** A resize to width 65656 (0x00010078) and height 40 leaves the pty
    with width 120. *)
Lemma geometry_is_narrowed_to_16_bits_witness :
  serve_request (mkRequest "window-change" [x00; x01; x00; x78; x00; x00; x00; x28]) fresh
  = Done (mkShell (mkWinsize 40 120 0 0) []).
Proof.
  apply (proj1 (geometry_is_narrowed_to_16_bits
                  [x00; x01; x00; x78; x00; x00; x00; x28] [] x00 65656 40 fresh)).
  reflexivity.
Defined.

(** The sum of a byte and 4 in 8-bit arithmetic, as a length. *)
Lemma pty_req_offset_small (t : byte) :
  b2z t <= 251 -> add_uint8 (b2z t) 4 = b2z t + 4.
Proof.
  intro H. pose proof (b2z_range t). unfold add_uint8.
  rewrite Z.mod_small; lia.
Qed.

(** C10, as the code has it: the request loop indexes without checking.
    A window-change request panics exactly when its payload is shorter
    than 8 bytes. A pty-req request panics when its payload is shorter
    than 4 bytes; otherwise, with termLen the payload byte 3, it panics
    exactly when the payload is shorter than ((termLen+4) mod 256) + 8
    bytes, the sum termLen+4 being an 8-bit sum; that bound is
    termLen+12 when termLen is at most 251. In none of these cases is
    the request rejected or an error returned. *)
Theorem short_payload_panics (p : list byte) (sh : Shell) :
  (serve_request (mkRequest "window-change" p) sh = Panic
   <-> (List.length p < 8)%nat) /\
  ((List.length p < 4)%nat -> serve_request (mkRequest "pty-req" p) sh = Panic) /\
  (forall t : byte,
     nth_error p 3 = Some t ->
     (serve_request (mkRequest "pty-req" p) sh = Panic
      <-> Z.of_nat (List.length p) < add_uint8 (b2z t) 4 + 8) /\
     (b2z t <= 251 -> Z.of_nat (List.length p) < b2z t + 12 ->
      serve_request (mkRequest "pty-req" p) sh = Panic)).
Proof.
  assert (Hwc : serve_request (mkRequest "window-change" p) sh = Panic
                <-> (List.length p < 8)%nat).
  { rewrite window_change_branch, <- parseDims_Panic.
    destruct (parseDims p) as [[w h]|]; cbn; split; congruence. }
  assert (Hpty : forall t : byte,
             nth_error p 3 = Some t ->
             (serve_request (mkRequest "pty-req" p) sh = Panic
              <-> Z.of_nat (List.length p) < add_uint8 (b2z t) 4 + 8)).
  { intros t Ht. rewrite (pty_req_at_offset p t sh Ht).
    assert (Hoff : 0 <= add_uint8 (b2z t) 4 < 256)
      by (unfold add_uint8; apply Z.mod_pos_bound; lia).
    unfold slice_from.
    destruct (Nat.leb_spec (Z.to_nat (add_uint8 (b2z t) 4)) (List.length p)) as [Hle|Hgt].
    - cbn [and_then].
      pose proof (parseDims_Panic (skipn (Z.to_nat (add_uint8 (b2z t) 4)) p)) as HP.
      rewrite length_skipn in HP.
      destruct (parseDims (skipn (Z.to_nat (add_uint8 (b2z t) 4)) p)) as [[w h]|].
      + cbn. split; [discriminate|]. intro H.
        assert (F : @Done (Z * Z) (w, h) = Panic) by (apply HP; lia). discriminate.
      + cbn. split; [|reflexivity]. intros _.
        assert (List.length p - Z.to_nat (add_uint8 (b2z t) 4) < 8)%nat
          by (apply HP; reflexivity). lia.
    - cbn [and_then]. split; [|reflexivity]. intros _. lia. }
  split; [exact Hwc|]. split.
  - intro Hlt. unfold serve_request. cbn [Type_ Payload].
    change (String.eqb "pty-req" "shell") with false.
    change (String.eqb "pty-req" "pty-req") with true. cbv iota.
    unfold index.
    assert (Hn : nth_error p 3 = None) by (apply nth_error_None; lia).
    rewrite Hn. reflexivity.
  - intros t Ht. split; [apply Hpty; exact Ht|].
    intros Hsmall Hlen. apply (Hpty t Ht).
    rewrite pty_req_offset_small by exact Hsmall. lia.
Qed.

Lemma short_payload_panics_witness :
  serve_request (mkRequest "pty-req" [x00; x00; x00; x05; x78; x74; x65; x72; x6d]) fresh
  = Panic.
Proof.
  apply (proj2 (proj2 (short_payload_panics
                         [x00; x00; x00; x05; x78; x74; x65; x72; x6d] fresh)) x05).
  - reflexivity.
  - cbn. lia.
  - cbn. lia.
Defined.

(** C10 as stated fails for termLen of 252 or more: this pty-req payload
    has 8 bytes and byte 3 is 252, so it is shorter than termLen+12 =
    264 bytes, yet the handler does not panic: the 8-bit sum 252+4 is
    0, the dimensions are read at offset 0, the pty is set and the
    request is answered. *)
Lemma short_pty_req_without_panic :
  nth_error [x00; x00; x00; xfc; x00; x00; x00; x00] 3 = Some xfc /\
  Z.of_nat (List.length [x00; x00; x00; xfc; x00; x00; x00; x00]) < b2z xfc + 12 /\
  serve_request (mkRequest "pty-req" [x00; x00; x00; xfc; x00; x00; x00; x00]) fresh
  = Done (mkShell (mkWinsize 0 252 0 0) [true]) /\
  serve_request (mkRequest "pty-req" [x00; x00; x00; xfc; x00; x00; x00; x00]) fresh
  <> Panic.
Proof.
  split; [reflexivity|]. split; [cbn; lia|]. split; [reflexivity|].
  cbn. discriminate.
Qed.

End RequestClaims.

(** * The relay pair and its single-fire teardown *)

Module RelayFacts.

Import Server Relay.

Lemma init_consistent (wait : option error) : consistent wait init.
Proof. destruct wait; repeat split. Qed.

(** Case analysis on a consistent state: the places, the flag, the
    result of Wait and whether the shell has exited are enumerated, and
    the combinations that the invariant rules out are dropped. *)
Ltac enumerate s wait H :=
  let po := fresh "po" in
  let pi := fresh "pi" in
  let dn := fresh "dn" in
  let lk := fresh "lk" in
  let ex := fresh "ex" in
  let tr := fresh "tr" in
  let Hc := fresh "Hc" in
  let Hl := fresh "Hl" in
  let Ht := fresh "Ht" in
  destruct s as [po pi dn lk ex tr];
  destruct H as (Hc & Hl & Ht);
  cbn [pc_out pc_in done locked exited trace] in Hc, Hl, Ht;
  subst lk tr;
  destruct wait as [?err|]; destruct ex as [?status|]; destruct dn, po, pi;
  try discriminate Hc; clear Hc.

(** Every step of either goroutine, and the exit of the shell, keep the
    invariant. *)
Lemma step_consistent (wait : option error) (e : event) (s : state) :
  consistent wait s -> consistent wait (step wait e s).
Proof.
  intro H. enumerate s wait H; destruct e as [[|]|st]; repeat split.
Qed.

Lemma run_consistent (wait : option error) (schedule : list event) :
  forall s : state, consistent wait s -> consistent wait (run wait schedule s).
Proof.
  unfold run. induction schedule as [|e rest IH]; intros s Hs; cbn.
  - exact Hs.
  - apply IH. apply step_consistent. exact Hs.
Qed.

Lemma reachable_consistent (wait : option error) (schedule : list event) :
  consistent wait (run wait schedule init).
Proof. apply run_consistent, init_consistent. Qed.

Lemma run_app (wait : option error) (a b : list event) (s : state) :
  run wait (a ++ b) s = run wait b (run wait a s).
Proof. unfold run. apply fold_left_app. Qed.

(** In a consistent state the trace is a beginning of one teardown, and
    it is the whole teardown once a goroutine is back from [once.Do]. *)
Lemma consistent_prefix (wait : option error) (s : state) :
  consistent wait s ->
  (exists k : nat, trace s = firstn k (teardown wait)) /\
  (pc_out s = Returned \/ pc_in s = Returned -> trace s = teardown wait).
Proof.
  intro H. enumerate s wait H; cbn [pc_out pc_in trace]; (split;
    [ first [ exists 0; reflexivity | exists 1; reflexivity | exists 2; reflexivity
            | exists 3; reflexivity | exists 4; reflexivity ]
    | intros [E|E]; first [ discriminate E | reflexivity ] ]).
Qed.

(** A beginning of the teardown closes at most once and waits at most
    once; the whole teardown does each exactly once, closing first. *)
Lemma teardown_counts (wait : option error) (k : nat) :
  closes (firstn k (teardown wait)) <= 1 /\ waits (firstn k (teardown wait)) <= 1 /\
  closes (teardown wait) = 1 /\ waits (teardown wait) = 1 /\
  firstn 2 (teardown wait) = [ConnectionClose; ProcessWait].
Proof.
  destruct wait as [err|];
    destruct k as [|[|[|[|[|k]]]]]; cbn; repeat split; lia.
Qed.

(** A goroutine whose copy ends while the other is not in the middle of
    the teardown gets the channel closed and Wait called by itself, or
    finds that done; the other goroutine has no part in it. *)
Lemma starts_alone (wait : option error) (s : state) :
  consistent wait s ->
  forall g : relay,
  holds (pc_of (other g) s) = false ->
  closes (trace (run wait (repeat (Moves g) 6) s)) = 1 /\
  waits (trace (run wait (repeat (Moves g) 6) s)) = 1 /\
  pc_of (other g) (run wait (repeat (Moves g) 6) s) = pc_of (other g) s.
Proof.
  intros H g Hg. enumerate s wait H; destruct g; cbn in Hg;
    try discriminate Hg; repeat split.
Qed.

(** Once the shell has exited the goroutines carry the teardown to its
    end, whichever of them is in it. *)
Lemma finishes (wait : option error) (s : state) :
  consistent wait s ->
  forall (g : relay) (status : Z),
  pc_of g (run wait (ShellExits status :: repeat (Moves g) 11
                     ++ repeat (Moves (other g)) 11 ++ repeat (Moves g) 11) s)
  = Returned /\
  trace (run wait (ShellExits status :: repeat (Moves g) 11
                   ++ repeat (Moves (other g)) 11 ++ repeat (Moves g) 11) s)
  = teardown wait.
Proof.
  intros H g st. enumerate s wait H; destruct g; split; reflexivity.
Qed.

(** While the shell runs the teardown does not get past Wait. *)
Lemma blocked_until_exit (wait : option error) (s : state) :
  consistent wait s ->
  exited s = None ->
  pc_out s <> Returned /\ pc_in s <> Returned /\
  exists k : nat, trace s = firstn k [ConnectionClose; ProcessWait].
Proof.
  intros H He. enumerate s wait H; cbn [exited] in He; try discriminate He;
    cbn [pc_out pc_in trace];
    (split; [discriminate|]); (split; [discriminate|]);
    first [ exists 0; reflexivity | exists 1; reflexivity | exists 2; reflexivity ].
Qed.

End RelayFacts.

(** * The claim on the single-fire teardown *)

Module RelayClaims.

Import Server Relay RelayFacts.

(** C4, as the code has it: for an accepted shell channel, under every
    schedule of the two relay goroutines and of the shell's exit
    (whichever copy ends first, and whether one or both end), the
    teardown is executed at most once: what was done at any moment is a
    beginning of one run of the teardown, with at most one close of the
    channel and at most one call of Wait. Once a goroutine is back from
    [once.Do] the teardown was executed exactly once, whole. Either copy
    ending starts it: a goroutine whose copy ends while the other is not
    in the teardown closes the channel and calls Wait by itself. Wait
    returns only when the shell has exited: until then no goroutine
    comes back and nothing is logged, and after that the goroutines
    bring the teardown to its end. An error of Wait is logged, then
    "Session closed", and nothing more is done about it; without an
    error of Wait nothing but "Session closed" is logged, whatever the
    exit status of the shell. *)
Theorem teardown_runs_exactly_once (wait : option error) (schedule : list event) :
  let s := run wait schedule init in
  ((exists k : nat, trace s = firstn k (teardown wait)) /\
   closes (trace s) <= 1 /\ waits (trace s) <= 1) /\
  (pc_out s = Returned \/ pc_in s = Returned ->
   trace s = teardown wait /\ closes (trace s) = 1 /\ waits (trace s) = 1) /\
  (forall g : relay,
     holds (pc_of (other g) s) = false ->
     closes (trace (run wait (repeat (Moves g) 6) s)) = 1 /\
     waits (trace (run wait (repeat (Moves g) 6) s)) = 1 /\
     pc_of (other g) (run wait (repeat (Moves g) 6) s) = pc_of (other g) s) /\
  (exited s = None ->
   pc_out s <> Returned /\ pc_in s <> Returned /\
   exists k : nat, trace s = firstn k [ConnectionClose; ProcessWait]) /\
  (forall (g : relay) (status : Z),
     pc_of g (run wait (ShellExits status :: repeat (Moves g) 11
                        ++ repeat (Moves (other g)) 11 ++ repeat (Moves g) 11) s)
     = Returned /\
     trace (run wait (ShellExits status :: repeat (Moves g) 11
                      ++ repeat (Moves (other g)) 11 ++ repeat (Moves g) 11) s)
     = teardown wait) /\
  (forall err : error,
     wait = Some err ->
     teardown wait
     = [ConnectionClose; ProcessWait;
        Errorf ("Failed to exit bash (" ++ Tunnel.Error err ++ ")")%string;
        Infof "Session closed"]) /\
  (wait = None ->
   teardown wait = [ConnectionClose; ProcessWait; Infof "Session closed"]).
Proof.
  intro s.
  pose proof (reachable_consistent wait schedule) as Hs. fold s in Hs.
  destruct (consistent_prefix wait s Hs) as [[k Hk] Hret].
  destruct (teardown_counts wait k) as (Hc & Hw & Hc1 & Hw1 & _).
  split.
  { split; [exists k; exact Hk|]. rewrite Hk. split; [exact Hc|exact Hw]. }
  split.
  { intro H. rewrite (Hret H). auto. }
  split; [exact (starts_alone wait s Hs)|].
  split; [exact (blocked_until_exit wait s Hs)|].
  split; [exact (finishes wait s Hs)|].
  split; [intros err ->; reflexivity | intros ->; reflexivity].
Qed.

(** The copy from the channel ends alone, the shell still running: the
    channel is closed and Wait called, once each. Both copies end, the
    one from the pty first, and the shell exits: one whole teardown. *)
Lemma teardown_runs_exactly_once_witness :
  (closes (trace (run None (repeat (Moves ChannelToPty) 6) init)) = 1 /\
   waits (trace (run None (repeat (Moves ChannelToPty) 6) init)) = 1 /\
   pc_out (run None (repeat (Moves ChannelToPty) 6) init) = Copying) /\
  trace (run (Some EOF)
           (repeat (Moves PtyToChannel) 3 ++ repeat (Moves ChannelToPty) 12
            ++ ShellExits 0 :: repeat (Moves PtyToChannel) 12) init)
  = teardown (Some EOF).
Proof.
  split.
  - exact (proj1 (proj2 (proj2 (teardown_runs_exactly_once None [])))
             ChannelToPty eq_refl).
  - exact (proj1 (proj1 (proj2 (teardown_runs_exactly_once (Some EOF)
                                  (repeat (Moves PtyToChannel) 3
                                   ++ repeat (Moves ChannelToPty) 12
                                   ++ ShellExits 0 :: repeat (Moves PtyToChannel) 12)))
                    (or_introl eq_refl))).
Defined.

(** C4 as stated fails for a failing exit of the shell: the shell exits
    with status 1, Wait returns no error, and the whole teardown logs
    "Session closed" and no error. *)
Lemma nonzero_exit_is_not_logged :
  pc_in (run None (repeat (Moves ChannelToPty) 6
                   ++ ShellExits 1 :: repeat (Moves ChannelToPty) 5) init) = Returned /\
  exited (run None (repeat (Moves ChannelToPty) 6
                    ++ ShellExits 1 :: repeat (Moves ChannelToPty) 5) init) = Some 1%Z /\
  trace (run None (repeat (Moves ChannelToPty) 6
                   ++ ShellExits 1 :: repeat (Moves ChannelToPty) 5) init)
  = [ConnectionClose; ProcessWait; Infof "Session closed"] /\
  (forall msg : string,
     ~ In (Errorf msg)
          (trace (run None (repeat (Moves ChannelToPty) 6
                            ++ ShellExits 1 :: repeat (Moves ChannelToPty) 5) init))).
Proof.
  split; [reflexivity|]. split; [reflexivity|]. split; [reflexivity|].
  intros msg [F|[F|[F|[]]]]; discriminate F.
Qed.

End RelayClaims.

(** * Properties of the string functions *)

Module StringsFacts.

Import Strings.

Lemma HasPrefix_iff (s p : string) :
  HasPrefix s p = true <-> exists rest, s = (p ++ rest)%string.
Proof.
  revert s. induction p as [|c p IH]; intro s; cbn.
  - split; [intros _; exists s; reflexivity | reflexivity].
  - destruct s as [|d s]; [split; [discriminate | intros [r H]; discriminate]|].
    rewrite andb_true_iff, IH. split.
    + intros [Hc [r ->]]. apply Ascii.eqb_eq in Hc. subst d. exists r. reflexivity.
    + intros [r H]. injection H as -> ->. split; [apply Ascii.eqb_refl|exists r; reflexivity].
Qed.

(** [Contains] holds exactly of the strings that have the other one as a
    substring. *)
Lemma Contains_iff (s sub : string) :
  Contains s sub = true <-> exists a b, s = (a ++ sub ++ b)%string.
Proof.
  induction s as [|c s IH].
  - cbn. rewrite orb_false_r, HasPrefix_iff. split.
    + intros [r H]. exists EmptyString, r. exact H.
    + intros [a [b H]]. destruct a; [exists b; exact H|discriminate].
  - cbn [Contains]. rewrite orb_true_iff, IH, HasPrefix_iff. split.
    + intros [[r H]|[a [b H]]].
      * exists EmptyString, r. exact H.
      * exists (String c a), b. cbn. rewrite H. reflexivity.
    + intros [a [b H]]. destruct a as [|d a].
      * left. exists b. exact H.
      * right. cbn in H. injection H as -> ->. exists a, b. reflexivity.
Qed.

Lemma Contains_tail (c : ascii) (s sub : string) :
  Contains (String c s) sub = false -> Contains s sub = false.
Proof. cbn [Contains]. intro H. apply orb_false_elim in H. apply H. Qed.

Lemma Contains_head (s sub : string) :
  Contains s sub = false -> HasPrefix s sub = false.
Proof.
  destruct s; cbn [Contains]; intro H; apply orb_false_elim in H; apply H.
Qed.

(** Replacing what does not occur changes nothing. *)
Lemma Replace_absent (s old new : string) :
  Contains s old = false -> Replace s old new = s.
Proof.
  unfold Replace. induction s as [|c s IH]; intro H; [reflexivity|].
  cbn [replace_from]. rewrite (Contains_head _ _ H).
  rewrite IH by (eapply Contains_tail; exact H). reflexivity.
Qed.

Lemma length_append (a b : string) :
  String.length (a ++ b) = String.length a + String.length b.
Proof. induction a as [|c a IH]; cbn; [reflexivity|]. rewrite IH. reflexivity. Qed.

(** A replacement by something no longer than what it replaces does not
    lengthen the string. *)
Lemma replace_from_length (old new : string) :
  String.length new <= String.length old ->
  forall (s : string) (skip : nat),
  String.length (replace_from old new skip s) + Nat.min skip (String.length s)
  <= String.length s.
Proof.
  intros Hn. induction s as [|c s IH]; intro skip; cbn [replace_from String.length].
  - cbn. lia.
  - destruct skip as [|k].
    + destruct (HasPrefix (String c s) old) eqn:Hp.
      * apply HasPrefix_iff in Hp. destruct Hp as [r Hr].
        assert (Hlen : String.length (String c s) = String.length old + String.length r)
          by (rewrite Hr; apply length_append).
        cbn [String.length] in Hlen.
        rewrite length_append.
        specialize (IH (String.length old - 1)). lia.
      * cbn [String.length]. specialize (IH 0). lia.
    + specialize (IH k). lia.
Qed.

Lemma Split_nonempty (s : string) (sep : ascii) : Split s sep <> [].
Proof.
  destruct s as [|c s]; cbn; [discriminate|].
  destruct (Ascii.eqb c sep); [discriminate|].
  destruct (Split s sep); discriminate.
Qed.

(** Joining the pieces of a split with the separator gives the string
    back. *)
Lemma Split_join (s : string) (sep : ascii) :
  String.concat (String sep EmptyString) (Split s sep) = s.
Proof.
  induction s as [|c s IH]; [reflexivity|].
  cbn [Split]. pose proof (Split_nonempty s sep) as Hne.
  destruct (Split s sep) as [|p ps] eqn:E; [contradiction Hne; reflexivity|].
  destruct (Ascii.eqb_spec c sep) as [->|Hc].
  - change (String.concat (String sep "") ("" :: p :: ps))
      with (String sep (String.concat (String sep "") (p :: ps))).
    rewrite IH. reflexivity.
  - destruct ps as [|q ps].
    + cbn in IH |- *. rewrite IH. reflexivity.
    + change (String.concat (String sep "") (String c p :: q :: ps))
        with (String c (p ++ String sep "" ++ String.concat (String sep "") (q :: ps)))%string.
      change (String.concat (String sep "") (p :: q :: ps))
        with (p ++ String sep "" ++ String.concat (String sep "") (q :: ps))%string in IH.
      rewrite IH. reflexivity.
Qed.

Lemma Contains_char_false (c : ascii) (s : string) :
  free_of c s -> Contains s (String c EmptyString) = false.
Proof.
  induction s as [|d s IH]; [reflexivity|].
  intros [Hd Hs]. cbn. rewrite (IH Hs).
  destruct (Ascii.eqb_spec d c); [contradiction|reflexivity].
Qed.

Lemma Contains_char_free (c : ascii) (s : string) :
  Contains s (String c EmptyString) = false -> free_of c s.
Proof.
  induction s as [|d s IH]; [intros _; exact I|].
  intro H. pose proof (Contains_tail _ _ _ H) as Ht.
  apply Contains_head in H. cbn in H.
  split; [|apply IH; exact Ht].
  intros ->. rewrite Ascii.eqb_refl in H. destruct s; discriminate.
Qed.

(** Splitting [a ++ sep ++ b] when [sep] is not in [a]: the first piece
    is [a], the others are the pieces of [b]. *)
Lemma Split_first (a b : string) (sep : ascii) :
  free_of sep a ->
  Split (a ++ String sep b) sep = a :: Split b sep.
Proof.
  induction a as [|c a IH]; cbn [String.append Split].
  - intros _. rewrite Ascii.eqb_refl. reflexivity.
  - intros [Hc Ha]. destruct (Ascii.eqb_spec c sep); [contradiction|].
    rewrite (IH Ha). reflexivity.
Qed.

Lemma Split_free (a : string) (sep : ascii) :
  free_of sep a -> Split a sep = [a].
Proof.
  induction a as [|c a IH]; cbn [Split]; [reflexivity|].
  intros [Hc Ha]. destruct (Ascii.eqb_spec c sep); [contradiction|].
  rewrite (IH Ha). reflexivity.
Qed.

End StringsFacts.


(** * Properties of the command lines *)

Module CommandFacts.

Import Strings StringsFacts.

Lemma append_assoc (a b c : string) : ((a ++ b) ++ c = a ++ b ++ c)%string.
Proof. induction a as [|x a IH]; cbn; [reflexivity|]. rewrite IH. reflexivity. Qed.

Lemma append_nil_r (a : string) : (a ++ "" = a)%string.
Proof. induction a as [|x a IH]; cbn; [reflexivity|]. rewrite IH. reflexivity. Qed.

Lemma concat_cons (x : string) (l : list string) :
  String.concat "" (x :: l) = (x ++ String.concat "" l)%string.
Proof. destruct l; cbn; [rewrite append_nil_r|]; reflexivity. Qed.

(** Appending the pieces one by one, each after a slash. *)
Lemma fold_slash (pieces : list string) :
  forall host : string,
  fold_left (fun host s => (host ++ "/" ++ s)%string) pieces host
  = (host ++ String.concat "" (map (fun s => ("/" ++ s)%string) pieces))%string.
Proof.
  induction pieces as [|p ps IH]; intro host; cbn [fold_left map].
  - cbn. rewrite append_nil_r. reflexivity.
  - rewrite IH, concat_cons, !append_assoc. reflexivity.
Qed.

Lemma slashed_join (pieces : list string) :
  pieces <> [] ->
  String.concat "" (map (fun s => ("/" ++ s)%string) pieces)
  = ("/" ++ String.concat "/" pieces)%string.
Proof.
  induction pieces as [|p ps IH]; intro H; [contradiction H; reflexivity|].
  cbn [map]. rewrite concat_cons.
  destruct ps as [|q ps]; [cbn; rewrite append_nil_r; reflexivity|].
  rewrite IH by discriminate.
  change (String.concat "/" (p :: q :: ps))
    with (p ++ "/" ++ String.concat "/" (q :: ps))%string.
  rewrite !append_assoc. reflexivity.
Qed.

(** Both branches of the rewriting give the first piece with its port,
    followed by the other pieces. *)
Lemma with_port_pieces (h first : string) (rest : list string) :
  Contains h ":" = false -> Split h "/"%char = first :: rest ->
  Rcurl.with_port h
  = fold_left (fun host s => (host ++ "/" ++ s)%string) rest (first ++ ":" ++ "22")%string.
Proof.
  intros Hc Hs. unfold Rcurl.with_port. rewrite Hc, Hs. cbn [negb].
  destruct rest; reflexivity.
Qed.

(** rcurl's host rewriting: a host with a colon is left alone; a host
    without one gets [:22] right after its first piece, that is before
    its first slash or at its end. The result always has a colon, so the
    rewriting done twice is the rewriting done once; the empty host
    becomes [:22]. *)
Theorem with_port_inserts_22 (sshHost a b : string) :
  (Contains sshHost ":" = true -> Rcurl.with_port sshHost = sshHost) /\
  (free_of ":"%char (a ++ b) -> free_of "/"%char a ->
   Rcurl.with_port a = (a ++ ":22")%string /\
   Rcurl.with_port (a ++ "/" ++ b) = (a ++ ":22" ++ "/" ++ b)%string) /\
  Contains (Rcurl.with_port sshHost) ":" = true /\
  Rcurl.with_port (Rcurl.with_port sshHost) = Rcurl.with_port sshHost /\
  Rcurl.with_port "" = ":22".
Proof.
  assert (Hkeep : forall h, Contains h ":" = true -> Rcurl.with_port h = h).
  { intros h H. unfold Rcurl.with_port. rewrite H. reflexivity. }
  assert (Hcolon : forall h, Contains (Rcurl.with_port h) ":" = true).
  { intro h.
    destruct (Contains h ":") eqn:E; [rewrite (Hkeep h E); exact E|].
    pose proof (Split_nonempty h "/"%char) as Hne.
    destruct (Split h "/"%char) as [|first rest] eqn:ES; [contradiction Hne; reflexivity|].
    rewrite (with_port_pieces h first rest E ES).
    rewrite fold_slash. apply Contains_iff.
    exists first, ("22" ++ String.concat "" (map (fun s => ("/" ++ s)%string) rest))%string.
    rewrite !append_assoc. reflexivity. }
  split; [apply Hkeep|]. split; [|split; [apply Hcolon|split]].
  - intros Hc Hs.
    assert (Hca : free_of ":"%char a /\ free_of ":"%char b).
    { clear Hs. induction a as [|x a IH]; cbn in *; [tauto|].
      destruct Hc as [Hx Hc]. destruct (IH Hc). tauto. }
    destruct Hca as [Hca Hcb]. split.
    + rewrite (with_port_pieces a a [] (Contains_char_false _ _ Hca)
                 (Split_free a "/"%char Hs)).
      reflexivity.
    + assert (Hfree : free_of ":"%char (a ++ "/" ++ b)).
      { clear Hs Hc. induction a as [|x a IH]; cbn in *.
        - split; [discriminate|exact Hcb].
        - destruct Hca as [Hx Hca]. split; [exact Hx|apply IH; exact Hca]. }
      change (a ++ "/" ++ b)%string with (a ++ String "/" b)%string in *.
      rewrite (with_port_pieces _ a (Split b "/"%char) (Contains_char_false _ _ Hfree)
                 (Split_first a b "/"%char Hs)).
      rewrite fold_slash, slashed_join by apply Split_nonempty.
      rewrite Split_join. rewrite !append_assoc. reflexivity.
  - apply Hkeep, Hcolon.
  - reflexivity.
Qed.

Lemma with_port_inserts_22_witness :
  Rcurl.with_port "admin01" = "admin01:22" /\
  Rcurl.with_port "admin01/x/y" = "admin01:22/x/y".
Proof.
  apply (proj1 (proj2 (with_port_inserts_22 "" "admin01" "x/y"))).
  - cbn. repeat split; discriminate.
  - cbn. repeat split; discriminate.
Defined.

(** The command line of [CurlFromRemote]: [curl], then each argument
    after a space, then the url between double quotes after a space. An
    argument without the escaped quote is passed as it is; one with it
    has each occurrence replaced by a double quote, and is never made
    longer. The test before the replacement changes nothing. *)
Theorem curl_command_shape (url : string) (args : list string) :
  Remote.curl_command url args
  = ("curl" ++ String.concat "" (map (fun s => (" " ++ Remote.curl_arg s)%string) args)
     ++ " " ++ dquote ++ url ++ dquote)%string /\
  (forall s, Remote.curl_arg s = Replace s Remote.escaped dquote) /\
  (forall s, Contains s Remote.escaped = false -> Remote.curl_arg s = s) /\
  (forall s, String.length (Remote.curl_arg s) <= String.length s) /\
  Remote.curl_command url [] = ("curl " ++ dquote ++ url ++ dquote)%string.
Proof.
  assert (Hfold : forall (l : list string) (cmd : string),
            fold_left (fun cmd s => (cmd ++ " " ++ Remote.curl_arg s)%string) l cmd
            = (cmd ++ String.concat "" (map (fun s => (" " ++ Remote.curl_arg s)%string) l))%string).
  { induction l as [|p ps IH]; intro cmd; cbn [fold_left map].
    - cbn. rewrite append_nil_r. reflexivity.
    - rewrite IH, concat_cons, !append_assoc. reflexivity. }
  assert (Harg : forall s, Remote.curl_arg s = Replace s Remote.escaped dquote).
  { intro s. unfold Remote.curl_arg.
    destruct (Contains s Remote.escaped) eqn:E; [reflexivity|].
    symmetry. apply Replace_absent. exact E. }
  split; [|split; [exact Harg|split; [|split]]].
  - unfold Remote.curl_command. rewrite Hfold, append_assoc. reflexivity.
  - intros s H. rewrite Harg. apply Replace_absent. exact H.
  - intro s. rewrite Harg. unfold Replace.
    pose proof (replace_from_length Remote.escaped dquote ltac:(cbn; lia) s 0). lia.
  - reflexivity.
Qed.

End CommandFacts.


(** * Properties of the remote file operations *)

Module RemoteFacts.

Import Strings StringsFacts Remote.

Section Host.

Variable World : Type.
Variable exec : string -> World -> (string * option error) * World.

Abbreviation Host := (Remote.Host World).

Lemma balanced_refl (h : Host) : balanced h h.
Proof. unfold balanced. lia. Qed.

Lemma balanced_trans (h1 h2 h3 : Host) :
  balanced h1 h2 -> balanced h2 h3 -> balanced h1 h3.
Proof. unfold balanced. lia. Qed.

(** Opening a session, running a command and closing the session. *)
Lemma NewSession_cases (h : Host) :
  (exists e, fst (NewSession h) = Some e /\ balanced h (snd (NewSession h)) /\
             issued (snd (NewSession h)) = issued h /\
             world (snd (NewSession h)) = world h) \/
  (fst (NewSession h) = None /\
   n_opened (snd (NewSession h)) = S (n_opened h) /\
   n_closed (snd (NewSession h)) = n_closed h /\
   issued (snd (NewSession h)) = issued h /\
   world (snd (NewSession h)) = world h).
Proof.
  unfold NewSession, balanced. destruct (dial h) as [|[e|] rest]; cbn.
  - right. auto.
  - left. exists e. repeat split; lia.
  - right. auto.
Qed.

Lemma Output_frame (cmd : string) (h : Host) :
  n_opened (snd (Output World exec cmd h)) = n_opened h /\
  n_closed (snd (Output World exec cmd h)) = n_closed h /\
  issued (snd (Output World exec cmd h)) = issued h ++ [cmd] /\
  fst (Output World exec cmd h) = fst (exec cmd (world h)).
Proof. unfold Output. destruct (exec cmd (world h)) as [r w]. cbn. auto. Qed.

(** One session around one command: what every function here does once
    its session is open. *)
Lemma one_command (cmd : string) (h h1 : Host) :
  n_opened h1 = S (n_opened h) -> n_closed h1 = n_closed h -> issued h1 = issued h ->
  balanced h (Close (snd (Output World exec cmd h1))) /\
  issued (Close (snd (Output World exec cmd h1))) = issued h ++ [cmd].
Proof.
  intros Ho Hc Hi. destruct (Output_frame cmd h1) as (H1 & H2 & H3 & _).
  unfold balanced, Close. cbn. rewrite H1, H2, H3, Ho, Hc, Hi. split; [lia|reflexivity].
Qed.

(** [StatRemoteFile], case by case. *)
Lemma StatRemoteFile_cases (path : string) (h : Host) :
  let r := StatRemoteFile World exec path h in
  balanced h (snd r) /\
  ((exists e, fst (NewSession h) = Some e /\ fst r = (None, Some (Transport e)) /\
              issued (snd r) = issued h) \/
   (fst (NewSession h) = None /\
    issued (snd r) = issued h ++ ["stat " ++ path]%string /\
    ((exists out e, fst (exec ("stat " ++ path)%string (world h)) = (out, Some e) /\
                    fst r = (None, Some (Transport e))) \/
     (exists out, fst (exec ("stat " ++ path)%string (world h)) = (out, None) /\
                  Contains out missing = true /\ fst r = (None, Some FileNotFound)) \/
     (exists out, fst (exec ("stat " ++ path)%string (world h)) = (out, None) /\
                  Contains out missing = false /\ fst r = (Some out, None))))).
Proof.
  unfold StatRemoteFile.
  destruct (NewSession_cases h) as [(e & He & Hb & Hi & Hw)|(He & Ho & Hc & Hi & Hw)];
    destruct (NewSession h) as [err h1]; cbn [fst snd] in *; subst err.
  - cbn [fst snd]. split; [exact Hb|]. left. exists e. auto.
  - destruct (one_command ("stat " ++ path)%string h h1 Ho Hc Hi) as [Hbal Hiss].
    destruct (Output_frame ("stat " ++ path)%string h1) as (_ & _ & _ & Hout).
    rewrite Hw in Hout.
    destruct (Output World exec ("stat " ++ path)%string h1) as [[statResp err] h2].
    cbn [fst snd] in *.
    destruct err as [e|]; [|destruct (Contains statResp missing) eqn:Em];
      cbn [fst snd]; (split; [exact Hbal|]); right;
      (split; [reflexivity|]); (split; [exact Hiss|]).
    + left. exists statResp, e. auto.
    + right. left. exists statResp. auto.
    + right. right. exists statResp. auto.
Qed.

(** What [StatRemoteFile] returns, by what the session and the run did. *)
Lemma StatRemoteFile_outcome (path : string) (h : Host) :
  let r := StatRemoteFile World exec path h in
  (forall out, fst r = (Some out, None) <-> stat_ok World exec path h out) /\
  (snd (fst r) = Some FileNotFound <->
   fst (NewSession h) = None /\
   exists out a b, fst (exec ("stat " ++ path)%string (world h)) = (out, None) /\
                   out = (a ++ missing ++ b)%string) /\
  (forall out e, fst (NewSession h) = None ->
     fst (exec ("stat " ++ path)%string (world h)) = (out, Some e) ->
     fst r = (None, Some (Transport e))) /\
  (forall e, fst (NewSession h) = Some e ->
     fst r = (None, Some (Transport e)) /\ issued (snd r) = issued h).
Proof.
  intro r. destruct (StatRemoteFile_cases path h) as [_ Hc]. fold r in Hc.
  destruct Hc as [(e & He & Hr & Hi)|(He & Hi & [(out & e & Hx & Hr)|[(out & Hx & Hm & Hr)|(out & Hx & Hm & Hr)]])].
  - split; [|split; [|split]].
    + intro out. rewrite Hr. split; [discriminate|]. intros [F _]. congruence.
    + rewrite Hr. cbn [snd]. split; [discriminate|]. intros [F _]. congruence.
    + intros out e' F. congruence.
    + intros e' He'. split; congruence.
  - split; [|split; [|split]].
    + intro o. rewrite Hr. split; [discriminate|]. intros (_ & F & _). congruence.
    + rewrite Hr. cbn [snd]. split; [discriminate|]. intros (_ & o & a & b & F & _). congruence.
    + intros o e' _ F. congruence.
    + intros e' F. congruence.
  - split; [|split; [|split]].
    + intro o. rewrite Hr. split; [discriminate|]. intros (_ & F & Hn).
      rewrite Hx in F. injection F as <-. congruence.
    + rewrite Hr. cbn [snd]. split; [|reflexivity]. intros _. split; [exact He|].
      apply Contains_iff in Hm. destruct Hm as (a & b & Hab). exists out, a, b. auto.
    + intros o e' _ F. congruence.
    + intros e' F. congruence.
  - split; [|split; [|split]].
    + intro o. rewrite Hr. split.
      * intro E. injection E as <-. repeat split; assumption.
      * intros (_ & F & _). rewrite Hx in F. injection F as <-. reflexivity.
    + rewrite Hr. cbn [snd]. split; [discriminate|]. intros (_ & o & a & b & F & Hab).
      rewrite Hx in F. injection F as <-.
      assert (Contains out missing = true) by (apply Contains_iff; exists a, b; exact Hab).
      congruence.
    + intros o e' _ F. congruence.
    + intros e' F. congruence.
Qed.

(** [DoesRemoteFileExist] says what [StatRemoteFile] found. *)
Lemma DoesRemoteFileExist_cases (path : string) (h : Host) :
  snd (DoesRemoteFileExist World exec path h) = snd (StatRemoteFile World exec path h) /\
  (fst (DoesRemoteFileExist World exec path h) = true <->
   exists out, fst (StatRemoteFile World exec path h) = (Some out, None)).
Proof.
  unfold DoesRemoteFileExist.
  pose proof (StatRemoteFile_cases path h) as [_ Hc]. cbv zeta in Hc.
  destruct (StatRemoteFile World exec path h) as [[data err] h1]. cbn [fst snd] in *.
  destruct err as [e|]; cbn [fst snd]; (split; [reflexivity|]).
  - split; [discriminate|]. intros [out F]. discriminate.
  - split; [|reflexivity]. intros _.
    destruct Hc as [(e & _ & F & _)|(_ & _ & [(o & e & _ & F)|[(o & _ & _ & F)|(o & _ & _ & F)]])];
      try discriminate F.
    exists o. exact F.
Qed.

(** The commands and the result of a removal. *)
Lemma remove_with_cases (command name : string) (h : Host) :
  let r := remove_with World exec command name h in
  let stat := ("stat " ++ name)%string in
  balanced h (snd r) /\
  ((forall out, ~ stat_ok World exec name h out) ->
   fst r = Some FileNotFound /\
   (issued (snd r) = issued h \/ issued (snd r) = issued h ++ [stat])) /\
  (forall out, stat_ok World exec name h out ->
   (issued (snd r) = issued h ++ [stat] /\ exists e, fst r = Some (Transport e)) \/
   (issued (snd r) = issued h ++ [stat; (command ++ name)%string])) /\
  (fst r = None ->
   (exists out, stat_ok World exec name h out) /\
   issued (snd r) = issued h ++ [stat; (command ++ name)%string] /\
   fst (exec (command ++ name)%string (world (snd (StatRemoteFile World exec name h))))
   = ("", None)).
Proof.
  intros r stat. unfold remove_with in r.
  destruct (DoesRemoteFileExist_cases name h) as [Hsnd Hex].
  destruct (StatRemoteFile_outcome name h) as (Hok & _ & _ & _). cbv zeta in Hok.
  destruct (StatRemoteFile_cases name h) as [Hbal Hc]. cbv zeta in Hc.
  destruct (DoesRemoteFileExist World exec name h) as [b h1]. cbn [fst snd] in *.
  subst h1. set (h1 := snd (StatRemoteFile World exec name h)) in *.
  destruct b.
  - (* the stat succeeded *)
    destruct (proj1 Hex eq_refl) as [out Hout].
    pose proof (proj1 (Hok out) Hout) as Hstat.
    assert (Hiss : issued h1 = issued h ++ [stat]).
    { destruct Hc as [(e & _ & F & _)|(_ & Hi & _)]; [congruence|exact Hi]. }
    destruct (NewSession_cases h1) as [(e & He & Hb & Hi & Hw)|(He & Ho & Hcl & Hi & Hw)];
      destruct (NewSession h1) as [err h2]; cbn [fst snd] in *; subst err.
    + subst r. cbn [fst snd]. split; [eapply balanced_trans; eassumption|].
      split; [intro F; exfalso; exact (F out Hstat)|].
      split; [|discriminate].
      intros o _. left. split; [congruence|]. exists e. reflexivity.
    + destruct (one_command (command ++ name)%string h1 h2 Ho Hcl Hi) as [Hb2 Hi2].
      destruct (Output_frame (command ++ name)%string h2) as (_ & _ & _ & Hout2).
      destruct (Output World exec (command ++ name)%string h2) as [[resp err] h3].
      cbn [fst snd] in *.
      assert (Hissued : issued (Close h3) = issued h ++ [stat; (command ++ name)%string]).
      { rewrite Hi2, Hiss, <- app_assoc. reflexivity. }
      destruct err as [e|]; subst r; cbn [fst snd].
      * split; [eapply balanced_trans; eassumption|].
        split; [intro F; exfalso; exact (F out Hstat)|].
        split; [intros o _; right; exact Hissued|discriminate].
      * split; [eapply balanced_trans; eassumption|].
        split; [intro F; exfalso; exact (F out Hstat)|].
        split; [intros o _; right; exact Hissued|].
        unfold silent. destruct (String.eqb_spec resp "") as [->|Hne]; [|discriminate].
        intros _. split; [exists out; exact Hstat|]. split; [exact Hissued|].
        rewrite <- Hw. exact (eq_sym Hout2).
  - (* the stat did not succeed *)
    subst r. cbn [fst snd]. split; [exact Hbal|].
    assert (Hno : forall out, ~ stat_ok World exec name h out).
    { intros out Hs. apply Hok in Hs.
      assert (false = true) by (apply Hex; exists out; exact Hs). discriminate. }
    split.
    + intros _. split; [reflexivity|].
      destruct Hc as [(e & _ & _ & Hi)|(_ & Hi & _)]; [left|right]; exact Hi.
    + split; [|discriminate]. intros out Hs. exfalso. exact (Hno out Hs).
Qed.

(** The outcomes of [MakeRemoteDir]. *)
Lemma MakeRemoteDir_cases (dirname : string) (h : Host) :
  let stat := ("stat " ++ dirname)%string in
  let mkdir := ("mkdir " ++ dirname)%string in
  (forall out, stat_ok World exec dirname h out ->
   exists h', MakeRemoteDir World exec dirname h = Server.Done (Some FileExists, h') /\
              issued h' = issued h ++ [stat]) /\
  (forall e1 e2 rest, dial h = Some e1 :: Some e2 :: rest ->
   MakeRemoteDir World exec dirname h = Server.Panic) /\
  (forall e1 rest, dial h = Some e1 :: None :: rest \/ dial h = [Some e1] ->
   exists r h', MakeRemoteDir World exec dirname h = Server.Done (r, h') /\
                issued h' = issued h ++ [mkdir]) /\
  (forall r h', MakeRemoteDir World exec dirname h = Server.Done (r, h') ->
   balanced h h' /\
   (r = Some FileExists <-> exists out, stat_ok World exec dirname h out) /\
   (r = None ->
    (exists cmds, issued h' = issued h ++ cmds ++ [mkdir]) /\
    fst (exec mkdir (world (snd (StatRemoteFile World exec dirname h)))) = ("", None))).
Proof.
  intros stat mkdir. unfold MakeRemoteDir.
  destruct (StatRemoteFile_outcome dirname h) as (Hok & _ & _ & Hfail). cbv zeta in Hok, Hfail.
  destruct (StatRemoteFile_cases dirname h) as [Hbal Hc]. cbv zeta in Hc.
  split; [|split; [|split]].
  - intros out Hs. apply Hok in Hs.
    destruct (StatRemoteFile World exec dirname h) as [[data err] h1]. cbn [fst snd] in *.
    injection Hs as -> ->. exists h1. split; [reflexivity|].
    destruct Hc as [(e & _ & F & _)|(_ & Hi & _)]; [discriminate F|exact Hi].
  - intros e1 e2 rest Hd.
    unfold StatRemoteFile, NewSession. rewrite Hd. cbn. reflexivity.
  - intros e1 rest Hd. unfold StatRemoteFile, NewSession.
    destruct Hd as [Hd|Hd]; rewrite Hd; cbn [fst snd dial tl].
    + unfold Output. cbn [world].
      destruct (exec ("mkdir " ++ dirname)%string (world h)) as [[resp [e|]] w];
        eexists; eexists; (split; [reflexivity|]); reflexivity.
    + unfold Output. cbn [world].
      destruct (exec ("mkdir " ++ dirname)%string (world h)) as [[resp [e|]] w];
        eexists; eexists; (split; [reflexivity|]); reflexivity.
  - intros r h'.
    destruct (StatRemoteFile World exec dirname h) as [[data err] h1]. cbn [fst snd] in *.
    destruct err as [e|].
    + assert (Hno : forall out, ~ stat_ok World exec dirname h out).
      { intros out Hs. apply Hok in Hs. discriminate Hs. }
      destruct (NewSession_cases h1) as [(e' & He & Hb & Hi & Hw)|(He & Ho & Hcl & Hi & Hw)];
        destruct (NewSession h1) as [err h2]; cbn [fst snd] in *; subst err; [discriminate|].
      destruct (one_command ("mkdir " ++ dirname)%string h1 h2 Ho Hcl Hi) as [Hb2 Hi2].
      destruct (Output_frame ("mkdir " ++ dirname)%string h2) as (_ & _ & _ & Hout).
      rewrite Hw in Hout.
      destruct (Output World exec ("mkdir " ++ dirname)%string h2) as [[resp err] h3].
      cbn [fst snd] in *.
      assert (Hcmds : exists cmds, issued (Close h3) = issued h ++ cmds ++ [mkdir]).
      { destruct Hc as [(e0 & _ & _ & Hi0)|(_ & Hi0 & _)].
        - exists []. rewrite Hi2, Hi0. reflexivity.
        - exists [stat]. rewrite Hi2, Hi0, <- app_assoc. reflexivity. }
      destruct err as [e0|]; intro E; injection E as <- <-.
      * split; [eapply balanced_trans; eassumption|]. split; [|discriminate].
        split; [discriminate|]. intros [out Hs]. exfalso. exact (Hno out Hs).
      * split; [eapply balanced_trans; eassumption|]. split.
        -- split.
           ++ unfold silent. destruct (String.eqb resp ""); discriminate.
           ++ intros [out Hs]. exfalso. exact (Hno out Hs).
        -- intro Hr. split; [exact Hcmds|].
           unfold silent in Hr.
           destruct (String.eqb_spec resp "") as [->|_]; [|discriminate Hr].
           symmetry. exact Hout.
    + intro E. injection E as <- <-. split; [exact Hbal|]. split; [|discriminate].
      split; [|reflexivity]. intros _.
      destruct Hc as [(e & _ & F & _)|(_ & _ & [(o & e & _ & F)|[(o & _ & _ & F)|(o & _ & _ & F)]])];
        try discriminate F.
      exists o. apply Hok. exact F.
Qed.

(** Sessions opened and closed, function by function. *)
Lemma all_balanced (path url : string) (args : list string) (h : Host) :
  balanced h (snd (StatRemoteFile World exec path h)) /\
  balanced h (snd (DoesRemoteFileExist World exec path h)) /\
  balanced h (snd (RemoveRemoteDir World exec path h)) /\
  balanced h (snd (RemoveRemoteFile World exec path h)) /\
  balanced h (snd (GetRemoteFile World exec path h)) /\
  balanced h (snd (CurlFromRemote World exec url args h)) /\
  (forall r h', MakeRemoteDir World exec path h = Server.Done (r, h') -> balanced h h').
Proof.
  destruct (StatRemoteFile_cases path h) as [Hstat _]. cbv zeta in Hstat.
  split; [exact Hstat|].
  split; [rewrite (proj1 (DoesRemoteFileExist_cases path h)); exact Hstat|].
  split; [apply (remove_with_cases "rmdir " path h)|].
  split; [apply (remove_with_cases "rm " path h)|].
  split; [|split].
  - unfold GetRemoteFile.
    destruct (StatRemoteFile World exec path h) as [[data err] h1]. cbn [fst snd] in *.
    destruct err as [e|]; [exact Hstat|].
    destruct (NewSession_cases h1) as [(e' & He & Hb & Hi & Hw)|(He & Ho & Hcl & Hi & Hw)];
      destruct (NewSession h1) as [err h2]; cbn [fst snd] in *; subst err.
    + cbn [snd]. eapply balanced_trans; eassumption.
    + destruct (one_command ("cat " ++ path)%string h1 h2 Ho Hcl Hi) as [Hb2 _].
      destruct (Output World exec ("cat " ++ path)%string h2) as [[out err] h3].
      cbn [fst snd] in *. eapply balanced_trans; eassumption.
  - unfold CurlFromRemote.
    destruct (NewSession_cases h) as [(e' & He & Hb & Hi & Hw)|(He & Ho & Hcl & Hi & Hw)];
      destruct (NewSession h) as [err h2]; cbn [fst snd] in *; subst err.
    + exact Hb.
    + destruct (one_command (curl_command url args) h h2 Ho Hcl Hi) as [Hb2 _].
      destruct (Output World exec (curl_command url args) h2) as [[out err] h3].
      cbn [fst snd] in *. exact Hb2.
  - intros r h' H. apply (MakeRemoteDir_cases path h) in H. apply H.
Qed.

End Host.

End RemoteFacts.


(** * What the remote file operations do *)

Module RemoteProperties.

Import Strings Remote RemoteFacts.

(** [StatRemoteFile] returns the output of [stat] exactly when a session
    could be opened, the run had no error and the output does not hold
    "No such file or directory". It returns FileNotFound exactly when a
    session could be opened, the run had no error and the output holds
    that text somewhere. A run that fails gives the error of the run,
    whatever it printed, and a session that cannot be opened gives that
    error with no command run. *)
Theorem StatRemoteFile_reports
  (World : Type) (exec : string -> World -> (string * option error) * World)
  (path : string) (h : Host World) :
  let r := StatRemoteFile World exec path h in
  (forall out, fst r = (Some out, None) <-> stat_ok World exec path h out) /\
  (snd (fst r) = Some FileNotFound <->
   fst (NewSession h) = None /\
   exists out a b, fst (exec ("stat " ++ path)%string (world h)) = (out, None) /\
                   out = (a ++ missing ++ b)%string) /\
  (forall out e, fst (NewSession h) = None ->
     fst (exec ("stat " ++ path)%string (world h)) = (out, Some e) ->
     fst r = (None, Some (Transport e))) /\
  (forall e, fst (NewSession h) = Some e ->
     fst r = (None, Some (Transport e)) /\ issued (snd r) = issued h).
Proof. exact (StatRemoteFile_outcome World exec path h). Qed.

(** [RemoveRemoteDir] and [RemoveRemoteFile] run their command only
    after a [stat] that succeeded: the commands of one call are none,
    the [stat] alone, or the [stat] and then the removal. Whenever the
    [stat] did not succeed, for whatever reason, the error is
    FileNotFound. The call returns nil only when the removal ran without
    an error and printed nothing. *)
Theorem removal_is_guarded
  (World : Type) (exec : string -> World -> (string * option error) * World)
  (remove : string -> Host World -> option rerror * Host World) (command name : string)
  (h : Host World) :
  (remove = RemoveRemoteDir World exec /\ command = "rmdir ") \/
  (remove = RemoveRemoteFile World exec /\ command = "rm ") ->
  let r := remove name h in
  let stat := ("stat " ++ name)%string in
  ((forall out, ~ stat_ok World exec name h out) ->
   fst r = Some FileNotFound /\
   (issued (snd r) = issued h \/ issued (snd r) = issued h ++ [stat])) /\
  (forall out, stat_ok World exec name h out ->
   (issued (snd r) = issued h ++ [stat] /\ exists e, fst r = Some (Transport e)) \/
   (issued (snd r) = issued h ++ [stat; (command ++ name)%string])) /\
  (fst r = None ->
   (exists out, stat_ok World exec name h out) /\
   issued (snd r) = issued h ++ [stat; (command ++ name)%string] /\
   fst (exec (command ++ name)%string (world (snd (StatRemoteFile World exec name h))))
   = ("", None)).
Proof.
  intros [[-> ->]|[-> ->]].
  - exact (proj2 (remove_with_cases World exec "rmdir " name h)).
  - exact (proj2 (remove_with_cases World exec "rm " name h)).
Qed.

(** Removing a file that is not there: one [stat], no [rm], FileNotFound;
    removing one that is there: [stat], then [rm], nil. *)
Lemma removal_is_guarded_witness :
  (fst (RemoveRemoteFile _ RemoteExample.exec "/srv/a" (RemoteExample.host [] []))
   = Some FileNotFound /\
   issued (snd (RemoveRemoteFile _ RemoteExample.exec "/srv/a" (RemoteExample.host [] [])))
   = ["stat /srv/a"]) /\
  issued (snd (RemoveRemoteFile _ RemoteExample.exec "/srv/a"
                 (RemoteExample.host ["/srv/a"] [])))
  = ["stat /srv/a"; "rm /srv/a"].
Proof.
  split.
  - pose proof (removal_is_guarded _ RemoteExample.exec
                  (RemoveRemoteFile _ RemoteExample.exec) "rm " "/srv/a"
                  (RemoteExample.host [] []) (or_intror (conj eq_refl eq_refl))) as H.
    destruct H as (H & _). split; [apply H|reflexivity].
    intros out (_ & F & _). vm_compute in F. discriminate F.
  - pose proof (removal_is_guarded _ RemoteExample.exec
                  (RemoveRemoteFile _ RemoteExample.exec) "rm " "/srv/a"
                  (RemoteExample.host ["/srv/a"] []) (or_intror (conj eq_refl eq_refl))) as H.
    destruct H as (_ & _ & H). apply H. vm_compute. reflexivity.
Defined.

(** [MakeRemoteDir]: when the [stat] succeeds the result is FileExists
    and [mkdir] is not run. When it does not, for whatever reason, a
    second session is opened without looking at the error: if that
    fails too the function panics on the nil session (so it does when
    the connection is down for both calls), and if only the first call
    failed [mkdir] is run although no [stat] was. A nil result means
    that [mkdir] ran, as the last command, in the world the [stat] left,
    without an error and printing nothing. *)
Theorem MakeRemoteDir_outcomes
  (World : Type) (exec : string -> World -> (string * option error) * World)
  (dirname : string) (h : Host World) :
  let stat := ("stat " ++ dirname)%string in
  let mkdir := ("mkdir " ++ dirname)%string in
  (forall out, stat_ok World exec dirname h out ->
   exists h', MakeRemoteDir World exec dirname h = Server.Done (Some FileExists, h') /\
              issued h' = issued h ++ [stat]) /\
  (forall e1 e2 rest, dial h = Some e1 :: Some e2 :: rest ->
   MakeRemoteDir World exec dirname h = Server.Panic) /\
  (forall e1 rest, dial h = Some e1 :: None :: rest \/ dial h = [Some e1] ->
   exists r h', MakeRemoteDir World exec dirname h = Server.Done (r, h') /\
                issued h' = issued h ++ [mkdir]) /\
  (forall r h', MakeRemoteDir World exec dirname h = Server.Done (r, h') ->
   (r = Some FileExists <-> exists out, stat_ok World exec dirname h out) /\
   (r = None ->
    (exists cmds, issued h' = issued h ++ cmds ++ [mkdir]) /\
    fst (exec mkdir (world (snd (StatRemoteFile World exec dirname h)))) = ("", None))).
Proof.
  intros stat mkdir.
  destruct (MakeRemoteDir_cases World exec dirname h) as (H1 & H2 & H3 & H4).
  split; [exact H1|]. split; [exact H2|]. split; [exact H3|].
  intros r h' E. apply H4 in E. split; apply E.
Qed.

(** With the connection down for two calls in a row the function
    panics. *)
Lemma MakeRemoteDir_outcomes_witness :
  MakeRemoteDir _ RemoteExample.exec "/srv/new"
    (RemoteExample.host [] [Some EOF; Some EOF])
  = Server.Panic.
Proof.
  apply (MakeRemoteDir_outcomes _ RemoteExample.exec "/srv/new"
           (RemoteExample.host [] [Some EOF; Some EOF])) with (e1 := EOF) (e2 := EOF) (rest := []).
  reflexivity.
Defined.

(** No function here leaves a session open: on every return, as many
    sessions were closed as were opened. *)
Theorem sessions_are_closed
  (World : Type) (exec : string -> World -> (string * option error) * World)
  (path url : string) (args : list string) (h : Host World) :
  balanced h (snd (StatRemoteFile World exec path h)) /\
  balanced h (snd (DoesRemoteFileExist World exec path h)) /\
  balanced h (snd (RemoveRemoteDir World exec path h)) /\
  balanced h (snd (RemoveRemoteFile World exec path h)) /\
  balanced h (snd (GetRemoteFile World exec path h)) /\
  balanced h (snd (CurlFromRemote World exec url args h)) /\
  (forall r h', MakeRemoteDir World exec path h = Server.Done (r, h') -> balanced h h').
Proof. exact (all_balanced World exec path url args h). Qed.

End RemoteProperties.


(** * Properties of the request loop *)

Module RequestLoop.

Import Server RequestFacts RequestClaims Observed.

Local Open Scope Z_scope.

(** One request: at most one reply, and it is [true]; the geometry stays
    or becomes one that [SetWinsize] made. *)
Lemma serve_request_step (req : Request) (sh sh' : Shell) :
  serve_request req sh = Done sh' ->
  (replies sh' = replies sh \/ replies sh' = replies sh ++ [true]) /\
  (pty_winsize sh' = pty_winsize sh \/ narrow (pty_winsize sh')).
Proof.
  assert (Hn : forall w h s, narrow (pty_winsize (SetWinsize w h s))).
  { intros w h s. rewrite SetWinsize_mod. cbn. unfold narrow. cbn.
    pose proof (Z.mod_pos_bound w 65536). pose proof (Z.mod_pos_bound h 65536). lia. }
  unfold serve_request.
  destruct (String.eqb (Type_ req) "shell").
  - destruct (Nat.eqb (List.length (Payload req)) 0); intro E; injection E as <-; cbn; auto.
  - destruct (String.eqb (Type_ req) "pty-req").
    + destruct (index (Payload req) 3) as [t|]; [|discriminate]. cbn [and_then].
      destruct (slice_from (Payload req) _) as [b|]; [|discriminate]. cbn [and_then].
      destruct (parseDims b) as [[w h]|]; [|discriminate]. cbn [and_then].
      intro E; injection E as <-. split; [right; reflexivity|right; apply (Hn w h sh)].
    + destruct (String.eqb (Type_ req) "window-change").
      * destruct (parseDims (Payload req)) as [[w h]|]; [|discriminate]. cbn [and_then].
        intro E; injection E as <-. split; [left; reflexivity|right; apply Hn].
      * intro E; injection E as <-. auto.
Qed.

(** Whatever the requests are, a request loop that does not panic never
    answers [false]: the replies sent are [true], at most one per
    request, added after those sent before; and the geometry of the pty
    is the one it had or one whose width and height fit 16 bits. *)
Theorem request_loop_replies_true (reqs : list Request) (sh sh' : Shell) :
  serve_requests reqs sh = Done sh' ->
  (exists n : nat, (n <= List.length reqs)%nat /\
                   replies sh' = replies sh ++ repeat true n) /\
  (pty_winsize sh' = pty_winsize sh \/ narrow (pty_winsize sh')).
Proof.
  revert sh. induction reqs as [|req reqs IH]; intros sh H; cbn in H.
  - injection H as <-. split; [exists 0%nat; cbn; rewrite app_nil_r; auto|auto].
  - destruct (serve_request req sh) as [sh1|] eqn:E; [|discriminate]. cbn [and_then] in H.
    apply serve_request_step in E. destruct E as [Hr Hw].
    destruct (IH sh1 H) as [(n & Hn & Hrep) Hgeo]. split.
    + destruct Hr as [Hr|Hr]; rewrite Hr in Hrep.
      * exists n. split; [cbn; lia|exact Hrep].
      * exists (S n). split; [cbn; lia|]. rewrite Hrep, <- app_assoc. reflexivity.
    + destruct Hgeo as [Hgeo|Hgeo]; [|right; exact Hgeo].
      rewrite Hgeo. exact Hw.
Qed.

Lemma request_loop_replies_true_witness :
  replies (mkShell (mkWinsize 24 80 0 0) [true; true])
  = [] ++ repeat true 2.
Proof.
  destruct (request_loop_replies_true
              [mkRequest "pty-req" (Examples.pty_req x05 5);
               mkRequest "env" [x00];
               mkRequest "shell" []]
              Examples.fresh (mkShell (mkWinsize 24 80 0 0) [true; true]) eq_refl)
    as [_ _].
  reflexivity.
Defined.

(** The requests of a list are served one after the other. *)
Lemma serve_requests_app (a b : list Request) (sh : Shell) :
  serve_requests (a ++ b) sh = and_then (serve_requests a sh) (serve_requests b).
Proof.
  revert sh. induction a as [|req a IH]; intro sh; cbn; [reflexivity|].
  destruct (serve_request req sh) as [sh1|]; cbn; [apply IH|reflexivity].
Qed.

(** What the loop passes over, and how requests follow one another: a
    request of a type other than shell, pty-req and window-change, and a
    shell request that carries a payload, change nothing and get no
    reply at all; a panic ends the loop, whatever follows; and after a
    window-change request of at least 8 bytes at the end of the list the
    geometry is that request's, whatever came before. *)
Theorem request_loop_composes
  (a b : list Request) (t : string) (payload : list byte)
  (w0 w1 w2 w3 h0 h1 h2 h3 : byte) (rest : list byte) (sh sh1 : Shell) :
  serve_requests (a ++ b) sh = and_then (serve_requests a sh) (serve_requests b) /\
  (t <> "shell"%string -> t <> "pty-req"%string -> t <> "window-change"%string ->
   serve_request (mkRequest t payload) sh = Done sh) /\
  (payload <> [] -> serve_request (mkRequest "shell" payload) sh = Done sh) /\
  (serve_requests a sh = Panic -> serve_requests (a ++ b) sh = Panic) /\
  (serve_requests a sh = Done sh1 ->
   serve_requests
     (a ++ [mkRequest "window-change" (w0 :: w1 :: w2 :: w3 :: h0 :: h1 :: h2 :: h3 :: rest)]) sh
   = Done (mkShell (mkWinsize (big_endian [h0; h1; h2; h3] mod 65536)
                              (big_endian [w0; w1; w2; w3] mod 65536) 0 0)
                   (replies sh1))).
Proof.
  split; [apply serve_requests_app|]. split; [|split; [|split]].
  - intros H1 H2 H3. unfold serve_request. cbn [Type_].
    apply String.eqb_neq in H1, H2, H3. rewrite H1, H2, H3. reflexivity.
  - intro H. unfold serve_request. cbn [Type_ Payload].
    change (String.eqb "shell" "shell") with true. cbv iota.
    destruct payload; [contradiction H; reflexivity|reflexivity].
  - intro H. rewrite serve_requests_app, H. reflexivity.
  - intro H. rewrite serve_requests_app, H. cbn [and_then serve_requests].
    rewrite window_change_branch, parseDims_big_endian. cbn [and_then].
    rewrite SetWinsize_mod. reflexivity.
Qed.

Lemma request_loop_composes_witness :
  serve_requests
    [mkRequest "window-change" [x00; x00; x00; x50; x00; x00; x00; x18];
     mkRequest "window-change" Examples.resize_120_40] Examples.fresh
  = Done (mkShell (mkWinsize 40 120 0 0) []).
Proof.
  apply (request_loop_composes
           [mkRequest "window-change" [x00; x00; x00; x50; x00; x00; x00; x18]] []
           "" [] x00 x00 x00 x78 x00 x00 x00 x28 [] Examples.fresh
           (mkShell (mkWinsize 24 80 0 0) [])).
  reflexivity.
Defined.

End RequestLoop.

(** * Properties of the relay pair *)

Module RelayProperties.

Import Server Relay RelayFacts Observed.

(** Under every schedule the two relay goroutines are never inside the
    teardown together: at most one of them holds the mutex of the Once,
    and the mutex is held exactly when one of them does. The pair stands
    still in two cases only: both goroutines are back from [once.Do], or
    the shell has not exited and one goroutine is inside Wait, holding
    the mutex, while the other waits for the mutex. A goroutine that
    waits for the mutex waits for one that holds it, and that one can
    move once the shell has exited; the exit of the shell lets a
    goroutine inside Wait go on. *)
Theorem relay_excludes_and_waits (wait : option error) (schedule : list event) :
  let s := run wait schedule init in
  (holds (pc_out s) && holds (pc_in s) = false) /\
  locked s = (holds (pc_out s) || holds (pc_in s)) /\
  (in_teardown (pc_out s) && in_teardown (pc_in s) = false) /\
  (stuck wait s <->
   (pc_out s = Returned /\ pc_in s = Returned) \/
   (exited s = None /\
    exists g, pc_of g s = FWaiting /\ pc_of (other g) s = DoLock)) /\
  (forall g, pc_of g s = DoLock -> step wait (Moves g) s = s ->
     holds (pc_of (other g) s) = true /\
     (exited s <> None ->
      pc_of (other g) (step wait (Moves (other g)) s) <> pc_of (other g) s)) /\
  (forall g status, pc_of g s = FWaiting ->
     pc_of g (step wait (Moves g) (step wait (ShellExits status) s)) <> FWaiting).
Proof.
  intro s. pose proof (reachable_consistent wait schedule) as H. fold s in H.
  clearbody s. unfold stuck.
  enumerate s wait H; cbn [pc_out pc_in locked exited];
    (split; [reflexivity|]); (split; [reflexivity|]); (split; [reflexivity|]);
    (split; [|split]).
  all: try (split;
    [ intro Hst; pose proof (Hst PtyToChannel) as H1; pose proof (Hst ChannelToPty) as H2;
      cbn in H1, H2;
      first [ discriminate H1 | discriminate H2
            | left; split; reflexivity
            | right; split; [reflexivity|];
              first [ exists PtyToChannel; split; reflexivity
                    | exists ChannelToPty; split; reflexivity ] ]
    | intros [[E1 E2]|[E (g & E1 & E2)]];
      [ first [ discriminate E1 | discriminate E2 | intros [|]; reflexivity ]
      | first [ discriminate E
              | destruct g; cbn in E1, E2;
                first [ discriminate E1 | discriminate E2 | intros [|]; reflexivity ] ] ] ]).
  all: try (intros [|] Hp Hs; cbn in Hp, Hs |- *;
            first [ discriminate Hp | discriminate Hs
                  | split; [reflexivity|];
                    first [ intro F; contradiction F; reflexivity
                          | intros _; discriminate ] ]).
  all: intros [|] st Hp; cbn in Hp |- *; first [ discriminate Hp | discriminate ].
Qed.

End RelayProperties.

(** * Properties of the server's accept loop *)

Module ListenerFacts.

Import Listener.

(** Whether a request panics depends on its payload alone. *)
Lemma serve_request_Panic (req : Server.Request) (sh sh' : Server.Shell) :
  Server.serve_request req sh = Server.Panic ->
  Server.serve_request req sh' = Server.Panic.
Proof.
  unfold Server.serve_request.
  destruct (String.eqb (Server.Type_ req) "shell").
  - destruct (Nat.eqb (List.length (Server.Payload req)) 0); discriminate.
  - destruct (String.eqb (Server.Type_ req) "pty-req").
    + destruct (Server.index (Server.Payload req) 3) as [termLen|]; cbn; [|reflexivity].
      destruct (Server.slice_from _ _) as [b|]; cbn; [|reflexivity].
      destruct (Server.parseDims b) as [[w h]|]; cbn; [discriminate|reflexivity].
    + destruct (String.eqb (Server.Type_ req) "window-change"); [|discriminate].
      destruct (Server.parseDims (Server.Payload req)) as [[w h]|]; cbn;
        [discriminate|reflexivity].
Qed.

Lemma serve_requests_Panic (reqs : list Server.Request) :
  forall sh sh' : Server.Shell,
  Server.serve_requests reqs sh = Server.Panic ->
  Server.serve_requests reqs sh' = Server.Panic.
Proof.
  induction reqs as [|req reqs IH]; intros sh sh' H; cbn in H |- *; [discriminate H|].
  destruct (Server.serve_request req sh) as [sh1|] eqn:E; cbn in H.
  - destruct (Server.serve_request req sh') as [sh1'|]; cbn; [|reflexivity].
    apply (IH sh1 sh1'). exact H.
  - rewrite (serve_request_Panic req sh sh' E). reflexivity.
Qed.

Lemma requests_panic_iff (reqs : list Server.Request) (sh : Server.Shell) :
  requests_panic reqs = true <-> Server.serve_requests reqs sh = Server.Panic.
Proof.
  unfold requests_panic. split.
  - destruct (Server.serve_requests reqs _) eqn:E; [discriminate|].
    intros _. apply (serve_requests_Panic reqs _ sh E).
  - intro H. rewrite (serve_requests_Panic reqs sh _ H). reflexivity.
Qed.

(** What makes the handler of a channel panic. *)
Lemma handler_panics_iff (c : Server.NewChannel) :
  handler_panics (Server.handleChannel c) = true <->
  Server.ChannelType c = "session"%string /\ Server.accept_err c = None /\
  (Server.pty_err c <> None \/ requests_panic (Server.requests c) = true).
Proof.
  unfold Server.handleChannel.
  destruct (String.eqb_spec (Server.ChannelType c) "session") as [Ht|Ht]; cbn [negb].
  - destruct (Server.accept_err c) as [e|]; [|destruct (Server.pty_err c) as [e|]]; cbn.
    + split; [discriminate|]. intros (_ & F & _). discriminate F.
    + split; [|reflexivity]. intros _. repeat split; [exact Ht|]. left. discriminate.
    + rewrite orb_false_r. split.
      * intro H. repeat split; [exact Ht|]. right. exact H.
      * intros (_ & _ & [F|H]); [contradiction F; reflexivity|exact H].
  - cbn. split; [discriminate|]. intros (F & _). contradiction.
Qed.

(** Without a panicking handler the loop stays, and every connection
    that came through has its channels handled, in order. *)
Lemma serve_from_sound (events : list event) :
  forall conns : list (list Server.NewChannel),
  (forall chans, In chans (conns ++ connected events) ->
     existsb handler_panics (Server.handleChannels chans) = false) ->
  snd (serve_from conns events) = false /\
  handled (fst (serve_from conns events)) = map Server.handleChannels (connected events).
Proof.
  induction events as [|ev events IH]; intros conns Hok; [split; reflexivity|].
  destruct ev as [err|err|addr ver chans|k]; cbn [serve_from connected flat_map app].
  - destruct (IH conns Hok) as [IH1 IH2].
    destruct (serve_from conns events) as [acts c]. split; [exact IH1|exact IH2].
  - destruct (IH conns Hok) as [IH1 IH2].
    destruct (serve_from conns events) as [acts c]. split; [exact IH1|exact IH2].
  - destruct (IH (conns ++ [chans])) as [IH1 IH2].
    { intros chans' Hin. apply Hok. rewrite <- app_assoc in Hin. exact Hin. }
    destruct (serve_from (conns ++ [chans]) events) as [acts c].
    split; [exact IH1|]. cbn in IH2 |- *. rewrite IH2. reflexivity.
  - destruct (nth_error conns k) as [chans|] eqn:E; [|apply IH; exact Hok].
    rewrite (Hok chans).
    + apply IH. exact Hok.
    + apply in_or_app. left. apply (nth_error_In _ _ E).
Qed.

(** A panicking handler ends the process at the moment it runs. *)
Lemma serve_from_crash (k : nat) (chans : list Server.NewChannel) (later : list event) :
  existsb handler_panics (Server.handleChannels chans) = true ->
  forall (before : list event) (conns : list (list Server.NewChannel)),
  snd (serve_from conns before) = false ->
  nth_error (conns ++ connected before) k = Some chans ->
  serve_from conns (before ++ HandlersRun k :: later) = (fst (serve_from conns before), true).
Proof.
  intro Hp.
  induction before as [|ev before IH]; intros conns Hs Hk.
  - cbn [connected flat_map] in Hk. rewrite app_nil_r in Hk.
    cbn [app serve_from]. rewrite Hk, Hp. reflexivity.
  - destruct ev as [err|err|addr ver chans'|k'];
      cbn [app serve_from connected flat_map] in Hs, Hk |- *.
    + destruct (serve_from conns before) as [acts c] eqn:E. cbn [snd] in Hs. subst c.
      rewrite (IH conns); [rewrite E; reflexivity|rewrite E; reflexivity|exact Hk].
    + destruct (serve_from conns before) as [acts c] eqn:E. cbn [snd] in Hs. subst c.
      rewrite (IH conns); [rewrite E; reflexivity|rewrite E; reflexivity|exact Hk].
    + destruct (serve_from (conns ++ [chans']) before) as [acts c] eqn:E.
      cbn [snd] in Hs. subst c.
      rewrite (IH (conns ++ [chans']));
        [rewrite E; reflexivity|rewrite E; reflexivity|].
      rewrite <- app_assoc. exact Hk.
    + destruct (nth_error conns k') as [chans'|]; [|apply IH; assumption].
      destruct (existsb handler_panics (Server.handleChannels chans'));
        [discriminate Hs|apply IH; assumption].
Qed.

(** The server's accept loop outlives every failed accept and every
    failed handshake, and never returns once it listens: it stays in its
    loop or the process ends. As long as no handler panics every
    connection that came through has its channels handled, in order,
    whatever failed before it. A handler that panics ends the server for
    every connection, at the moment it runs: that is the handler of a
    session channel whose [pty.Start] failed or one of whose requests
    panics, such as a window-change request of fewer than 8 bytes. When
    the listener cannot be opened the error is logged, nothing is
    served, and [ServeSSH] still returns nil; [ServeSSH] returns an
    error only when the signer fails, and then it does not listen at
    all. *)
Theorem server_loop_outlives_failures (s : SshServer) :
  let address := (NetworkInterface s ++ ":" ++ Fmt.d (Port s))%string in
  let serve := DefaultSshHandler (NetworkInterface s) (Port s) None in
  (forall events, snd (serve events) = Running \/ snd (serve events) = Crashed) /\
  (forall events,
     (forall chans, In chans (connected events) ->
        existsb handler_panics (Server.handleChannels chans) = false) ->
     snd (serve events) = Running /\
     handled (fst (serve events)) = map Server.handleChannels (connected events)) /\
  (forall before later k chans,
     snd (serve before) = Running ->
     nth_error (connected before) k = Some chans ->
     existsb handler_panics (Server.handleChannels chans) = true ->
     serve (before ++ HandlersRun k :: later) = (fst (serve before), Crashed) /\
     snd (ServeSSH s None (before ++ HandlersRun k :: later))
     = match Signer s with Some err => Returned (Some err) | None => Crashed end) /\
  (forall c,
     handler_panics (Server.handleChannel c) = true <->
     Server.ChannelType c = "session"%string /\ Server.accept_err c = None /\
     (Server.pty_err c <> None \/
      forall sh, Server.serve_requests (Server.requests c) sh = Server.Panic)) /\
  (forall payload reqs sh,
     List.length payload < 8 ->
     Server.serve_requests (Server.mkRequest "window-change" payload :: reqs) sh
     = Server.Panic) /\
  (forall err events,
     DefaultSshHandler (NetworkInterface s) (Port s) (Some err) events
     = ([Listen address; LogError err], Returned tt) /\
     (Signer s = None ->
      ServeSSH s (Some err) events = (true, [Listen address; LogError err], Returned None))) /\
  (forall err listen_err events,
     (Signer s = Some err ->
      ServeSSH s listen_err events = (false, [], Returned (Some err))) /\
     (snd (ServeSSH s listen_err events) = Returned (Some err) -> Signer s = Some err)).
Proof.
  intros address serve.
  assert (Hserve : forall events,
            serve events
            = (Listen address :: fst (serve_from [] events),
               if snd (serve_from [] events) then Crashed else Running)).
  { intro events. unfold serve, DefaultSshHandler.
    destruct (serve_from [] events) as [acts c]. reflexivity. }
  split; [|split; [|split; [|split; [|split; [|split]]]]].
  - intro events. rewrite Hserve. cbn [snd].
    destruct (snd (serve_from [] events)); [right|left]; reflexivity.
  - intros events Hok. rewrite Hserve. cbn [fst snd].
    destruct (serve_from_sound events [] Hok) as [H1 H2].
    rewrite H1. split; [reflexivity|exact H2].
  - intros before later k chans Hs Hk Hp.
    assert (Hc : serve (before ++ HandlersRun k :: later) = (fst (serve before), Crashed)).
    { rewrite !Hserve in *. cbn [fst snd] in *.
      destruct (snd (serve_from [] before)) eqn:E; [discriminate Hs|].
      rewrite (serve_from_crash k chans later Hp before [] E Hk). reflexivity. }
    split; [exact Hc|].
    unfold ServeSSH. destruct (Signer s); [reflexivity|].
    fold serve. rewrite Hc. reflexivity.
  - intro c. rewrite handler_panics_iff. split.
    + intros (H1 & H2 & [H3|H3]); (split; [exact H1|]); (split; [exact H2|]).
      * left. exact H3.
      * right. intro sh. apply requests_panic_iff. exact H3.
    + intros (H1 & H2 & [H3|H3]); (split; [exact H1|]); (split; [exact H2|]).
      * left. exact H3.
      * right. apply (requests_panic_iff _ (Server.mkShell (Server.mkWinsize 0 0 0 0) [])).
        apply H3.
  - intros payload reqs sh Hlen. cbn [Server.serve_requests].
    unfold Server.serve_request. cbn [Server.Type_ Server.Payload].
    change (String.eqb "window-change" "shell") with false.
    change (String.eqb "window-change" "pty-req") with false.
    change (String.eqb "window-change" "window-change") with true.
    cbn iota. rewrite (proj2 (RequestFacts.parseDims_Panic payload) Hlen). reflexivity.
  - intros err events. split; [reflexivity|].
    intro Hs. unfold ServeSSH. rewrite Hs. reflexivity.
  - intros err listen_err events. split.
    + intro Hs. unfold ServeSSH. rewrite Hs. reflexivity.
    + unfold ServeSSH. destruct (Signer s) as [e|].
      * cbn. intro E. injection E as ->. reflexivity.
      * destruct (DefaultSshHandler _ _ listen_err events) as [acts [u| |]]; cbn; discriminate.
Qed.

(** One client sends a window-change request of four bytes: the server
    ends, and the connection that was to come is never served. *)
Lemma server_loop_outlives_failures_witness :
  DefaultSshHandler "0.0.0.0" 2222 None
    ([AcceptError EOF;
      Connected "10.0.0.9:50122" "SSH-2.0-Go"
        [Server.mkNewChannel "session" None None None
           [Server.mkRequest "window-change" [x00; x00; x00; x50]]]]
     ++ HandlersRun 0 :: [Connected "10.0.0.10:50123" "SSH-2.0-Go" []])
  = (fst (DefaultSshHandler "0.0.0.0" 2222 None
            [AcceptError EOF;
             Connected "10.0.0.9:50122" "SSH-2.0-Go"
               [Server.mkNewChannel "session" None None None
                  [Server.mkRequest "window-change" [x00; x00; x00; x50]]]]),
     Crashed).
Proof.
  apply (server_loop_outlives_failures (mkSshServer None 2222 "0.0.0.0"))
    with (chans := [Server.mkNewChannel "session" None None None
                      [Server.mkRequest "window-change" [x00; x00; x00; x50]]]).
  - reflexivity.
  - reflexivity.
  - reflexivity.
Defined.

End ListenerFacts.


(** * Properties of the base name *)

Module PathFacts.

Import Strings StringsFacts Path.

Lemma list_of_append (a b : string) :
  list_ascii_of_string (a ++ b) = list_ascii_of_string a ++ list_ascii_of_string b.
Proof. induction a as [|c a IH]; cbn; [reflexivity|]. rewrite IH. reflexivity. Qed.

Lemma free_of_Forall (c : ascii) (s : string) :
  free_of c s <-> Forall (fun d => d <> c) (list_ascii_of_string s).
Proof.
  induction s as [|d s IH]; cbn.
  - split; [constructor|exact (fun _ => I)].
  - split.
    + intros [Hd Hs]. constructor; [exact Hd|apply IH; exact Hs].
    + intro H. inversion H; subst. split; [assumption|apply IH; assumption].
Qed.

Lemma until_slash_free (l : list ascii) : Forall (fun d => d <> slash) (until_slash l).
Proof.
  induction l as [|c l IH]; cbn; [constructor|].
  destruct (Ascii.eqb_spec c slash); [constructor|]. constructor; assumption.
Qed.

Lemma until_slash_prefix (name rest : list ascii) :
  Forall (fun d => d <> slash) name ->
  until_slash (name ++ slash :: rest) = name /\ until_slash name = name.
Proof.
  induction name as [|c name IH]; intro H; cbn.
  - split; reflexivity.
  - inversion H; subst. destruct (Ascii.eqb_spec c slash); [contradiction|].
    destruct (IH ltac:(assumption)) as [-> ->]. split; reflexivity.
Qed.

Lemma strip_slashes_head (c : ascii) (l : list ascii) :
  c <> slash -> strip_slashes (c :: l) = c :: l.
Proof. intro H. cbn. destruct (Ascii.eqb_spec c slash); [contradiction|reflexivity]. Qed.

Lemma append_not_empty (a b : string) : (a ++ String "/" b)%string <> ""%string.
Proof. destruct a; discriminate. Qed.

(** The base of a path that ends in a name. *)
Lemma Base_of_name (name : string) :
  name <> ""%string -> free_of slash name ->
  Base name = name /\ forall dir, Base (dir ++ "/" ++ name) = name.
Proof.
  intros Hne Hfree. apply free_of_Forall in Hfree.
  assert (Hrev : Forall (fun d => d <> slash) (rev (list_ascii_of_string name)))
    by (apply Forall_rev; exact Hfree).
  destruct (rev (list_ascii_of_string name)) as [|c l] eqn:E.
  { apply (f_equal (@rev ascii)) in E. rewrite rev_involutive in E. cbn in E.
    destruct name; [contradiction Hne; reflexivity|discriminate E]. }
  assert (Hc : c <> slash) by (inversion Hrev; assumption).
  assert (Hback : string_of_list_ascii (rev (c :: l)) = name).
  { rewrite <- E, rev_involutive. apply string_of_list_ascii_of_string. }
  assert (Hnil : rev (c :: l) <> []).
  { intro F. apply (f_equal (@rev ascii)) in F. rewrite rev_involutive in F. discriminate F. }
  split.
  - unfold Base. destruct (String.eqb_spec name ""); [contradiction|].
    rewrite E, (strip_slashes_head c l Hc).
    rewrite (proj2 (until_slash_prefix (c :: l) [] Hrev)).
    destruct (rev (c :: l)) eqn:R; [contradiction Hnil; reflexivity|]. exact Hback.
  - intro dir. unfold Base.
    change (dir ++ "/" ++ name)%string with (dir ++ String "/" name)%string.
    destruct (String.eqb_spec (dir ++ String "/" name) "") as [F|_];
      [exfalso; exact (append_not_empty dir name F)|].
    rewrite list_of_append. cbn [list_ascii_of_string]. rewrite rev_app_distr.
    cbn [rev]. rewrite E. rewrite <- app_assoc. cbn [app].
    rewrite (strip_slashes_head c _ Hc).
    change (c :: l ++ "/"%char :: rev (list_ascii_of_string dir))
      with ((c :: l) ++ slash :: rev (list_ascii_of_string dir)).
    rewrite (proj1 (until_slash_prefix (c :: l) _ Hrev)).
    destruct (rev (c :: l)) eqn:R; [contradiction Hnil; reflexivity|]. exact Hback.
Qed.

(** The base of any path is a single slash or has no slash in it, and it
    is not empty. *)
Lemma Base_shape (path : string) :
  Base path <> ""%string /\ (Base path = "/"%string \/ free_of slash (Base path)).
Proof.
  unfold Base. destruct (String.eqb path ""); [split; [discriminate|right; cbn; split; [discriminate|exact I]]|].
  set (l := until_slash (strip_slashes (rev (list_ascii_of_string path)))).
  pose proof (until_slash_free (strip_slashes (rev (list_ascii_of_string path)))) as Hf.
  fold l in Hf. destruct (rev l) as [|c r] eqn:E; [split; [discriminate|left; reflexivity]|].
  split; [discriminate|]. right. apply free_of_Forall.
  rewrite list_ascii_of_string_of_list_ascii, <- E. apply Forall_rev. exact Hf.
Qed.

End PathFacts.

(** * What the base name is *)

Module PathProperties.

Import Strings Path PathFacts.

(** The name that [CopyFile] writes in the header line and that
    [GetRemoteFile] returns is the base of the path: never empty, and
    either a single slash (for a path of slashes only) or free of
    slashes. For a path that ends in a name without a slash it is that
    name, whatever the directory in front; a slash at the end of a path
    changes nothing; and the base of a base is that base. *)
Theorem Base_is_the_last_element (path dir name : string) :
  Base path <> ""%string /\
  (Base path = "/"%string \/ free_of slash (Base path)) /\
  (name <> ""%string -> free_of slash name ->
   Base name = name /\ Base (dir ++ "/" ++ name) = name) /\
  (path <> ""%string -> Base (path ++ "/") = Base path) /\
  Base (Base path) = Base path /\
  Base "" = "."%string.
Proof.
  destruct (Base_shape path) as [Hne Hshape].
  split; [exact Hne|]. split; [exact Hshape|]. split; [|split; [|split]].
  - intros Hn Hf. destruct (Base_of_name name Hn Hf) as [H1 H2]. split; [exact H1|apply H2].
  - intro Hp. unfold Base.
    destruct (String.eqb_spec path ""); [contradiction|].
    destruct (String.eqb_spec (path ++ "/") "") as [F|_].
    { destruct path; discriminate F. }
    rewrite list_of_append, rev_app_distr. reflexivity.
  - destruct Hshape as [->|Hf]; [reflexivity|].
    apply (Base_of_name (Base path) Hne Hf).
  - reflexivity.
Qed.

Lemma Base_is_the_last_element_witness :
  Base "notes.txt" = "notes.txt"%string /\ Base "/var/tmp/notes.txt" = "notes.txt"%string.
Proof.
  apply (proj1 (proj2 (proj2 (Base_is_the_last_element "" "/var/tmp" "notes.txt")))).
  - discriminate.
  - cbn. repeat split; discriminate.
Defined.

End PathProperties.


(** * Properties of the authorized keys *)

Module KeysFacts.

Import Keys.

Lemma bytes_Equal_iff (a b : list byte) : bytes_Equal a b = true <-> a = b.
Proof.
  revert b. induction a as [|x a IH]; intros [|y b]; cbn; split; intro H;
    try reflexivity; try discriminate.
  - apply andb_true_iff in H. destruct H as [Hx Hab].
    apply Byte.byte_dec_bl in Hx. apply IH in Hab. congruence.
  - injection H as -> ->. apply andb_true_iff. split; [apply Byte.byte_dec_lb; reflexivity|].
    apply IH. reflexivity.
Qed.

Lemma matches_iff (key : PublicKey) (parsedKeys : list PublicKey) :
  matches key parsedKeys = true <-> In key parsedKeys.
Proof.
  induction parsedKeys as [|k rest IH]; cbn.
  - split; [discriminate|contradiction].
  - destruct (bytes_Equal key k) eqn:E.
    + apply bytes_Equal_iff in E. subst k. split; auto.
    + rewrite IH. split; [auto|]. intros [F|H]; [|exact H].
      subst k. assert (bytes_Equal key key = true) by (apply bytes_Equal_iff; reflexivity).
      congruence.
Qed.

Section Parser.

Variable ParseAuthorizedKey : list byte -> Parsed + error.

(** With fuel beyond the length of the input the loop comes to its end,
    and more fuel changes nothing. *)
Lemma parse_loop_ends :
  shrinks ParseAuthorizedKey ->
  forall (fuel : nat) (keys : list byte) (acc : list PublicKey) (out : list printed),
  List.length keys < fuel ->
  exists r out',
    (forall more, fuel <= more ->
       parse_loop ParseAuthorizedKey more keys acc out = Some (r, out')) /\
    (forall ks, r = inl ks -> exists ks', ks = acc ++ ks' /\ ks' <> []).
Proof.
  intros Hs. induction fuel as [|fuel IH]; intros keys acc out Hlen; [lia|].
  destruct (ParseAuthorizedKey keys) as [p|e] eqn:E.
  - destruct (p_remaining p) as [remaining|] eqn:R.
    + pose proof (Hs keys p remaining E R) as Hlt.
      destruct (IH remaining (acc ++ [p_key p]) (out ++ prints p) ltac:(lia))
        as (r & out' & Hrun & Hks).
      exists r, out'. split.
      * intros more Hm. destruct more as [|more]; [lia|].
        cbn [parse_loop]. rewrite E, R. apply Hrun. lia.
      * intros ks Hr. destruct (Hks ks Hr) as (ks' & -> & _).
        exists (p_key p :: ks'). rewrite <- app_assoc. split; [reflexivity|discriminate].
    + exists (inl (acc ++ [p_key p])), (out ++ prints p). split.
      * intros more Hm. destruct more as [|more]; [lia|].
        cbn [parse_loop]. rewrite E, R. reflexivity.
      * intros ks Hr. injection Hr as <-. exists [p_key p]. split; [reflexivity|discriminate].
  - exists (inr e), out. split.
    + intros more Hm. destruct more as [|more]; [lia|].
      cbn [parse_loop]. rewrite E. reflexivity.
    + discriminate.
Qed.

(** After the turns that go well the loop stands at what they left, with
    their keys and what they printed. *)
Lemma parse_loop_turns (ps : list Parsed) :
  forall (keys rest : list byte) (acc : list PublicKey) (out : list printed) (fuel : nat),
  turns ParseAuthorizedKey keys ps rest ->
  parse_loop ParseAuthorizedKey (List.length ps + fuel) keys acc out
  = parse_loop ParseAuthorizedKey fuel rest (acc ++ map p_key ps) (out ++ flat_map prints ps).
Proof.
  induction ps as [|p ps IH]; intros keys rest acc out fuel H.
  - cbn in H. subst rest. cbn. rewrite !app_nil_r. reflexivity.
  - destruct H as (E & remaining & R & H).
    cbn [List.length Nat.add parse_loop]. rewrite E, R.
    rewrite (IH remaining rest _ _ fuel H).
    cbn [map flat_map]. rewrite <- !app_assoc. reflexivity.
Qed.

End Parser.

End KeysFacts.

(** * What the authorized keys functions do *)

Module KeysProperties.

Import Keys KeysFacts.

(** [parseAuthorizedKeys] gives all the keys or none. With a parser that
    hands back less than it was given the loop ends, with a list that
    holds at least one key or with an error. When the parser fails at
    any turn, after however many turns that went well, the keys read
    before are dropped and the error is the result; what those turns
    printed stays printed. When the last turn leaves nil the result is
    the keys of all the turns, in order. The loop stops only on a nil
    remainder: a remainder that is empty but not nil is parsed again, so
    when the parser fails on empty input (as after the line feed that
    ends the last line) the whole file fails. *)
Theorem parseAuthorizedKeys_all_or_none
  (ParseAuthorizedKey : list byte -> Parsed + error) (keys : list byte) :
  (shrinks ParseAuthorizedKey ->
   exists r out,
     (forall fuel, List.length keys < fuel ->
        parseAuthorizedKeys ParseAuthorizedKey fuel keys = Some (r, out)) /\
     (forall ks, r = inl ks -> ks <> [])) /\
  (forall ps rest e fuel,
     turns ParseAuthorizedKey keys ps rest ->
     ParseAuthorizedKey rest = inr e ->
     parseAuthorizedKeys ParseAuthorizedKey (List.length ps + S fuel) keys
     = Some (inr e, flat_map prints ps)) /\
  (forall ps rest p fuel,
     turns ParseAuthorizedKey keys ps rest ->
     ParseAuthorizedKey rest = inl p -> p_remaining p = None ->
     parseAuthorizedKeys ParseAuthorizedKey (List.length ps + S fuel) keys
     = Some (inl (map p_key ps ++ [p_key p]), flat_map prints ps ++ prints p)) /\
  (forall p e fuel,
     ParseAuthorizedKey keys = inl p -> p_remaining p = Some [] ->
     ParseAuthorizedKey [] = inr e ->
     parseAuthorizedKeys ParseAuthorizedKey (S (S fuel)) keys = Some (inr e, prints p)).
Proof.
  split; [|split; [|split]].
  - intro Hs.
    destruct (parse_loop_ends ParseAuthorizedKey Hs (S (List.length keys)) keys [] []
                ltac:(lia)) as (r & out & Hrun & Hks).
    exists r, out. split.
    + intros fuel Hf. apply Hrun. lia.
    + intros ks Hr. destruct (Hks ks Hr) as (ks' & -> & Hne). exact Hne.
  - intros ps rest e fuel Ht E. unfold parseAuthorizedKeys.
    rewrite (parse_loop_turns ParseAuthorizedKey ps keys rest [] [] (S fuel) Ht).
    cbn [parse_loop app]. rewrite E. reflexivity.
  - intros ps rest p fuel Ht E R. unfold parseAuthorizedKeys.
    rewrite (parse_loop_turns ParseAuthorizedKey ps keys rest [] [] (S fuel) Ht).
    cbn [parse_loop app]. rewrite E, R. reflexivity.
  - intros p e fuel E R E0. unfold parseAuthorizedKeys. cbn [parse_loop].
    rewrite E, R, E0. reflexivity.
Qed.

(** Two keys, each on a line that ends with a line feed: both parse,
    the empty remainder does not, and no key comes out. *)
Lemma parseAuthorizedKeys_all_or_none_witness :
  parseAuthorizedKeys KeysExample.parse_line 5 [x6b; x31; x0a; x6b; x32; x0a]
  = Some (inr KeysExample.no_key, []).
Proof.
  exact (proj1 (proj2 (parseAuthorizedKeys_all_or_none KeysExample.parse_line
                         [x6b; x31; x0a; x6b; x32; x0a]))
           [mkParsed [x6b; x31] "" None (Some [x6b; x32; x0a]);
            mkParsed [x6b; x32] "" None (Some [])]
           [] KeysExample.no_key 2
           (conj eq_refl
              (ex_intro _ [x6b; x32; x0a]
                 (conj eq_refl
                    (conj eq_refl (ex_intro _ [] (conj eq_refl eq_refl))))))
           eq_refl).
Defined.

(** [checkAuthorizedKeys] returns nil exactly when the user's key file
    could be found, read and parsed whole and the given key is, byte for
    byte, one of the keys parsed. The file is [authorized_keys] right
    under the user's directory ([/home/<user>] on linux, [/Users/<user>]
    on darwin); on another system the answer is always an error. *)
Theorem checkAuthorizedKeys_accepts
  (ParseAuthorizedKey : list byte -> Parsed + error)
  (os_Stat : string -> option error) (ReadFile : string -> list byte + error)
  (fuel : nat) (goos : GOOS) (user : string) (key : PublicKey) :
  (checkAuthorizedKeys ParseAuthorizedKey os_Stat ReadFile fuel goos user key = Some None <->
   exists keys parsedKeys out,
     getUserAuthorizedKeys os_Stat ReadFile goos user = inl keys /\
     parseAuthorizedKeys ParseAuthorizedKey fuel keys = Some (inl parsedKeys, out) /\
     In key parsedKeys) /\
  (forall keys,
     getUserAuthorizedKeys os_Stat ReadFile goos user = inl keys <->
     exists dir,
       (goos = linux /\ dir = ("/home/" ++ user)%string \/
        goos = darwin /\ dir = ("/Users/" ++ user)%string) /\
       os_Stat dir = None /\
       os_Stat (dir ++ "/authorized_keys")%string = None /\
       ReadFile (dir ++ "/authorized_keys")%string = inl keys) /\
  (forall name, goos = other name ->
     checkAuthorizedKeys ParseAuthorizedKey os_Stat ReadFile fuel goos user key
     = Some (Some (Errno "OS not supported (ssh, getAuthorizedKey)"))).
Proof.
  split; [|split].
  - unfold checkAuthorizedKeys.
    destruct (getUserAuthorizedKeys os_Stat ReadFile goos user) as [keys|e].
    + destruct (parseAuthorizedKeys ParseAuthorizedKey fuel keys) as [[[ks|e] out]|] eqn:EP.
      * destruct (matches key ks) eqn:M.
        -- split; [|reflexivity]. intros _. exists keys, ks, out.
           split; [reflexivity|]. split; [exact EP|]. apply matches_iff. exact M.
        -- split; [discriminate|]. intros (keys' & ks' & out' & E1 & E2 & Hin).
           injection E1 as <-. rewrite EP in E2. injection E2 as <- <-.
           apply matches_iff in Hin. congruence.
      * split; [discriminate|]. intros (keys' & ks' & out' & E1 & E2 & _).
        injection E1 as <-. rewrite EP in E2. discriminate E2.
      * split; [discriminate|]. intros (keys' & ks' & out' & E1 & E2 & _).
        injection E1 as <-. rewrite EP in E2. discriminate E2.
    + split; [discriminate|]. intros (keys' & ks' & out' & E1 & _). discriminate E1.
  - intro keys.
    assert (Hdir : forall dir : string,
              match os_Stat dir with
              | Some err => inr err
              | None => getAuthorizedKeys os_Stat ReadFile (dir ++ "/authorized_keys")%string
              end = inl keys <->
              os_Stat dir = None /\
              os_Stat (dir ++ "/authorized_keys")%string = None /\
              ReadFile (dir ++ "/authorized_keys")%string = inl keys).
    { intro dir. unfold getAuthorizedKeys.
      destruct (os_Stat dir); [split; [discriminate|intros [F _]; discriminate F]|].
      destruct (os_Stat (dir ++ "/authorized_keys")%string);
        [split; [discriminate|intros (_ & F & _); discriminate F]|].
      split; [auto|intros (_ & _ & H); exact H]. }
    unfold getUserAuthorizedKeys, getUserDir. destruct goos as [| |name].
    + rewrite Hdir. split.
      * intro H. exists ("/Users/" ++ user)%string. auto.
      * intros (dir & [[F _]|[_ ->]] & H); [discriminate F|exact H].
    + rewrite Hdir. split.
      * intro H. exists ("/home/" ++ user)%string. auto.
      * intros (dir & [[_ ->]|[F _]] & H); [exact H|discriminate F].
    + split; [discriminate|]. intros (dir & [[F _]|[F _]] & _); discriminate F.
  - intros name ->. reflexivity.
Qed.

End KeysProperties.


(** * What the copy framer writes when something fails *)

Module CopyOrder.

Import Observed ClientFacts.

Lemma begins_refl {A : Type} (a : list A) : begins a a.
Proof. exists []. symmetry. apply app_nil_r. Qed.

Lemma begins_nil {A : Type} (a : list A) : begins [] a.
Proof. exists a. reflexivity. Qed.

Lemma begins_firstn {A : Type} (n : nat) (a : list A) : begins (firstn n a) a.
Proof. exists (skipn n a). symmetry. apply firstn_skipn. Qed.

(** A write adds a beginning of its buffer to the stream, all of it when
    it reports no error, and touches nothing else. *)
Lemma Write_adds (p : list byte) (s : Session) :
  exists q,
    sent (snd (Write p s)) = sent s ++ q /\ begins q p /\
    fst (fst (Write p s)) = List.length q /\
    (snd (fst (Write p s)) = None -> q = p) /\
    started (snd (Write p s)) = started s /\
    stdin_closed (snd (Write p s)) = stdin_closed s /\
    closed (snd (Write p s)) = closed s.
Proof.
  unfold Write. destruct (stdin_closed s) eqn:Hc; cbn [fst snd].
  - exists []. rewrite app_nil_r. repeat split; auto using begins_nil. discriminate.
  - destruct (write_plan s) as [|[|k e] plan]; cbn [fst snd sent started stdin_closed closed].
    + exists p. repeat split; auto using begins_refl.
    + exists p. repeat split; auto using begins_refl.
    + exists (firstn k p). repeat split; auto using begins_firstn. discriminate.
Qed.

(** A copy adds a beginning of what the reader holds, as long as the
    number it returns, and all of it when it returns no error. *)
Lemma copy_loop_adds (cs : list (list byte)) (er : option error) :
  forall (w : nat) (s : Session),
  exists q,
    sent (snd (copy_loop cs er w s)) = sent s ++ q /\ begins q (List.concat cs) /\
    fst (fst (copy_loop cs er w s)) = w + List.length q /\
    (snd (fst (copy_loop cs er w s)) = None -> q = List.concat cs) /\
    started (snd (copy_loop cs er w s)) = started s /\
    stdin_closed (snd (copy_loop cs er w s)) = stdin_closed s /\
    closed (snd (copy_loop cs er w s)) = closed s.
Proof.
  induction cs as [|c cs IH]; intros w s.
  - exists []. cbn. rewrite app_nil_r. repeat split; auto using begins_nil.
  - destruct c as [|b c'].
    + cbn [copy_loop List.concat app]. apply IH.
    + cbn [copy_loop]. unfold bind.
      destruct (Write_adds (b :: c') s) as (q & Hs & Hq & Hn & Hall & Hst & Hcl & Hcd).
      destruct (Write (b :: c') s) as [[nw ew] s1]. cbn [fst snd] in *.
      destruct ew as [e|].
      * exists q. cbn [fst snd ret]. unfold ret. cbn [fst snd].
        destruct Hq as [tail Hq]. repeat split; auto; [|discriminate].
        exists (tail ++ List.concat cs). cbn [List.concat]. rewrite Hq, <- app_assoc. reflexivity.
      * specialize (Hall eq_refl). subst q. rewrite Hn, Nat.eqb_refl.
        destruct (IH (w + List.length (b :: c')) s1) as (q & Hs' & Hq' & Hn' & Hall' & Hst' & Hcl' & Hcd').
        exists ((b :: c') ++ q). cbn [List.concat]. rewrite length_app.
        repeat split; try congruence.
        -- rewrite Hs', Hs, <- app_assoc. reflexivity.
        -- destruct Hq' as [tail Hq']. exists tail. rewrite Hq', <- app_assoc. reflexivity.
        -- rewrite Hn'. lia.
        -- intro Hnone. rewrite (Hall' Hnone). reflexivity.
Qed.

(** Whatever fails and wherever, the bytes that [_copy] has put on the
    session's input stream are in order and none is repeated: a
    beginning of the header line, then (only after the whole header) a
    beginning of the payload, then (only after the header) at most the
    one NUL byte. The input stream is closed only after that NUL byte,
    and the session is closed on every return. *)
Theorem _copy_writes_in_order
  (size : Z) (mode : FileMode) (fileName destination : string)
  (contents : Reader) (conn : Client) (err : option error) (s : Session) :
  _copy size mode fileName destination contents conn = (err, Some s) ->
  exists a b c,
    sent s = a ++ b ++ c /\
    begins a (bytes (header mode size fileName)) /\
    begins b (List.concat (chunks contents)) /\
    begins c [x00] /\
    (b <> [] \/ c <> [] -> a = bytes (header mode size fileName)) /\
    (stdin_closed s = true -> c = [x00]) /\
    (copy_err s = None -> c = [x00] -> b = List.concat (chunks contents)) /\
    closed s = true.
Proof.
  unfold _copy, NewSession. destruct (new_session_err conn); [discriminate|].
  match goal with |- context [_copy_session ?a ?b ?c ?d ?e ?t] => set (s0 := t) end.
  unfold _copy_session, bind.
  generalize (bytes (header mode size fileName)) as hdr.
  generalize ("scp -t " ++ destination)%string as cmd. intros cmd hdr.
  unfold Start at 1. destruct (start_err s0) as [e|] eqn:Hst.
  { unfold ret. intro E. injection E as <- <-. exists [], [], [].
    cbn. repeat split; auto using begins_nil; try discriminate.
    intros [F|F]; contradiction F; reflexivity. }
  match goal with |- context [Write hdr ?t] => set (s1 := t) end.
  destruct (Write_adds hdr s1) as (a & Hs & Ha & _ & Hall & _ & Hcl1 & _).
  destruct (Write hdr s1) as [[n1 e1] s2]. cbn [fst snd] in *.
  destruct e1 as [e|].
  { unfold ret. intro E. injection E as <- <-. exists a, [], [].
    cbn [SessionClose sent stdin_closed closed copy_err]. rewrite Hs, Hcl1. cbn.
    rewrite !app_nil_r. repeat split; auto using begins_nil; try discriminate.
    intros [F|F]; contradiction F; reflexivity. }
  specialize (Hall eq_refl). subst a.
  unfold io_Copy.
  destruct (copy_loop_adds (chunks contents) (read_end contents) 0 s2)
    as (b & Hs2 & Hb & _ & Hball & _ & Hcl2 & _).
  destruct (copy_loop (chunks contents) (read_end contents) 0 s2) as [[nc ec] s3].
  cbn [fst snd] in *. unfold note_copy at 1.
  match goal with |- context [Write [x00] ?t] => set (s4 := t) end.
  destruct (Write_adds [x00] s4) as (c & Hs4 & Hc & _ & Hcall & _ & Hcl4 & _).
  assert (Hce : copy_err (snd (Write [x00] s4)) = ec).
  { unfold Write. destruct (stdin_closed s4); [reflexivity|].
    destruct (write_plan s4) as [|[|k e] plan]; reflexivity. }
  destruct (Write [x00] s4) as [[n4 e4] s5]. cbn [fst snd] in *.
  assert (Hsent : sent s5 = hdr ++ b ++ c).
  { rewrite Hs4. subst s4. cbn [sent]. rewrite Hs2, Hs. subst s1 s0. cbn [sent].
    rewrite <- app_assoc. reflexivity. }
  assert (Hopen : stdin_closed s5 = false).
  { rewrite Hcl4. subst s4. cbn [stdin_closed]. rewrite Hcl2, Hcl1. reflexivity. }
  assert (Hfull : copy_err s5 = None -> b = List.concat (chunks contents)).
  { intro Hn. apply Hball. congruence. }
  destruct e4 as [e|].
  - unfold ret. intro E. injection E as <- <-. exists hdr, b, c.
    cbn [SessionClose sent stdin_closed closed copy_err].
    split; [exact Hsent|]. split; [apply begins_refl|]. split; [exact Hb|].
    split; [exact Hc|]. split; [reflexivity|]. split; [congruence|].
    split; [intros Hn _; exact (Hfull Hn)|reflexivity].
  - unfold WClose. intro E. injection E as <- <-. exists hdr, b, c.
    cbn [SessionClose sent stdin_closed closed copy_err].
    split; [exact Hsent|]. split; [apply begins_refl|]. split; [exact Hb|].
    split; [exact Hc|]. split; [reflexivity|]. split; [intros _; exact (Hcall eq_refl)|].
    split; [intros Hn _; exact (Hfull Hn)|reflexivity].
Qed.

(** The header is written, the payload write fails after two bytes, the
    terminator is taken: header, [he], NUL. *)
Lemma _copy_writes_in_order_witness :
  exists s,
    CopyWithFileMode 420%N "hello.txt" "/tmp" (bytes "hello")
      (Examples.failing_payload 2 EOF) = (None, Some s) /\
    exists a b c,
      sent s = a ++ b ++ c /\
      begins a (bytes (header 420%N 5%Z "hello.txt")) /\
      begins b (List.concat (chunks (bytes_NewReader (bytes "hello")))) /\
      begins c [x00] /\
      (b <> [] \/ c <> [] -> a = bytes (header 420%N 5%Z "hello.txt")) /\
      (stdin_closed s = true -> c = [x00]) /\
      (copy_err s = None -> c = [x00] ->
       b = List.concat (chunks (bytes_NewReader (bytes "hello")))) /\
      closed s = true.
Proof.
  eexists. split; [vm_compute; reflexivity|].
  apply (_copy_writes_in_order 5%Z 420%N "hello.txt" "/tmp"
           (bytes_NewReader (bytes "hello")) (Examples.failing_payload 2 EOF) None).
  vm_compute; reflexivity.
Defined.

End CopyOrder.


(** * The header line, the permission bits, the channel answers *)

Module MoreProperties.

Import Observed HeaderFacts Server RequestFacts.

Lemma line_feeds_app (a b : list byte) : line_feeds (a ++ b) = line_feeds a + line_feeds b.
Proof. unfold line_feeds. rewrite filter_app, length_app. reflexivity. Qed.

Lemma line_feeds_digits (ds : list byte) : Forall Fmt.is_digit ds -> line_feeds ds = 0.
Proof.
  induction 1 as [|b ds Hb Hds IH]; [reflexivity|].
  unfold line_feeds in *. cbn [filter].
  destruct (Byte.eqb x0a b) eqn:E; [|exact IH].
  apply Byte.byte_dec_bl in E. subst b. destruct Hb as [Hlo _]. cbn in Hlo. lia.
Qed.

(** The header line is one line: it starts with [C], ends with a line
    feed and holds no other line feed than that one and those of the
    file name; with a file name free of line feeds it holds exactly
    one. *)
Theorem header_is_one_line (mode : FileMode) (size : Z) (fileName : string) :
  line_feeds (bytes (header mode size fileName)) = S (line_feeds (bytes fileName)) /\
  (exists middle, bytes (header mode size fileName) = "C"%byte :: middle ++ [x0a]) /\
  (line_feeds (bytes fileName) = 0 ->
   exists line, bytes (header mode size fileName) = line ++ [x0a] /\ line_feeds line = 0).
Proof.
  destruct (sharp_o_number mode) as (_ & Hmd & _ & _).
  destruct (digits_of_number 10 (Z.abs_N size) ltac:(lia)) as (_ & Hld & _).
  assert (Hd : line_feeds (bytes (Fmt.d size)) = 0).
  { unfold Fmt.d. destruct (size <? 0)%Z.
    - rewrite bytes_String.
      change (byte_of_ascii "-") with "-"%byte.
      change ("-"%byte :: bytes (Fmt.digits_of 10 (Z.abs_N size)))
        with (["-"%byte] ++ bytes (Fmt.digits_of 10 (Z.abs_N size))).
      rewrite line_feeds_app, (line_feeds_digits _ Hld). reflexivity.
    - apply line_feeds_digits. exact Hld. }
  assert (Hshape : bytes (header mode size fileName)
                   = "C"%byte :: (bytes (Fmt.sharp_o mode) ++ [" "%byte]
                                  ++ bytes (Fmt.d size) ++ [" "%byte] ++ bytes fileName)
                     ++ [x0a]).
  { unfold header. cbn [String.append]. rewrite bytes_String.
    rewrite bytes_app, bytes_String, bytes_app, bytes_String, bytes_app.
    change (bytes nl) with [x0a].
    change (byte_of_ascii "C") with "C"%byte. change (byte_of_ascii " ") with " "%byte.
    cbn [app]. repeat (rewrite <- app_assoc; cbn [app]). reflexivity. }
  assert (Hcount : line_feeds (bytes (Fmt.sharp_o mode) ++ [" "%byte]
                               ++ bytes (Fmt.d size) ++ [" "%byte] ++ bytes fileName)
                   = line_feeds (bytes fileName)).
  { rewrite !line_feeds_app, (line_feeds_digits _ Hmd), Hd. reflexivity. }
  split; [|split].
  - rewrite Hshape.
    change (line_feeds (["C"%byte] ++ (bytes (Fmt.sharp_o mode) ++ [" "%byte]
                         ++ bytes (Fmt.d size) ++ [" "%byte] ++ bytes fileName) ++ [x0a])
            = S (line_feeds (bytes fileName))).
    rewrite (line_feeds_app ["C"%byte]), (line_feeds_app _ [x0a]), Hcount. cbn. lia.
  - eexists. exact Hshape.
  - intro Hname. eexists. split; [rewrite Hshape; rewrite app_comm_cons; reflexivity|].
    change (line_feeds (["C"%byte] ++ (bytes (Fmt.sharp_o mode) ++ [" "%byte]
                         ++ bytes (Fmt.d size) ++ [" "%byte] ++ bytes fileName)) = 0).
    rewrite line_feeds_app, Hcount, Hname. reflexivity.
Qed.

Lemma header_is_one_line_witness :
  exists line, bytes (header 420%N 5%Z "hello.txt") = line ++ [x0a] /\ line_feeds line = 0.
Proof.
  apply (header_is_one_line 420%N 5%Z "hello.txt"). reflexivity.
Defined.

(** [CopyFile] looks at the file first: when [os.Open] or [Stat] fails
    that error is returned and no session is opened. Otherwise it copies
    under the base name of the path with the permission bits alone: the
    mode it hands on is the file's mode modulo 512, below 01000 whatever
    type bits the file has. *)
Theorem CopyFile_sends_permission_bits
  (os_Open : FS) (filePath destinationPath : string) (conn : Client) :
  (forall e, os_Open filePath = inr e ->
     CopyFile os_Open filePath destinationPath conn = (Some e, None)) /\
  (forall f e, os_Open filePath = inl f -> Stat f = inr e ->
     CopyFile os_Open filePath destinationPath conn = (Some e, None)) /\
  (forall f info, os_Open filePath = inl f -> Stat f = inl info ->
     exists perm : FileMode,
       CopyFile os_Open filePath destinationPath conn
       = _copy (Size info) perm (Path.Base filePath) destinationPath (f_reader f) conn /\
       perm = (Mode info mod 512)%N /\ (perm < 512)%N).
Proof.
  assert (Hperm : forall k : FileMode, Perm k = (k mod 512)%N).
  { intro k. unfold Perm. change 511%N with (N.ones 9). rewrite N.land_ones. reflexivity. }
  split; [|split].
  - intros e H. unfold CopyFile. rewrite H. reflexivity.
  - intros f e H1 H2. unfold CopyFile. rewrite H1, H2. reflexivity.
  - intros f info H1 H2. exists (Mode info mod 512)%N.
    split; [|split; [reflexivity|]].
    + unfold CopyFile. rewrite H1, H2, Hperm. reflexivity.
    + apply N.mod_upper_bound. discriminate.
Qed.

Lemma CopyFile_sends_permission_bits_witness :
  exists perm : FileMode,
    CopyFile Examples.directories "/tmp" "/srv" Examples.healthy
    = _copy 4096 perm (Path.Base "/tmp") "/srv" (mkReader [] (Some Examples.EISDIR))
            Examples.healthy /\
    perm = (2147484141 mod 512)%N /\ (perm < 512)%N.
Proof.
  exact (proj2 (proj2 (CopyFile_sends_permission_bits Examples.directories "/tmp" "/srv"
                         Examples.healthy))
           (mkFile (inl (mkFileInfo 4096%Z 2147484141%N))
                   (mkReader [] (Some Examples.EISDIR)))
           (mkFileInfo 4096%Z 2147484141%N) eq_refl eq_refl).
Defined.

(** Every incoming channel is answered exactly once, by a rejection or by
    an acceptance, never both and never neither. Goroutines are started
    for a channel only when its type is "session" and both the
    acceptance and [pty.Start] succeeded, and then they are the two
    relays and the request loop; in every other case none is started. *)
Theorem handleChannel_answers_once (c : NewChannel) :
  rejections (handleChannel c) + acceptances (handleChannel c) = 1 /\
  (rejections (handleChannel c) = 1 <-> ChannelType c <> "session"%string) /\
  ((ChannelType c = "session"%string /\ accept_err c = None /\ pty_err c = None) ->
   goroutines (handleChannel c)
   = [GoRelay PtyToChannel; GoRelay ChannelToPty; GoRequests (requests c)]) /\
  (~ (ChannelType c = "session"%string /\ accept_err c = None /\ pty_err c = None) ->
   goroutines (handleChannel c) = []).
Proof.
  unfold handleChannel.
  destruct (String.eqb_spec (ChannelType c) "session") as [Ht|Ht]; cbn [negb].
  - destruct (accept_err c) as [e|]; [|destruct (pty_err c) as [e|]]; cbn;
      (split; [reflexivity|]); (split; [split; [discriminate|intro F; contradiction F]|]);
      split; try reflexivity; try (intros (_ & F & _); discriminate F);
      try (intros (_ & _ & F); discriminate F);
      try (intro F; exfalso; apply F; repeat split; assumption).
  - cbn. split; [reflexivity|]. split; [split; [intros _; exact Ht|reflexivity]|].
    split; [intros [F _]; contradiction|reflexivity].
Qed.

Lemma handleChannel_answers_once_witness :
  goroutines (handleChannel (mkNewChannel "session" None None None []))
  = [GoRelay PtyToChannel; GoRelay ChannelToPty; GoRequests []].
Proof.
  apply (handleChannel_answers_once (mkNewChannel "session" None None None [])).
  repeat split.
Defined.

(** [parseDims] reads eight bytes and no more: when it returns, width and
    height are 32-bit numbers, and they are the same whatever follows the
    first eight bytes (the pixel sizes and terminal modes of a request
    are not looked at). *)
Theorem parseDims_reads_eight_bytes (b : list byte) (w h : Z) :
  parseDims b = Done (w, h) ->
  (0 <= w < 2 ^ 32 /\ 0 <= h < 2 ^ 32)%Z /\
  (forall extra, parseDims (b ++ extra) = Done (w, h)) /\
  parseDims (firstn 8 b) = Done (w, h) /\
  (8 <= List.length b)%nat.
Proof.
  intro H.
  assert (Hlen : ~ (List.length b < 8)%nat).
  { intro F. apply parseDims_Panic in F. congruence. }
  destruct b as [|w0 [|w1 [|w2 [|w3 [|h0 [|h1 [|h2 [|h3 rest]]]]]]]];
    try (exfalso; apply Hlen; cbn; lia).
  rewrite parseDims_big_endian in H. injection H as <- <-.
  split; [split; apply big_endian4_range|]. split; [|split].
  - intro extra. cbn [app]. apply parseDims_big_endian.
  - cbn [firstn]. apply parseDims_big_endian.
  - cbn. lia.
Qed.

Lemma parseDims_reads_eight_bytes_witness :
  parseDims (Examples.resize_120_40 ++ [x00; x00; x02; x80; x00; x00; x01; xe0])
  = Done (120, 40)%Z.
Proof.
  apply (parseDims_reads_eight_bytes Examples.resize_120_40 120 40). reflexivity.
Defined.

End MoreProperties.
